(** * phoebe.server: session broker, port pool, session store, worker loop

    A shallow embedding of the session-lifecycle code of the PHOEBE server
    ([phoebe_server/manager/session_manager.py], [phoebe_server/database.py],
    [phoebe_server/api/session.py], [phoebe_server/api/command.py] and the
    command loop of [phoebe_server/worker/phoebe_worker.py]) together with
    the properties its specification states about it.

    Conventions of the embedding:
    - a Python [str] is a [string]; each [ascii] stands for the code point
      of the same number (the Latin-1 part of Unicode);
    - a Python [int] is a [Z]; [time.time()] readings are [Z] clock ticks;
    - the module-level globals ([server_registry], [available_ports],
      [reserved_ports]) and the outside world (the sqlite file, the process
      table, loggers) are fields of one explicit state that every function
      threads; a raised exception is the left injection of a sum. *)

From Stdlib Require Import ZArith QArith Ascii String List.
From stdpp Require Import base option list gmap sets strings pretty sorting.

Local Open Scope string_scope.
Local Open Scope Z_scope.

(* ===================================================================== *)
(** ** Python strings: [str.split(sep)] and [str.strip()] *)
(* ===================================================================== *)

Module PyStr.

(** Code points below 256 for which [str.isspace()] holds, the set that
    [str.strip()] removes: TAB..CR, FS..US, SPACE, NEL and NBSP. *)
Definition is_space (c : ascii) : bool :=
  let n := nat_of_ascii c in
  ((9 <=? n)%nat && (n <=? 13)%nat)
  || ((28 <=? n)%nat && (n <=? 32)%nat)
  || (n =? 133)%nat || (n =? 160)%nat.

(** [s.lstrip()] *)
Fixpoint lstrip (s : string) : string :=
  match s with
  | EmptyString => EmptyString
  | String c rest => if is_space c then lstrip rest else s
  end.

(** [s.rstrip()] *)
Fixpoint rstrip (s : string) : string :=
  match s with
  | EmptyString => EmptyString
  | String c rest =>
      match rstrip rest with
      | EmptyString => if is_space c then EmptyString else String c EmptyString
      | r => String c r
      end
  end.

(** [s.strip()] *)
Definition strip (s : string) : string := rstrip (lstrip s).

(** [s.split(sep)] for a one-character separator: never empty, and the
    empty string splits into one empty field. *)
Fixpoint split (sep : ascii) (s : string) : list string :=
  match s with
  | EmptyString => [EmptyString]
  | String c rest =>
      if Ascii.eqb c sep then EmptyString :: split sep rest
      else match split sep rest with
           | [] => [String c EmptyString]
           | field :: fields => String c field :: fields
           end
  end.

(** [bool(s)]: a string is truthy when it is not empty. *)
Definition truthy (s : string) : bool :=
  match s with EmptyString => false | _ => true end.

(** [x in xs] on a list of strings. *)
Definition mem (x : string) (xs : list string) : bool :=
  existsb (String.eqb x) xs.

Definition comma : ascii := ","%char.

(** [c in s] on the characters of a string. *)
Fixpoint has_char (c : ascii) (s : string) : bool :=
  match s with
  | EmptyString => false
  | String d rest => Ascii.eqb d c || has_char c rest
  end.

(** First and last character, when there is one. *)
Definition first_char (s : string) : option ascii :=
  match s with EmptyString => None | String c _ => Some c end.

Fixpoint last_char (s : string) : option ascii :=
  match s with
  | EmptyString => None
  | String c EmptyString => Some c
  | String _ rest => last_char rest
  end.

(** [f"...{n}..."] for an integer. *)
Definition of_int (n : Z) : string := pretty n.

End PyStr.

(* ===================================================================== *)
(** ** Exceptions *)
(* ===================================================================== *)

(** The exceptions the broker raises or meets. All of them derive from
    Python's [Exception], so an [except Exception] clause catches each. *)
Inductive Exn : Type :=
| RuntimeError (msg : string)
| OSError (msg : string)                 (* [psutil.Popen] could not start the child *)
| DatabaseError (msg : string)           (* the [sqlite3.Error] family *)
| KeyError (key : string)
| HTTPException (status_code : Z) (detail : string).

Definition exn_str (e : Exn) : string :=
  match e with
  | RuntimeError m | OSError m | DatabaseError m => m
  | KeyError k => "'" ++ k ++ "'"
  | HTTPException _ d => d
  end.

(* ===================================================================== *)
(** ** The port pool ([session_manager.py], lines 14-16 and 44-71) *)
(* ===================================================================== *)

Module PortPool.

(** [available_ports: list[int]] and [reserved_ports: set]. *)
Record t : Type := mk {
  available_ports : list Z;
  reserved_ports : gset Z
}.

(** The module-level initial values. *)
Definition module_init : t := mk [] ∅.

(** [load_port_config]: [available_ports = list(range(start, end))];
    [reserved_ports] is not assigned. *)
Definition load_port_config (start end_ : Z) (pool : t) : t :=
  mk (seqZ start (end_ - start)) (reserved_ports pool).

Definition no_ports_msg : string := "No available ports in pool".

(** [request_port] *)
Definition request_port (pool : t) : (Exn + Z) * t :=
  match available_ports pool with
  | [] => (inl (RuntimeError no_ports_msg), pool)
  | port :: rest => (inr port, mk rest ({[port]} ∪ reserved_ports pool))
  end.

(** [release_port] *)
Definition release_port (port : Z) (pool : t) : t :=
  if decide (port ∈ reserved_ports pool)
  then mk (available_ports pool ++ [port]) (reserved_ports pool ∖ {[port]})
  else pool.

(** The dictionary [get_port_status] returns. *)
Record status : Type := mk_status {
  total_ports : Z;
  reserved_count : Z;
  available_count : Z;
  reserved_port_list : list Z;
  port_range : string
}.

(** [get_port_status] *)
Definition get_port_status (start end_ : Z) (pool : t) : status :=
  let total := Z.of_nat (length (available_ports pool))
               + Z.of_nat (size (reserved_ports pool)) in
  let port_min := start in
  let port_max := end_ - 1 in
  mk_status total
            (Z.of_nat (size (reserved_ports pool)))
            (Z.of_nat (length (available_ports pool)))
            (merge_sort Z.le (elements (reserved_ports pool)))
            (PyStr.of_int port_min ++ "-" ++ PyStr.of_int port_max).

(** A call of one of the two pool operations, and runs of them. *)
Inductive op : Type :=
| Request
| Release (port : Z).

Definition step (pool : t) (o : op) : t :=
  match o with
  | Request => snd (request_port pool)
  | Release port => release_port port pool
  end.

Definition run (ops : list op) (pool : t) : t := foldl step pool ops.

(** The partition invariant over [[start, end_)]. *)
Record partition (start end_ : Z) (pool : t) : Prop := {
  part_nodup : NoDup (available_ports pool);
  part_disjoint : ∀ p, p ∈ available_ports pool → p ∉ reserved_ports pool;
  part_cover : ∀ p, p ∈ available_ports pool ∨ p ∈ reserved_ports pool
                    ↔ start ≤ p < end_
}.

End PortPool.

(* ===================================================================== *)
(** ** JSON values and insertion-ordered dictionaries *)
(* ===================================================================== *)

(** What [json.loads] / [recv_json] can produce. A float is carried by
    its printed text; its arithmetic is not modelled. *)
Set Warnings "-register-all,-clear-no-such-hyp".

Inductive json : Type :=
| JNull
| JBool (b : bool)
| JInt (n : Z)
| JFloat (repr : string)
| JStr (s : string)
| JList (items : list json)
| JDict (fields : list (string * json)).

(** A Python [dict] with string keys: an association list in insertion
    order whose keys are kept distinct by the operations below. *)
Module Dict.
Section ops.
Context {V : Type}.

(** [d.get(k)] *)
Fixpoint get (k : string) (d : list (string * V)) : option V :=
  match d with
  | [] => None
  | (k', v) :: rest => if String.eqb k' k then Some v else get k rest
  end.

(** [d[k] = v]: overwrite in place, or append a new key. *)
Fixpoint set (k : string) (v : V) (d : list (string * V)) : list (string * V) :=
  match d with
  | [] => [(k, v)]
  | (k', v') :: rest =>
      if String.eqb k' k then (k', v) :: rest else (k', v') :: set k v rest
  end.

(** [del d[k]] on a present key. *)
Fixpoint del (k : string) (d : list (string * V)) : list (string * V) :=
  match d with
  | [] => []
  | (k', v') :: rest =>
      if String.eqb k' k then rest else (k', v') :: del k rest
  end.

(** [list(d.keys())] *)
Definition keys (d : list (string * V)) : list string := map fst d.

(** [k in d] *)
Definition mem (k : string) (d : list (string * V)) : bool :=
  match get k d with Some _ => true | None => false end.
End ops.
End Dict.

(* ===================================================================== *)
(** ** The sqlite tables ([database.py], lines 26-72) *)
(* ===================================================================== *)

Module Sql.

(** A row of [sessions]; the primary key [session_id] is the map key. *)
Record session_row : Type := mk_session {
  created_at : Z;
  destroyed_at : option Z;
  last_activity : Z;
  port : Z;
  client_ip : option string;
  user_agent : option string;
  termination_reason : option string;
  status : string
}.

(** A row of [session_metrics]; the autoincrement id is the position. *)
Record metric_row : Type := mk_metric {
  m_session_id : string;
  m_timestamp : Z;
  m_memory_used_mb : Q
}.

(** A row of [session_commands]; the autoincrement id is the position. *)
Record command_row : Type := mk_command {
  c_session_id : string;
  c_timestamp : Z;
  c_command_name : string;
  c_success : Z;
  c_execution_time_ms : option Z;
  c_error_message : option string
}.

(** A row of [session_user_info], keyed by [session_id]. *)
Record user_row : Type := mk_user {
  u_first_name : string;
  u_last_name : string;
  u_email : string;
  u_updated_at : Z
}.

(** The database file together with what decides whether it can be
    reached: [_db_path] (unset until [init_database]) and the condition
    of the file ([Some msg]: every connection attempt fails with an
    [sqlite3.OperationalError], e.g. a locked or unwritable file). *)
Record t : Type := mk {
  db_path : option string;
  io_fault : option string;
  sessions : gmap string session_row;
  session_metrics : list metric_row;
  session_commands : list command_row;
  session_user_info : gmap string user_row
}.

Definition with_sessions (f : gmap string session_row → gmap string session_row)
    (db : t) : t :=
  mk (db_path db) (io_fault db) (f (sessions db)) (session_metrics db)
     (session_commands db) (session_user_info db).

(** The statements the log functions execute, with their bound values. *)
Inductive stmt : Type :=
| InsertSession (session_id : string) (created_at port : Z)
                (client_ip user_agent : option string)
| UpdateDestroyed (session_id : string) (destroyed_at : Z)
                  (termination_reason : string)
| UpdateActivity (session_id : string) (last_activity : Z)
| InsertMetric (session_id : string) (timestamp : Z) (memory_used_mb : Q)
| InsertCommand (session_id : string) (timestamp : Z) (command_name : json)
                (success : bool) (execution_time_ms : option Z)
                (error_message : option string)
| UpsertUserInfo (session_id first_name last_name email : string)
                 (updated_at : Z).

(** Binding a Python value to the [TEXT NOT NULL] column
    [command_name]: [None] violates the constraint, containers cannot
    be bound, numbers are stored as their text. *)
Definition bind_text (v : json) : Exn + string :=
  match v with
  | JStr s => inr s
  | JInt n => inr (PyStr.of_int n)
  | JBool b => inr (if b then "1" else "0")
  | JFloat r => inr r
  | JNull => inl (DatabaseError "NOT NULL constraint failed: session_commands.command_name")
  | JList _ | JDict _ => inl (DatabaseError "Error binding parameter: type is not supported")
  end.

(** [db.execute(stmt); db.commit()] on an open connection. *)
Definition execute (s : stmt) (db : t) : Exn + t :=
  match s with
  | InsertSession sid at_ p ip ua =>
      match sessions db !! sid with
      | Some _ => inl (DatabaseError "UNIQUE constraint failed: sessions.session_id")
      | None =>
          inr (with_sessions
                 (insert sid (mk_session at_ None at_ p ip ua None "active")) db)
      end
  | UpdateDestroyed sid at_ reason =>
      inr (with_sessions
             (alter (λ r, mk_session (created_at r) (Some at_) (last_activity r)
                                     (port r) (client_ip r) (user_agent r)
                                     (Some reason) "terminated") sid) db)
  | UpdateActivity sid at_ =>
      inr (with_sessions
             (alter (λ r, mk_session (created_at r) (destroyed_at r) at_
                                     (port r) (client_ip r) (user_agent r)
                                     (termination_reason r) (status r)) sid) db)
  | InsertMetric sid ts mem =>
      inr (mk (db_path db) (io_fault db) (sessions db)
              (session_metrics db ++ [mk_metric sid ts mem])
              (session_commands db) (session_user_info db))
  | InsertCommand sid ts name ok ms err =>
      match bind_text name with
      | inl e => inl e
      | inr text =>
          inr (mk (db_path db) (io_fault db) (sessions db) (session_metrics db)
                  (session_commands db
                     ++ [mk_command sid ts text (if ok then 1 else 0) ms err])
                  (session_user_info db))
      end
  | UpsertUserInfo sid first last email ts =>
      inr (mk (db_path db) (io_fault db) (sessions db) (session_metrics db)
              (session_commands db)
              (<[sid := mk_user first last email ts]> (session_user_info db)))
  end.

(** [with get_db() as db: db.execute(...); db.commit()]: the connection
    is opened (which fails when [_db_path] is unset or the file cannot
    be reached), the statement runs, and a statement that raises leaves
    the file as it was. *)
Definition transact (s : stmt) (db : t) : Exn + t :=
  match db_path db with
  | None => inl (RuntimeError "Database not initialized. Call init_database() first.")
  | Some _ =>
      match io_fault db with
      | Some msg => inl (DatabaseError msg)
      | None => execute s db
      end
  end.

End Sql.

(* ===================================================================== *)
(** ** Configuration, processes, the journal and the broker state *)
(* ===================================================================== *)

(** Modelled from the spec: the options of [phoebe_server.config] that
    the code reads (the module itself is not among the sources); the
    functions below take the record as a parameter. *)
Record Config : Type := mk_config {
  port_pool_start : Z;
  port_pool_end : Z;
  idle_timeout_seconds : Z;
  log_include_commands : string;
  log_exclude_commands : string
}.

(** The process table as [psutil] shows it: which worker pids run, which
    of them would outlive the 3 s grace after SIGTERM, and their resident
    set sizes in bytes. *)
Module OS.
Record t : Type := mk {
  running : gset Z;
  stubborn : gset Z;
  rss : gmap Z Z
}.

(** [proc.is_running()] *)
Definition is_running (pid : Z) (os : t) : bool := bool_decide (pid ∈ running os).

(** The state once the process has been reaped. *)
Definition reap (pid : Z) (os : t) : t :=
  mk (running os ∖ {[pid]}) (stubborn os) (rss os).

(** The state once [psutil.Popen] has started a child. *)
Definition start (pid : Z) (os : t) : t :=
  mk ({[pid]} ∪ running os) (stubborn os) (rss os).

(** [proc.memory_info().rss], or [None] for [psutil.NoSuchProcess]. *)
Definition memory_rss (pid : Z) (os : t) : option Z :=
  if is_running pid os then Some (default 0 (rss os !! pid)) else None.
End OS.

Inductive Level : Type := DEBUG | INFO | WARNING | ERROR.

(** Everything the broker does that can be seen from outside the
    function that does it, in the order it is done. *)
Inductive Event : Type :=
| EvPopen (pid port : Z)                 (* [psutil.Popen([... str(port)])] *)
| EvTerminate (pid : Z)                  (* [proc.terminate()] *)
| EvWait (pid : Z) (timed_out : bool)    (* [proc.wait(...)] *)
| EvKill (pid : Z)                       (* [proc.kill()] *)
| EvRequestPort (port : Z)               (* [request_port()] returned [port] *)
| EvReleasePort (port : Z)               (* [release_port(port)] *)
| EvRegistrySet (session_id : string)    (* [server_registry[session_id] = ...] *)
| EvRegistryDel (session_id : string)    (* [del server_registry[session_id]] *)
| EvStore (s : Sql.stmt) (raised : option Exn)  (* a statement sent to sqlite *)
| EvRpc (port : Z) (command : list (string * json))  (* [send_command(port, command)] *)
| EvLog (level : Level) (msg : string).  (* [logger.<level>(msg)] *)

(** A registry entry, the dictionary built in [launch_phoebe_worker]. The
    key [user_email] is absent until [update_session_user_info] sets it. *)
Record SessionInfo : Type := mk_info {
  session_id : string;
  process : option Z;
  created_at : Z;
  last_activity : Z;
  mem_used : Q;
  port : Z;
  user_first_name : option string;
  user_last_name : option string;
  user_email : option string;
  user_display_name : string
}.

(** [info['last_activity'] = t] *)
Definition with_last_activity (t : Z) (info : SessionInfo) : SessionInfo :=
  mk_info (session_id info) (process info) (created_at info) t (mem_used info)
          (port info) (user_first_name info) (user_last_name info)
          (user_email info) (user_display_name info).

(** [info['mem_used'] = mem] *)
Definition with_mem_used (mem : Q) (info : SessionInfo) : SessionInfo :=
  mk_info (session_id info) (process info) (created_at info) (last_activity info)
          mem (port info) (user_first_name info) (user_last_name info)
          (user_email info) (user_display_name info).

(** The four assignments of [update_session_user_info]. *)
Definition with_user (first_name last_name email : string) (info : SessionInfo)
    : SessionInfo :=
  mk_info (session_id info) (process info) (created_at info) (last_activity info)
          (mem_used info) (port info) (Some first_name) (Some last_name)
          (Some email) (first_name ++ " " ++ last_name).

(** [{k: v for k, v in info.items() if k != 'process'}] *)
Definition without_process (info : SessionInfo) : SessionInfo :=
  mk_info (session_id info) None (created_at info) (last_activity info)
          (mem_used info) (port info) (user_first_name info)
          (user_last_name info) (user_email info) (user_display_name info).

Record World : Type := mk_world {
  server_registry : list (string * SessionInfo);
  ports : PortPool.t;
  db : Sql.t;
  os : OS.t;
  clock : Z;
  journal : list Event
}.

(* --------------------------------------------------------------------- *)
(** *** Computations over the broker state that may raise *)
(* --------------------------------------------------------------------- *)

Definition M (A : Type) : Type := World → (Exn + A) * World.

Definition ret {A} (a : A) : M A := λ w, (inr a, w).
Definition raise {A} (e : Exn) : M A := λ w, (inl e, w).

Definition bind {A B} (m : M A) (k : A → M B) : M B :=
  λ w, match m w with
       | (inr a, w') => k a w'
       | (inl e, w') => (inl e, w')
       end.

Notation "'let!' x ':=' m 'in' k" := (bind m (λ x, k))
  (at level 10, x name, m at level 100, k at level 200).
Notation "m ';;' k" := (bind m (λ _, k))
  (at level 100, k at level 200, right associativity).

(** [try: m  except Exception as e: handler e] *)
Definition try_except {A} (m : M A) (handler : Exn → M A) : M A :=
  λ w, match m w with
       | (inr a, w') => (inr a, w')
       | (inl e, w') => handler e w'
       end.

Definition gets {A} (f : World → A) : M A := λ w, (inr (f w), w).
Definition modify (f : World → World) : M unit := λ w, (inr tt, f w).

Definition emit (ev : Event) : M unit :=
  modify (λ w, mk_world (server_registry w) (ports w) (db w) (os w) (clock w)
                        (journal w ++ [ev])).
Definition set_registry (r : list (string * SessionInfo)) : M unit :=
  modify (λ w, mk_world r (ports w) (db w) (os w) (clock w) (journal w)).
Definition set_ports (p : PortPool.t) : M unit :=
  modify (λ w, mk_world (server_registry w) p (db w) (os w) (clock w) (journal w)).
Definition set_db (d : Sql.t) : M unit :=
  modify (λ w, mk_world (server_registry w) (ports w) d (os w) (clock w) (journal w)).
Definition set_os (o : OS.t) : M unit :=
  modify (λ w, mk_world (server_registry w) (ports w) (db w) o (clock w) (journal w)).
Definition advance (dt : Z) : M unit :=
  modify (λ w, mk_world (server_registry w) (ports w) (db w) (os w) (clock w + dt)
                        (journal w)).

(** [time.time()] *)
Definition time_time : M Z := gets clock.

Definition logger (level : Level) (msg : string) : M unit := emit (EvLog level msg).

(** [for x in xs: body x] *)
Fixpoint for_each {A} (xs : list A) (body : A → M unit) : M unit :=
  match xs with
  | [] => ret tt
  | x :: rest => body x ;; for_each rest body
  end.

(** [if c: m] *)
Definition when (c : bool) (m : M unit) : M unit := if c then m else ret tt.

(* ===================================================================== *)
(** ** The session store ([database.py], lines 112-211) *)
(* ===================================================================== *)

Module Database.
Section with_config.
Context (config : Config).

(** [[c.strip() for c in text.split(",") if c.strip()]] *)
Definition parse_list (text : string) : list string :=
  map PyStr.strip
      (List.filter (λ c, PyStr.truthy (PyStr.strip c)) (PyStr.split PyStr.comma text)).

(** [command_name in names]: a value that is not a string equals no
    element of a list of strings. *)
Definition name_in (command_name : json) (names : list string) : bool :=
  match command_name with
  | JStr s => PyStr.mem s names
  | _ => false
  end.

(** [should_log_command] *)
Definition should_log_command (command_name : json) : bool :=
  let exclude := parse_list (log_exclude_commands config) in
  let include := parse_list (log_include_commands config) in
  match include with
  | _ :: _ => name_in command_name include
  | [] => negb (name_in command_name exclude)
  end.

(** The shape every log function shares:
    [try: with get_db() as db: db.execute(s); db.commit(); <after>
     except Exception as e: logger.error(f"<what>: {e}")]. *)
Definition guarded_write (s : Sql.stmt) (after : M unit) (what : string) : M unit :=
  try_except
    (let! d := gets db in
     match Sql.transact s d with
     | inl e => emit (EvStore s (Some e)) ;; raise e
     | inr d' => set_db d' ;; emit (EvStore s None) ;; after
     end)
    (λ e, logger ERROR (what ++ ": " ++ exn_str e)).

(** [log_session_created] *)
Definition log_session_created (session_id : string) (created_at port : Z)
    (client_ip user_agent : option string) : M unit :=
  guarded_write (Sql.InsertSession session_id created_at port client_ip user_agent)
                (logger DEBUG ("Logged session creation: " ++ session_id))
                "Failed to log session creation".

(** [log_session_destroyed] *)
Definition log_session_destroyed (session_id : string) (destroyed_at : Z)
    (termination_reason : string) : M unit :=
  guarded_write (Sql.UpdateDestroyed session_id destroyed_at termination_reason)
                (logger DEBUG ("Logged session destruction: " ++ session_id))
                "Failed to log session destruction".

(** [log_session_activity] *)
Definition log_session_activity (session_id : string) (last_activity : Z) : M unit :=
  guarded_write (Sql.UpdateActivity session_id last_activity)
                (ret tt)
                "Failed to log session activity".

(** [log_session_metric] *)
Definition log_session_metric (session_id : string) (timestamp : Z)
    (memory_used_mb : Q) : M unit :=
  guarded_write (Sql.InsertMetric session_id timestamp memory_used_mb)
                (ret tt)
                "Failed to log session metric".

(** [log_command_execution] *)
Definition log_command_execution (session_id : string) (timestamp : Z)
    (command_name : json) (success : bool) (execution_time_ms : option Z)
    (error_message : option string) : M unit :=
  if negb (should_log_command command_name) then ret tt
  else
    guarded_write (Sql.InsertCommand session_id timestamp command_name success
                                     execution_time_ms error_message)
                  (ret tt)
                  "Failed to log command execution".

(** [log_user_info_update] *)
Definition log_user_info_update (session_id first_name last_name email : string)
    (updated_at : Z) : M unit :=
  guarded_write (Sql.UpsertUserInfo session_id first_name last_name email updated_at)
                (ret tt)
                "Failed to log user info update".

End with_config.
End Database.

(* ===================================================================== *)
(** ** Session lifecycle ([manager/session_manager.py]) *)
(* ===================================================================== *)

Module SessionManager.

(** What the outside world decides about one launch: the value of
    [uuid.uuid4()], whether [psutil.Popen] starts the child (and its
    pid), and the answer of [_wait_for_worker_ready(port)]. *)
Record Launch : Type := mk_launch {
  uuid4 : string;
  popen : Exn + Z;
  worker_ready : bool
}.

(** The [termination_reason] default of [shutdown_server]. *)
Definition default_termination_reason : string := "manual".

(** [request_port], on the global pool *)
Definition request_port : M Z :=
  let! pool := gets ports in
  match PortPool.request_port pool with
  | (inl e, _) => raise e
  | (inr port, pool') => set_ports pool' ;; emit (EvRequestPort port) ;; ret port
  end.

(** [release_port], on the global pool *)
Definition release_port (port : Z) : M unit :=
  let! pool := gets ports in
  set_ports (PortPool.release_port port pool) ;; emit (EvReleasePort port).

(** [server_registry[session_id] = info] *)
Definition registry_set (session_id : string) (info : SessionInfo) : M unit :=
  let! r := gets server_registry in
  set_registry (Dict.set session_id info r) ;; emit (EvRegistrySet session_id).

(** [del server_registry[session_id]] *)
Definition registry_del (session_id : string) : M unit :=
  let! r := gets server_registry in
  if Dict.mem session_id r
  then set_registry (Dict.del session_id r) ;; emit (EvRegistryDel session_id)
  else raise (KeyError session_id).

(** An assignment to one key of an entry, [info[...] = ...]: the entry
    is the object the registry holds, so the registry sees it. *)
Definition registry_update (session_id : string) (info : SessionInfo) : M unit :=
  let! r := gets server_registry in
  set_registry (Dict.set session_id info r).

(** [proc.terminate()], then [proc.wait(timeout=3)], and on
    [psutil.TimeoutExpired] the handler: [before_kill], [proc.kill()],
    [after_kill]. A signal to an own child that is not reaped yet does
    not raise, so [psutil.NoSuchProcess] does not occur here. *)
Definition terminate_then_kill (pid : Z) (before_kill after_kill : M unit) : M unit :=
  emit (EvTerminate pid) ;;
  let! o := gets os in
  if bool_decide (pid ∈ OS.stubborn o)
  then emit (EvWait pid true) ;; before_kill ;; emit (EvKill pid) ;; after_kill ;;
       set_os (OS.reap pid o)
  else emit (EvWait pid false) ;; set_os (OS.reap pid o).

Section with_config.
Context (config : Config).

(** [launch_phoebe_worker] *)
Definition launch_phoebe_worker (env : Launch)
    (client_ip user_agent : option string) : M SessionInfo :=
  let session_id := uuid4 env in
  let! port := request_port in
  let! current_time := time_time in
  try_except
    (let! proc :=
       match popen env with
       | inl e => raise e
       | inr pid =>
           let! o := gets os in
           set_os (OS.start pid o) ;; emit (EvPopen pid port) ;; ret pid
       end in
     when (negb (worker_ready env))
          (terminate_then_kill proc (ret tt) (ret tt) ;;
           release_port port ;;
           raise (RuntimeError ("Worker failed to start within timeout on port "
                                ++ PyStr.of_int port))) ;;
     let info := mk_info session_id (Some proc) current_time current_time 0%Q port
                         None None None "Not logged in" in
     registry_set session_id info ;;
     Database.log_session_created session_id current_time port client_ip user_agent ;;
     logger INFO ("Started session " ++ session_id ++ " on port " ++ PyStr.of_int port) ;;
     let! r := gets server_registry in
     match Dict.get session_id r with
     | Some stored => ret (without_process stored)
     | None => raise (KeyError session_id)
     end)
    (λ e, release_port port ;;
          logger ERROR ("Failed to launch worker: " ++ exn_str e) ;;
          raise e).

(** [update_last_activity] *)
Definition update_last_activity (session_id : string) : M unit :=
  let! r := gets server_registry in
  match Dict.get session_id r with
  | Some info =>
      let! current_time := time_time in
      registry_update session_id (with_last_activity current_time info) ;;
      Database.log_session_activity session_id current_time
  | None => ret tt
  end.

(** [get_current_memory_usage] *)
Definition get_current_memory_usage (session_id : string) : M (option Q) :=
  let! r := gets server_registry in
  match Dict.get session_id r with
  | Some info =>
      match process info with
      | Some proc =>
          let! o := gets os in
          match OS.memory_rss proc o with
          | Some rss =>
              let mem := (inject_Z rss / inject_Z (1024 * 1024))%Q in
              registry_update session_id (with_mem_used mem info) ;;
              let! current_time := time_time in
              update_last_activity session_id ;;
              Database.log_session_metric session_id current_time mem ;;
              ret (Some mem)
          | None => ret None
          end
      | None => ret None
      end
  | None => ret None
  end.

(** [get_server_info] *)
Definition get_server_info (session_id : string) : M (option SessionInfo) :=
  let! r := gets server_registry in
  match Dict.get session_id r with
  | None => ret None
  | Some info => ret (Some (without_process info))
  end.

(** [update_session_user_info] *)
Definition update_session_user_info (session_id first_name last_name email : string)
    : M bool :=
  let! r := gets server_registry in
  match Dict.get session_id r with
  | Some info =>
      registry_update session_id (with_user first_name last_name email info) ;;
      let! current_time := time_time in
      update_last_activity session_id ;;
      Database.log_user_info_update session_id first_name last_name email current_time ;;
      ret true
  | None => ret false
  end.

(** [shutdown_server] *)
Definition shutdown_server (session_id : string) (termination_reason : string)
    : M bool :=
  let! r := gets server_registry in
  match Dict.get session_id r with
  | None => ret false
  | Some info =>
      let proc := process info in
      let port := port info in
      match proc with
      | Some pid =>
          let! o := gets os in
          when (OS.is_running pid o)
               (terminate_then_kill pid
                  (logger WARNING ("Session " ++ session_id
                                   ++ " did not terminate gracefully, killing"))
                  (emit (EvWait pid false)))
      | None => ret tt
      end ;;
      when (negb (port =? 0)%Z) (release_port port) ;;
      let! destroyed_at := time_time in
      Database.log_session_destroyed session_id destroyed_at termination_reason ;;
      registry_del session_id ;;
      logger INFO ("Shutdown session " ++ session_id) ;;
      ret true
  end.

(** The scan of [list_sessions]: the ids whose process is not running. *)
Definition dead_sessions (r : list (string * SessionInfo)) (o : OS.t) : list string :=
  map fst (List.filter
             (λ entry, match process (snd entry) with
                       | Some pid => negb (OS.is_running pid o)
                       | None => false
                       end) r).

(** [list_sessions] *)
Definition list_sessions : M (list (string * option SessionInfo)) :=
  let! r := gets server_registry in
  let! o := gets os in
  for_each (dead_sessions r o)
           (λ session_id,
              shutdown_server session_id default_termination_reason ;; ret tt) ;;
  let! r' := gets server_registry in
  ret (map (λ sid, (sid, without_process <$> Dict.get sid r')) (Dict.keys r')).

(** The scan of [cleanup_idle_sessions]. *)
Definition idle_sessions (r : list (string * SessionInfo)) (current_time : Z)
    : list (string * Z) :=
  omap (λ entry, let idle_time := current_time - last_activity (snd entry) in
                 if (idle_timeout_seconds config <? idle_time)%Z
                 then Some (fst entry, idle_time) else None) r.

(** [cleanup_idle_sessions] *)
Definition cleanup_idle_sessions : M Z :=
  let! current_time := time_time in
  let! r := gets server_registry in
  let idle := idle_sessions r current_time in
  for_each idle
           (λ e, logger INFO ("Session " ++ fst e ++ " idle for "
                              ++ PyStr.of_int (snd e) ++ "s, shutting down")) ;;
  for_each idle (λ e, shutdown_server (fst e) "idle_timeout" ;; ret tt) ;;
  ret (Z.of_nat (length idle)).

(** [shutdown_all_sessions] *)
Definition shutdown_all_sessions : M Z :=
  let! r := gets server_registry in
  let session_ids := Dict.keys r in
  match session_ids with
  | [] => logger INFO "No active sessions to shutdown" ;; ret 0
  | _ =>
      logger INFO ("Shutting down "
                   ++ PyStr.of_int (Z.of_nat (length session_ids))
                   ++ " active sessions") ;;
      for_each session_ids
               (λ sid, try_except
                         (shutdown_server sid "server_shutdown" ;; ret tt)
                         (λ e, logger ERROR ("Error shutting down session " ++ sid
                                             ++ ": " ++ exn_str e))) ;;
      ret (Z.of_nat (length session_ids))
  end.

(** [get_port_status] *)
Definition get_port_status : M PortPool.status :=
  let! pool := gets ports in
  ret (PortPool.get_port_status (port_pool_start config) (port_pool_end config) pool).

End with_config.
End SessionManager.

(* ===================================================================== *)
(** ** HTTP handlers ([api/session.py], [api/command.py]) *)
(* ===================================================================== *)

Module Api.

(** What the handlers read of a [Request]: the header list as the server
    hands it over (names in lower case) and the peer address, if any. *)
Record Request : Type := mk_request {
  headers : list (string * string);
  client : option (string * Z)
}.

Definition lower_char (c : ascii) : ascii :=
  let n := nat_of_ascii c in
  if ((65 <=? n)%nat && (n <=? 90)%nat)%bool then ascii_of_nat (n + 32) else c.

Fixpoint lower (s : string) : string :=
  match s with
  | EmptyString => EmptyString
  | String c rest => String (lower_char c) (lower rest)
  end.

(** [request.headers.get(key, None)]: the value of the first header whose
    name is [key.lower()]. *)
Definition headers_get (key : string) (hs : list (string * string)) : option string :=
  snd <$> List.find (λ h, String.eqb (fst h) (lower key)) hs.

(** [get_client_ip] *)
Definition get_client_ip (request : Request) : string :=
  match headers_get "X-Forwarded-For" (headers request) with
  | Some forwarded_for =>
      PyStr.strip (hd EmptyString (PyStr.split PyStr.comma forwarded_for))
  | None =>
      match client request with
      | Some peer => fst peer
      | None => "unknown"
      end
  end.

(** Modelled from the spec: the reply envelope of the worker RPC proxy
    ([phoebe_server.worker.proxy.send_command], whose source is not part
    of the files embedded here): [{success: true, result}] or
    [{success: false, error, traceback?}]. *)
Inductive Reply : Type :=
| ReplyOk (result : json)
| ReplyError (error : string) (traceback : option string).

(** [response.get('success', False)] *)
Definition reply_success (r : Reply) : bool :=
  match r with ReplyOk _ => true | ReplyError _ _ => false end.

(** [response.get('error')] *)
Definition reply_error (r : Reply) : option string :=
  match r with ReplyOk _ => None | ReplyError e _ => Some e end.

Section with_config.
Context (config : Config).

(** The worker behind a port, as the proxy sees it: its reply to a
    command and the time the exchange takes. *)
Context (worker : Z → list (string * json) → Reply * Z).

(** [send_command(port, command)] *)
Definition send_command (port : Z) (command : list (string * json)) : M Reply :=
  emit (EvRpc port command) ;;
  advance (snd (worker port command)) ;;
  ret (fst (worker port command)).

(** [send], the handler of [POST /send/{session_id}] *)
Definition send (session_id : string) (command : list (string * json)) : M Reply :=
  let! info := SessionManager.get_server_info session_id in
  match info with
  | None => raise (HTTPException 404 "Invalid session ID")
  | Some info =>
      SessionManager.update_last_activity session_id ;;
      let port := port info in
      let command_name := default (JStr "unknown") (Dict.get "command" command) in
      let! start_time := time_time in
      let! response := send_command port command in
      let! end_time := time_time in
      let execution_time_ms := (end_time - start_time) * 1000 in
      let success := reply_success response in
      let error_message := if negb success then reply_error response else None in
      let! timestamp := time_time in
      Database.log_command_execution config session_id timestamp command_name
                                     success (Some execution_time_ms) error_message ;;
      let! _ := SessionManager.get_current_memory_usage session_id in
      ret response
  end.

(** [list_sessions], the handler of [GET /sessions] *)
Definition list_sessions : M (list (string * option SessionInfo)) :=
  let! _ := SessionManager.cleanup_idle_sessions config in
  SessionManager.list_sessions.

(** [start_session], the handler of [POST /start-session] *)
Definition start_session (env : SessionManager.Launch) (request : Request)
    : M SessionInfo :=
  let client_ip := get_client_ip request in
  let user_agent := headers_get "User-Agent" (headers request) in
  SessionManager.launch_phoebe_worker env (Some client_ip) user_agent.

(** [end_session], the handler of [POST /end-session/{session_id}] *)
Definition end_session (session_id : string) : M bool :=
  let! success :=
    SessionManager.shutdown_server session_id
                                   SessionManager.default_termination_reason in
  if negb success then raise (HTTPException 404 "Session not found")
  else ret success.

End with_config.
End Api.

(* ===================================================================== *)
(** ** The worker command loop ([worker/phoebe_worker.py], lines 54-106) *)
(* ===================================================================== *)

Module Worker.

(** The keys of [self.commands]. *)
Definition commands : list string :=
  [ "ping"; "get_parameter"; "get_value"; "set_value"; "add_dataset";
    "remove_dataset"; "run_compute"; "run_solver"; "get_bundle"; "load_bundle";
    "save_bundle"; "get_datasets"; "get_uniqueid"; "is_parameter_constrained";
    "attach_parameters" ].

(** The exceptions that leave [run]. *)
Inductive Crash : Type :=
| NonDictRequest (args : json)
    (* [ValueError(f'API returned a non-dictionary value: {args}')] *)
| MissingCommandKey
    (* [KeyError('command')], from [args.pop('command')] *)
| UnhashableCommand (command : json).
    (* [TypeError], from [command not in self.commands] on a list or dict *)

(** [str(command)] inside the f-string, for the values that can be
    looked up in a dictionary. *)
Definition command_text (command : json) : string :=
  match command with
  | JStr s => s
  | JInt n => PyStr.of_int n
  | JBool true => "True"
  | JBool false => "False"
  | JNull => "None"
  | JFloat r => r
  | JList _ | JDict _ => ""
  end.

Section with_engine.
Context {Bundle : Type}.

(** What the call of [self.commands[command]] on the remaining
    arguments, [make_json_serializable] and
    [send_json] come to, inside the [try]: a result that is sent, or an
    exception with its text and traceback. *)
Inductive Outcome : Type :=
| Returned (result : json) (bundle : Bundle)
| Raised (error traceback : string) (bundle : Bundle).

Context (engine : string → list (string * json) → Bundle → Outcome).

(** One turn of the [while True] loop: the reply sent and the bundle
    after it, or the exception that ends the loop with nothing sent. *)
Inductive Turn : Type :=
| Replied (response : list (string * json)) (bundle : Bundle)
| Crashed (c : Crash).

Definition unknown_command_reply (command : json) : list (string * json) :=
  [ ("success", JBool false);
    ("error", JStr ("API does not recognize command " ++ command_text command ++ ".")) ].

(** The body of the loop, from [recv_json] to [send_json]. *)
Definition serve (args : json) (bundle : Bundle) : Turn :=
  match args with
  | JDict fields =>
      match Dict.get "command" fields with
      | None => Crashed MissingCommandKey
      | Some command =>
          let args := Dict.del "command" fields in
          match command with
          | JList _ | JDict _ => Crashed (UnhashableCommand command)
          | JStr name =>
              if PyStr.mem name commands then
                match engine name args bundle with
                | Returned result bundle' =>
                    Replied [("success", JBool true); ("result", result)] bundle'
                | Raised error traceback bundle' =>
                    Replied [("success", JBool false); ("error", JStr error);
                             ("traceback", JStr traceback)] bundle'
                end
              else Replied (unknown_command_reply command) bundle
          | _ => Replied (unknown_command_reply command) bundle
          end
      end
  | _ => Crashed (NonDictRequest args)
  end.

(** [run] on the requests that arrive: the replies sent, in order, and
    the exception that ended the loop, if one did. *)
Fixpoint run (requests : list json) (bundle : Bundle)
    : list (list (string * json)) * option Crash :=
  match requests with
  | [] => ([], None)
  | args :: rest =>
      match serve args bundle with
      | Replied response bundle' =>
          let '(replies, crash) := run rest bundle' in (response :: replies, crash)
      | Crashed c => ([], Some c)
      end
  end.

End with_engine.
End Worker.

(* ===================================================================== *)
(** ** Vocabulary of the properties *)
(* ===================================================================== *)

(** The events a computation added to the journal. *)
Definition events_since (before after : World) : list Event :=
  drop (length (journal before)) (journal after).

Definition events_of {A} (m : M A) (w : World) : list Event :=
  events_since w (snd (m w)).

Module Ev.
Definition is_registry_del (sid : string) (ev : Event) : bool :=
  match ev with EvRegistryDel s => String.eqb s sid | _ => false end.

Definition is_registry_set (sid : string) (ev : Event) : bool :=
  match ev with EvRegistrySet s => String.eqb s sid | _ => false end.

Definition is_terminate (pid : Z) (ev : Event) : bool :=
  match ev with EvTerminate p => Z.eqb p pid | _ => false end.

Definition is_release (port : Z) (ev : Event) : bool :=
  match ev with EvReleasePort p => Z.eqb p port | _ => false end.

Definition is_store (ev : Event) : bool :=
  match ev with EvStore _ _ => true | _ => false end.

Definition is_rpc (ev : Event) : bool :=
  match ev with EvRpc _ _ => true | _ => false end.

(** A [destroyed] update of the session, whatever its reason. *)
Definition is_destroyed (sid : string) (ev : Event) : bool :=
  match ev with
  | EvStore (Sql.UpdateDestroyed s _ _) _ => String.eqb s sid
  | _ => false
  end.

(** A [destroyed] update of the session that binds the given reason. *)
Definition is_destroyed_with (sid reason : string) (ev : Event) : bool :=
  match ev with
  | EvStore (Sql.UpdateDestroyed s _ r) _ => String.eqb s sid && String.eqb r reason
  | _ => false
  end.

(** Position of the first event that satisfies [P]. *)
Fixpoint position (P : Event → bool) (evs : list Event) : option nat :=
  match evs with
  | [] => None
  | ev :: rest => if P ev then Some O else S <$> position P rest
  end.

(** Both kinds of event occur, and the first [P] comes before the first [Q]. *)
Definition before (P Q : Event → bool) (evs : list Event) : bool :=
  match position P evs, position Q evs with
  | Some i, Some j => (i <? j)%nat
  | _, _ => false
  end.

Definition count (P : Event → bool) (evs : list Event) : nat :=
  length (List.filter P evs).
End Ev.

(** The journal entries of the three phases of [shutdown_server] that
    come before the registry entry is deleted. *)
Module Trace.

(** Process termination, for a worker that is still running. *)
Definition teardown (sid : string) (proc : option Z) (o : OS.t) : list Event :=
  match proc with
  | Some pid =>
      if OS.is_running pid o then
        if bool_decide (pid ∈ OS.stubborn o)
        then [EvTerminate pid; EvWait pid true;
              EvLog WARNING ("Session " ++ sid
                             ++ " did not terminate gracefully, killing");
              EvKill pid; EvWait pid false]
        else [EvTerminate pid; EvWait pid false]
      else []
  | None => []
  end.

(** Port release, skipped for the falsy port 0. *)
Definition release (port : Z) : list Event :=
  if port =? 0 then [] else [EvReleasePort port].

(** The [destroyed] update and the log record that follows it. *)
Definition destroyed (sid : string) (at_ : Z) (reason : string) (d : Sql.t)
    : list Event :=
  let s := Sql.UpdateDestroyed sid at_ reason in
  match Sql.transact s d with
  | inl e => [EvStore s (Some e);
              EvLog ERROR ("Failed to log session destruction: " ++ exn_str e)]
  | inr _ => [EvStore s None; EvLog DEBUG ("Logged session destruction: " ++ sid)]
  end.

(** All that [shutdown_server] adds to the journal for a known session. *)
Definition shutdown (sid reason : string) (info : SessionInfo) (w : World)
    : list Event :=
  teardown sid (process info) (os w)
  ++ release (port info)
  ++ destroyed sid (clock w) reason (db w)
  ++ [EvRegistryDel sid; EvLog INFO ("Shutdown session " ++ sid)].

End Trace.

(** The state [shutdown_server] leaves for a known session. *)
Definition after_shutdown (sid reason : string) (info : SessionInfo) (w : World)
    : World :=
  mk_world
    (Dict.del sid (server_registry w))
    (if port info =? 0 then ports w else PortPool.release_port (port info) (ports w))
    (match Sql.transact (Sql.UpdateDestroyed sid (clock w) reason) (db w) with
     | inl _ => db w
     | inr d => d
     end)
    (match process info with
     | Some pid => if OS.is_running pid (os w) then OS.reap pid (os w) else os w
     | None => os w
     end)
    (clock w)
    (journal w ++ Trace.shutdown sid reason info w).

(** The six store operations as calls, to speak of all of them at once. *)
Inductive StoreCall : Type :=
| CallCreated (session_id : string) (created_at port : Z)
              (client_ip user_agent : option string)
| CallDestroyed (session_id : string) (destroyed_at : Z) (termination_reason : string)
| CallActivity (session_id : string) (last_activity : Z)
| CallMetric (session_id : string) (timestamp : Z) (memory_used_mb : Q)
| CallCommand (session_id : string) (timestamp : Z) (command_name : json)
              (success : bool) (execution_time_ms : option Z)
              (error_message : option string)
| CallUserInfo (session_id first_name last_name email : string) (updated_at : Z).

Definition run_call (config : Config) (c : StoreCall) : M unit :=
  match c with
  | CallCreated sid t p ip ua => Database.log_session_created sid t p ip ua
  | CallDestroyed sid t r => Database.log_session_destroyed sid t r
  | CallActivity sid t => Database.log_session_activity sid t
  | CallMetric sid t m => Database.log_session_metric sid t m
  | CallCommand sid t n ok ms err =>
      Database.log_command_execution config sid t n ok ms err
  | CallUserInfo sid f l e t => Database.log_user_info_update sid f l e t
  end.

(** The statement a call sends to sqlite, when it sends one. *)
Definition statement_of (config : Config) (c : StoreCall) : option Sql.stmt :=
  match c with
  | CallCreated sid t p ip ua => Some (Sql.InsertSession sid t p ip ua)
  | CallDestroyed sid t r => Some (Sql.UpdateDestroyed sid t r)
  | CallActivity sid t => Some (Sql.UpdateActivity sid t)
  | CallMetric sid t m => Some (Sql.InsertMetric sid t m)
  | CallCommand sid t n ok ms err =>
      if Database.should_log_command config n
      then Some (Sql.InsertCommand sid t n ok ms err) else None
  | CallUserInfo sid f l e t => Some (Sql.UpsertUserInfo sid f l e t)
  end.

(** The words with which a call reports that its write failed. *)
Definition failure_text (c : StoreCall) : string :=
  match c with
  | CallCreated _ _ _ _ _ => "Failed to log session creation"
  | CallDestroyed _ _ _ => "Failed to log session destruction"
  | CallActivity _ _ => "Failed to log session activity"
  | CallMetric _ _ _ => "Failed to log session metric"
  | CallCommand _ _ _ _ _ _ => "Failed to log command execution"
  | CallUserInfo _ _ _ _ _ => "Failed to log user info update"
  end.

(** A computation that returns normally from every state. *)
Definition never_raises {A} (m : M A) : Prop :=
  ∀ w, ∃ a w', m w = (inr a, w').

(** A computation that leaves the registry, the pool, the processes
    and the clock alone: it may only write to the store and the journal. *)
Definition store_only {A} (m : M A) : Prop :=
  ∀ w, let w' := snd (m w) in
       server_registry w' = server_registry w ∧ ports w' = ports w
       ∧ os w' = os w ∧ clock w' = clock w.

(** The statements of the specification, in its own words. *)
Module Spec.

(** "If [include] is non-empty, only members are logged; otherwise all
    commands except those in [exclude] are logged." *)
Definition command_persisted (include exclude : list string) (name : string) : Prop :=
  match include with
  | [] => name ∉ exclude
  | _ :: _ => name ∈ include
  end.

(** "the first comma-separated value" of a header value *)
Definition first_field (value field : string) : Prop :=
  PyStr.has_char PyStr.comma field = false
  ∧ ∃ rest, value = field ++ rest
            ∧ (rest = EmptyString ∨ PyStr.first_char rest = Some PyStr.comma).

Fixpoint all_space (s : string) : bool :=
  match s with
  | EmptyString => true
  | String c rest => PyStr.is_space c && all_space rest
  end.

Definition starts_or_ends_with_space (s : string) : bool :=
  match PyStr.first_char s, PyStr.last_char s with
  | Some a, Some b => PyStr.is_space a || PyStr.is_space b
  | _, _ => false
  end.

(** "(trimmed)": the text without the whitespace around it *)
Definition trimmed (text result : string) : Prop :=
  starts_or_ends_with_space result = false
  ∧ ∃ left right, text = left ++ result ++ right
                   ∧ all_space left = true ∧ all_space right = true.

(** "Entry removal happens before process termination", and before the
    port release and the [destroyed] event. *)
Definition entry_removed_first (sid : string) (pid port : Z) (evs : list Event)
    : Prop :=
  Ev.before (Ev.is_registry_del sid) (Ev.is_terminate pid) evs = true
  ∧ Ev.before (Ev.is_registry_del sid) (Ev.is_release port) evs = true
  ∧ Ev.before (Ev.is_registry_del sid) (Ev.is_destroyed sid) evs = true.

End Spec.

(** The store can be written: [init_database] has run and the file is
    reachable. *)
Definition store_healthy (d : Sql.t) : Prop :=
  is_Some (Sql.db_path d) ∧ Sql.io_fault d = None.

(** No two registry entries under one key, as in every Python [dict]. *)
Definition registry_wf (w : World) : Prop := NoDup (Dict.keys (server_registry w)).

(* ===================================================================== *)
(** ** Scenarios: concrete states the broker reaches *)
(* ===================================================================== *)

Module Scenario.

(** Ports 8000..8002, a one-hour idle timeout, [ping] excluded from the
    command log. *)
Definition config : Config := mk_config 8000 8003 3600 "" "ping".

Definition fresh_db : Sql.t := Sql.mk (Some "sessions.db") None ∅ [] [] ∅.

(** The broker after start-up: empty registry, loaded pool. *)
Definition started : World :=
  mk_world [] (PortPool.load_port_config 8000 8003 PortPool.module_init)
           fresh_db (OS.mk ∅ ∅ ∅) 1000 [].

(** A worker that answers every command with success after two ticks. *)
Definition worker (port : Z) (command : list (string * json)) : Api.Reply * Z :=
  (Api.ReplyOk (JDict [("status", JStr "ready")]), 2).

Definition launch_s1 : SessionManager.Launch :=
  SessionManager.mk_launch "s1" (inr 4242) true.

Definition launch_s2 : SessionManager.Launch :=
  SessionManager.mk_launch "s2" (inr 4343) true.

(** A launch whose worker never answers the readiness ping. *)
Definition launch_unready : SessionManager.Launch :=
  SessionManager.mk_launch "s9" (inr 4949) false.

(** One live session [s1] (pid 4242, port 8000). *)
Definition one_session : World :=
  snd (SessionManager.launch_phoebe_worker launch_s1 (Some "10.0.0.1") None started).

(** Two live sessions, [s1] and [s2]. *)
Definition two_sessions : World :=
  snd (SessionManager.launch_phoebe_worker launch_s2 (Some "10.0.0.2") None one_session).

(** The process of [pid] is killed from outside the broker. *)
Definition killed (pid : Z) (w : World) : World :=
  mk_world (server_registry w) (ports w) (db w) (OS.reap pid (os w)) (clock w)
           (journal w).

(** The database file becomes unreachable. *)
Definition store_broken (w : World) : World :=
  mk_world (server_registry w) (ports w)
           (Sql.mk (Sql.db_path (db w)) (Some "database is locked")
                   (Sql.sessions (db w)) (Sql.session_metrics (db w))
                   (Sql.session_commands (db w)) (Sql.session_user_info (db w)))
           (os w) (clock w) (journal w).

End Scenario.

(* ===================================================================== *)
(** ** The remaining handlers of [api/session.py] *)
(* ===================================================================== *)

Module Handlers.
Section with_config.
Context (config : Config).

(** [update_user_info], the handler of [POST /update-user-info/{session_id}] *)
Definition update_user_info (session_id first_name last_name email : string)
    : M bool :=
  let! success :=
    SessionManager.update_session_user_info session_id first_name last_name email in
  if negb success then raise (HTTPException 404 "Session not found")
  else ret true.

(** [session_memory], the handler of [POST /session-memory/{session_id}] *)
Definition session_memory (session_id : string) : M Q :=
  let! mem_used := SessionManager.get_current_memory_usage session_id in
  match mem_used with
  | None => raise (HTTPException 404 "Session not found")
  | Some mem => ret mem
  end.

(** The loop of [session_memory_all] over the listed ids. *)
Fixpoint sample_all (ids : list string) (memory_data : list (string * Q))
    : M (list (string * Q)) :=
  match ids with
  | [] => ret memory_data
  | session_id :: rest =>
      let! mem_used := SessionManager.get_current_memory_usage session_id in
      match mem_used with
      | Some mem => sample_all rest (Dict.set session_id mem memory_data)
      | None => sample_all rest memory_data
      end
  end.

(** [session_memory_all], the handler of [GET /session-memory] *)
Definition session_memory_all : M (list (string * Q)) :=
  let! sessions := SessionManager.list_sessions in
  sample_all (Dict.keys sessions) [].

(** [port_status], the handler of [GET /port-status] *)
Definition port_status : M PortPool.status := SessionManager.get_port_status config.

End with_config.
End Handlers.

(* ===================================================================== *)
(** ** Normalisation of engine results ([phoebe_worker.py], lines 13-35) *)
(* ===================================================================== *)

Module Normalize.




End Normalize.

(* ===================================================================== *)
(** ** Vocabulary of the further properties *)
(* ===================================================================== *)

(** [n] calls of [request_port] in a row: the ports they return, up to
    the first call that raises, and the pool they leave. *)
Fixpoint request_many (n : nat) (pool : PortPool.t) : list Z * PortPool.t :=
  match n with
  | O => ([], pool)
  | S n' =>
      match PortPool.request_port pool with
      | (inr port, pool') =>
          let '(granted, pool'') := request_many n' pool' in (port :: granted, pool'')
      | (inl _, pool') => ([], pool')
      end
  end.

(** What [get_current_memory_usage] finds for a session in a state: the
    resident memory of its process in MiB, when the session has a running
    process. *)
Definition sampled (sid : string) (w : World) : option Q :=
  match Dict.get sid (server_registry w) with
  | Some info =>
      match process info with
      | Some proc =>
          match OS.memory_rss proc (os w) with
          | Some rss => Some (inject_Z rss / inject_Z (1024 * 1024))%Q
          | None => None
          end
      | None => None
      end
  | None => None
  end.

(** What the bookkeeping around a command may do between two states:
    the clock and the command history stay as they are, and whatever is
    added to the journal is no exchange with a worker. *)
Definition beside (w w' : World) : Prop :=
  clock w' = clock w
  ∧ Sql.session_commands (db w') = Sql.session_commands (db w)
  ∧ ∃ evs, journal w' = (journal w ++ evs)%list ∧ List.filter Ev.is_rpc evs = [].

(** The row [send] asks the store to add for a command, when the filter
    lets the command through and its name can be bound. *)
Definition command_rows (config : Config) (sid : string) (timestamp : Z)
    (name : json) (reply : Api.Reply) (execution_time_ms : Z) : list Sql.command_row :=
  if Database.should_log_command config name then
    match Sql.bind_text name with
    | inr text =>
        [Sql.mk_command sid timestamp text
                        (if Api.reply_success reply then 1 else 0)
                        (Some execution_time_ms) (Api.reply_error reply)]
    | inl _ => []
    end
  else [].

(** A request the worker loop answers: a mapping whose [command] is
    present and can be looked up in a dictionary. *)
Definition answerable (request : json) : bool :=
  match request with
  | JDict fields =>
      match Dict.get "command" fields with
      | Some (JList _) | Some (JDict _) | None => false
      | Some _ => true
      end
  | _ => false
  end.

(** A reply envelope: its first field is [success], a boolean. *)
Definition envelope (reply : list (string * json)) : bool :=
  match reply with
  | ("success", JBool _) :: _ => true
  | _ => false
  end.

(** A name as [parse_list] can produce it: not empty, no comma, no
    whitespace at either end. *)
Definition clean_name (name : string) : bool :=
  PyStr.truthy name
  && negb (PyStr.has_char PyStr.comma name)
  && negb (Spec.starts_or_ends_with_space name).

(** The database after a guarded statement. *)
Definition written (s : Sql.stmt) (d : Sql.t) : Sql.t :=
  match Sql.transact s d with inr d' => d' | inl _ => d end.

(** The state with another registry. *)
Definition with_registry (r : list (string * SessionInfo)) (w : World) : World :=
  mk_world r (ports w) (db w) (os w) (clock w) (journal w).

(** The entry [launch_phoebe_worker] stores for a new session. *)
Definition new_entry (sid : string) (pid port now : Z) : SessionInfo :=
  mk_info sid (Some pid) now now 0%Q port None None None "Not logged in".

(** The state one [shutdown_server] call leaves, whether the session is
    known or not. *)
Definition shutdown_step (reason : string) (w : World) (sid : string) : World :=
  match Dict.get sid (server_registry w) with
  | Some info => after_shutdown sid reason info w
  | None => w
  end.

(** The ports the sessions of the registry hold. *)
Definition session_ports (w : World) : list Z :=
  map (λ entry, port (snd entry)) (server_registry w).

(** The registry and the pool agree: session ids are distinct, no two
    sessions hold one port, every port a session holds is reserved, and
    the available queue has no duplicates and no reserved port. *)
Record consistent (w : World) : Prop := {
  cons_keys : NoDup (Dict.keys (server_registry w));
  cons_ports : NoDup (session_ports w);
  cons_reserved : ∀ p, p ∈ session_ports w → p ∈ PortPool.reserved_ports (ports w);
  cons_available : NoDup (PortPool.available_ports (ports w));
  cons_disjoint : ∀ p, p ∈ PortPool.available_ports (ports w) →
                       p ∉ PortPool.reserved_ports (ports w)
}.

(** What can happen to the broker: a request to one of its operations,
    or a change of the world around it (a process dies, time passes, the
    database file changes its condition). *)
Inductive Action : Type :=
| DoLaunch (env : SessionManager.Launch) (client_ip user_agent : option string)
| DoShutdown (sid reason : string)
| DoList
| DoCleanupIdle
| DoShutdownAll
| DoTouch (sid : string)
| DoSampleMemory (sid : string)
| DoUserInfo (sid first_name last_name email : string)
| DoSend (sid : string) (command : list (string * json))
| DoSampleAll
| WorldProcessDies (pid : Z)
| WorldTimePasses (dt : Z)
| WorldStore (d : Sql.t).

Section actions.
Context (config : Config) (worker : Z → list (string * json) → Api.Reply * Z).

Definition act (w : World) (a : Action) : World :=
  match a with
  | DoLaunch env ip ua => snd (SessionManager.launch_phoebe_worker env ip ua w)
  | DoShutdown sid reason => snd (SessionManager.shutdown_server sid reason w)
  | DoList => snd (Api.list_sessions config w)
  | DoCleanupIdle => snd (SessionManager.cleanup_idle_sessions config w)
  | DoShutdownAll => snd (SessionManager.shutdown_all_sessions w)
  | DoTouch sid => snd (SessionManager.update_last_activity sid w)
  | DoSampleMemory sid => snd (SessionManager.get_current_memory_usage sid w)
  | DoUserInfo sid f l e => snd (SessionManager.update_session_user_info sid f l e w)
  | DoSend sid command => snd (Api.send config worker sid command w)
  | DoSampleAll => snd (Handlers.session_memory_all w)
  | WorldProcessDies pid =>
      mk_world (server_registry w) (ports w) (db w) (OS.reap pid (os w)) (clock w)
               (journal w)
  | WorldTimePasses dt =>
      mk_world (server_registry w) (ports w) (db w) (os w) (clock w + dt) (journal w)
  | WorldStore d =>
      mk_world (server_registry w) (ports w) d (os w) (clock w) (journal w)
  end.

Definition acts (w : World) (history : list Action) : World := foldl act w history.

End actions.

(** The broker right after [load_port_config], with nothing else done. *)
Definition boot (config : Config) (d : Sql.t) (o : OS.t) (now : Z) : World :=
  mk_world []
           (PortPool.load_port_config (port_pool_start config) (port_pool_end config)
                                      PortPool.module_init)
           d o now [].

(** A computation keeps a property of the state, however it ends. *)
Definition keeps {A} (I : World → Prop) (m : M A) : Prop :=
  ∀ w, I w → I (snd (m w)).

(* ===================================================================== *)
(** ** Properties of the port pool *)
(* ===================================================================== *)

Section port_pool_facts.
Import PortPool.

Lemma partition_load (start end_ : Z) :
  partition start end_ (load_port_config start end_ module_init).
Proof.
  split; simpl.
  - apply NoDup_seqZ.
  - intros p _. set_solver.
  - intros p. rewrite elem_of_seqZ. split; [intros [H|H]|intros H].
    + lia.
    + set_solver.
    + left. lia.
Qed.

Lemma partition_request (start end_ : Z) (pool : t) :
  partition start end_ pool → partition start end_ (snd (request_port pool)).
Proof.
  intros [Hnd Hdis Hcov]. unfold request_port.
  destruct (available_ports pool) as [|port rest] eqn:Hav; simpl.
  - split; rewrite ?Hav; auto.
  - apply NoDup_cons in Hnd as [Hnotin Hnd].
    split; simpl.
    + exact Hnd.
    + intros p Hp. rewrite elem_of_union, elem_of_singleton.
      intros [->|Hr]; [done|].
      apply (Hdis p); [by right|done].
    + intros p. rewrite <- Hcov, elem_of_union, elem_of_singleton, elem_of_cons.
      tauto.
Qed.

Lemma partition_release (start end_ port : Z) (pool : t) :
  partition start end_ pool → partition start end_ (release_port port pool).
Proof.
  intros [Hnd Hdis Hcov]. unfold release_port.
  destruct (decide (port ∈ reserved_ports pool)) as [Hin|Hout]; [|by split].
  split; simpl.
  - apply NoDup_app. split_and!; [done| |apply NoDup_singleton].
    intros p Hp Hp'. apply list_elem_of_singleton in Hp' as ->.
    by apply (Hdis port).
  - intros p. rewrite elem_of_app, list_elem_of_singleton, elem_of_difference,
      elem_of_singleton.
    intros [Hp| ->] [Hr Hne]; [by apply (Hdis p)|done].
  - intros p. rewrite <- Hcov, elem_of_app, list_elem_of_singleton,
      elem_of_difference, elem_of_singleton.
    destruct (decide (p = port)) as [->|Hne]; [tauto|tauto].
Qed.

Lemma partition_run (start end_ : Z) (ops : list op) (pool : t) :
  partition start end_ pool → partition start end_ (run ops pool).
Proof.
  unfold run. revert pool.
  induction ops as [|o ops IH]; intros pool Hp; simpl; [done|].
  apply IH. destruct o; simpl.
  - by apply partition_request.
  - by apply partition_release.
Qed.

(** The two partitions together have as many ports as the range. *)
Lemma partition_size (start end_ : Z) (pool : t) :
  partition start end_ pool →
  (length (available_ports pool) + size (reserved_ports pool))%nat
  = Z.to_nat (end_ - start).
Proof.
  intros [Hnd Hdis Hcov].
  rewrite <- (length_seqZ start (end_ - start)).
  rewrite <- (size_list_to_set (C := gset Z) (available_ports pool)) by done.
  rewrite <- (size_list_to_set (C := gset Z) (seqZ start (end_ - start)))
    by apply NoDup_seqZ.
  rewrite <- size_union.
  - f_equal. apply set_eq. intros p.
    rewrite elem_of_union, !elem_of_list_to_set, elem_of_seqZ, Hcov. lia.
  - intros p Hp Hr. apply elem_of_list_to_set in Hp. by apply (Hdis p).
Qed.

Lemma release_reserved (pool : t) (port : Z) :
  port ∈ reserved_ports pool →
  release_port port pool
  = mk (available_ports pool ++ [port]) (reserved_ports pool ∖ {[port]}).
Proof. intros Hin. unfold release_port. by rewrite decide_True. Qed.

Lemma release_unreserved (pool : t) (port : Z) :
  port ∉ reserved_ports pool → release_port port pool = pool.
Proof. intros Hout. unfold release_port. by rewrite decide_False. Qed.

(** Whatever the order of [start] and [end_], the pool holds as many
    ports as [range(start, end_)] has elements. *)
Lemma partition_size_any_range (start end_ : Z) (ops : list op) :
  let pool := run ops (load_port_config start end_ module_init) in
  Z.of_nat (length (available_ports pool)) + Z.of_nat (size (reserved_ports pool))
  = Z.max 0 (end_ - start).
Proof.
  intros pool.
  assert (H := partition_size start end_ pool (partition_run _ _ _ _ (partition_load _ _))).
  lia.
Qed.

End port_pool_facts.

(** C6. Port pool partition invariant: from the pool that
    [load_port_config] builds over the half-open range [[start, end_)],
    after any sequence of [request_port] and [release_port] calls the
    available queue has no duplicates, every port of the range is in
    exactly one of the available queue and the reserved set, no other
    port is in either, the two sizes add up to [end_ - start], and
    [get_port_status] reports [total_ports = end_ - start]. *)
Theorem port_pool_partition_invariant (start end_ : Z) (ops : list PortPool.op) :
  start ≤ end_ →
  let pool := PortPool.run ops
                (PortPool.load_port_config start end_ PortPool.module_init) in
  NoDup (PortPool.available_ports pool)
  ∧ (∀ p, start ≤ p < end_ →
          ((p ∈ PortPool.available_ports pool ∧ (p ∉ PortPool.reserved_ports pool))
           ∨ ((p ∉ PortPool.available_ports pool) ∧ p ∈ PortPool.reserved_ports pool)))
  ∧ (∀ p, p ∈ PortPool.available_ports pool ∨ p ∈ PortPool.reserved_ports pool →
          start ≤ p < end_)
  ∧ Z.of_nat (length (PortPool.available_ports pool))
    + Z.of_nat (size (PortPool.reserved_ports pool)) = end_ - start
  ∧ PortPool.total_ports (PortPool.get_port_status start end_ pool) = end_ - start.
Proof.
  intros Hle pool.
  assert (Hpart : PortPool.partition start end_ pool)
    by apply partition_run, partition_load.
  assert (Hsize := partition_size _ _ _ Hpart).
  destruct Hpart as [Hnd Hdis Hcov].
  assert (Hsum : Z.of_nat (length (PortPool.available_ports pool))
                 + Z.of_nat (size (PortPool.reserved_ports pool)) = end_ - start) by lia.
  split_and!; [done| |by intros p; apply Hcov|done|done].
  intros p Hp. apply Hcov in Hp as [Hav|Hres].
  - left. split; [done|by apply Hdis].
  - right. split; [|done]. intros Hav. by apply (Hdis p).
Qed.

Lemma port_pool_partition_invariant_witness :
  8000 ≤ 8003
  ∧ let pool := PortPool.run
                  [PortPool.Request; PortPool.Request; PortPool.Release 8000;
                   PortPool.Release 8000; PortPool.Release 9; PortPool.Request]
                  (PortPool.load_port_config 8000 8003 PortPool.module_init) in
    Z.of_nat (length (PortPool.available_ports pool))
    + Z.of_nat (size (PortPool.reserved_ports pool)) = 8003 - 8000.
Proof.
  split; [lia|].
  apply (port_pool_partition_invariant 8000 8003
           [PortPool.Request; PortPool.Request; PortPool.Release 8000;
            PortPool.Release 8000; PortPool.Release 9; PortPool.Request]).
  lia.
Defined.

(** C7. Port pool operation semantics: [request_port] removes and
    returns the head of the available queue and reserves it; on an empty
    queue it raises the no-capacity error and leaves the pool as it was;
    [release_port] on a reserved port moves it from the reserved set to
    the tail of the available queue; on a port that is not reserved it
    changes nothing; releasing twice is releasing once. *)
Theorem port_pool_operations (pool : PortPool.t) (port : Z) :
  (∀ head rest, PortPool.available_ports pool = head :: rest →
     PortPool.request_port pool
     = (inr head, PortPool.mk rest ({[head]} ∪ PortPool.reserved_ports pool)))
  ∧ (PortPool.available_ports pool = [] →
     PortPool.request_port pool
     = (inl (RuntimeError PortPool.no_ports_msg), pool))
  ∧ (port ∈ PortPool.reserved_ports pool →
     PortPool.release_port port pool
     = PortPool.mk (PortPool.available_ports pool ++ [port])
                   (PortPool.reserved_ports pool ∖ {[port]}))
  ∧ (port ∉ PortPool.reserved_ports pool → PortPool.release_port port pool = pool)
  ∧ PortPool.release_port port (PortPool.release_port port pool)
    = PortPool.release_port port pool.
Proof.
  split_and!.
  - intros head rest Hav. unfold PortPool.request_port. rewrite Hav. reflexivity.
  - intros Hav. unfold PortPool.request_port. rewrite Hav. reflexivity.
  - apply release_reserved.
  - apply release_unreserved.
  - destruct (decide (port ∈ PortPool.reserved_ports pool)) as [Hin|Hout].
    + rewrite (release_reserved pool port Hin).
      apply release_unreserved. simpl.
      rewrite elem_of_difference, elem_of_singleton. tauto.
    + by rewrite !(release_unreserved pool port Hout).
Qed.

Lemma port_pool_operations_witness :
  let pool := PortPool.mk [8001; 8002] {[8000]} in
  PortPool.request_port pool = (inr 8001, PortPool.mk [8002] ({[8001]} ∪ {[8000]}))
  ∧ PortPool.request_port (PortPool.mk [] {[8000]})
    = (inl (RuntimeError PortPool.no_ports_msg), PortPool.mk [] {[8000]})
  ∧ PortPool.release_port 8000 pool
    = PortPool.mk ([8001; 8002] ++ [8000]) ({[8000]} ∖ {[8000]})
  ∧ PortPool.release_port 7 pool = pool.
Proof.
  intros pool.
  destruct (port_pool_operations pool 8000) as (Hhead & _ & Hreserved & _ & _).
  destruct (port_pool_operations (PortPool.mk [] {[8000]}) 0) as (_ & Hempty & _).
  destruct (port_pool_operations pool 7) as (_ & _ & _ & Hfree & _).
  split_and!.
  - apply Hhead. reflexivity.
  - apply Hempty. reflexivity.
  - apply Hreserved. by vm_compute.
  - apply Hfree. by vm_compute.
Defined.

(* ===================================================================== *)
(** ** Properties of the handlers and of the worker loop *)
(* ===================================================================== *)

Lemma events_since_refl (w : World) : events_since w w = [].
Proof. unfold events_since. apply drop_all. Qed.

(** C8. A [/send] request that names a session id absent from the
    registry is answered 404 before any side effect: the handler raises
    [HTTPException(404)] and leaves the whole broker state as it was (no
    last-activity update, no RPC, no [session_commands] row, no
    [session_metrics] row), so the journal records no event at all. *)
Theorem send_unknown_session_404 (config : Config)
    (worker : Z → list (string * json) → Api.Reply * Z)
    (session_id : string) (command : list (string * json)) (w : World) :
  Dict.get session_id (server_registry w) = None →
  Api.send config worker session_id command w
  = (inl (HTTPException 404 "Invalid session ID"), w)
  ∧ events_of (Api.send config worker session_id command) w = [].
Proof.
  intros Hnone.
  assert (Hrun : Api.send config worker session_id command w
                 = (inl (HTTPException 404 "Invalid session ID"), w)).
  { unfold Api.send, SessionManager.get_server_info, bind, gets.
    rewrite Hnone. reflexivity. }
  split; [exact Hrun|].
  unfold events_of. rewrite Hrun. apply events_since_refl.
Qed.

Lemma send_unknown_session_404_witness :
  Dict.get "s7" (server_registry Scenario.one_session) = None
  ∧ Api.send Scenario.config Scenario.worker "s7" [("command", JStr "ping")]
             Scenario.one_session
    = (inl (HTTPException 404 "Invalid session ID"), Scenario.one_session).
Proof.
  split; [reflexivity|].
  apply (send_unknown_session_404 Scenario.config Scenario.worker "s7"
           [("command", JStr "ping")] Scenario.one_session).
  reflexivity.
Defined.

(** C10. In the worker loop a request mapping whose [command] is a name
    outside the dispatch table is answered with
    [{'success': False, 'error': ...}] and the loop goes on; a request
    mapping without the [command] key ends the loop with the [KeyError]
    of [args.pop('command')] and no reply is sent; a request that is not
    a mapping ends it with the [ValueError], again with no reply. *)
Theorem worker_loop_missing_command {Bundle : Type}
    (engine : string → list (string * json) → Bundle → Worker.Outcome (Bundle := Bundle))
    (bundle : Bundle) (rest : list json) :
  (∀ fields name,
     Dict.get "command" fields = Some (JStr name) →
     PyStr.mem name Worker.commands = false →
     Worker.serve engine (JDict fields) bundle
     = Worker.Replied
         [("success", JBool false);
          ("error", JStr ("API does not recognize command " ++ name ++ "."))]
         bundle)
  ∧ (∀ fields,
       Dict.get "command" fields = None →
       Worker.serve engine (JDict fields) bundle = Worker.Crashed Worker.MissingCommandKey
       ∧ Worker.run engine (JDict fields :: rest) bundle
         = ([], Some Worker.MissingCommandKey))
  ∧ (∀ args,
       (∀ fields, args ≠ JDict fields) →
       Worker.serve engine args bundle = Worker.Crashed (Worker.NonDictRequest args)
       ∧ Worker.run engine (args :: rest) bundle
         = ([], Some (Worker.NonDictRequest args))).
Proof.
  split_and!.
  - intros fields name Hget Hmem. unfold Worker.serve.
    rewrite Hget, Hmem. reflexivity.
  - intros fields Hget.
    assert (Hs : Worker.serve engine (JDict fields) bundle
                 = Worker.Crashed Worker.MissingCommandKey).
    { unfold Worker.serve. rewrite Hget. reflexivity. }
    split; [exact Hs|]. cbn [Worker.run]. rewrite Hs. reflexivity.
  - intros args Hnot.
    assert (Hs : Worker.serve engine args bundle
                 = Worker.Crashed (Worker.NonDictRequest args)).
    { destruct args; try reflexivity. by destruct (Hnot fields). }
    split; [exact Hs|]. cbn [Worker.run]. rewrite Hs. reflexivity.
Qed.

Lemma worker_loop_missing_command_witness :
  let engine := λ (_ : string) (_ : list (string * json)) (b : unit),
                  Worker.Returned (JDict [("status", JStr "ready")]) b in
  Worker.serve engine (JDict [("command", JStr "frobnicate"); ("twig", JStr "period")]) tt
  = Worker.Replied
      [("success", JBool false);
       ("error", JStr "API does not recognize command frobnicate.")] tt
  ∧ Worker.run engine [JDict [("twig", JStr "period")]; JDict [("command", JStr "ping")]] tt
    = ([], Some Worker.MissingCommandKey)
  ∧ Worker.run engine [JList [JStr "ping"]; JDict [("command", JStr "ping")]] tt
    = ([], Some (Worker.NonDictRequest (JList [JStr "ping"]))).
Proof.
  intros engine.
  destruct (worker_loop_missing_command engine tt [JDict [("command", JStr "ping")]])
    as (Hunknown & Hmissing & Hnondict).
  split_and!.
  - apply (Hunknown _ "frobnicate"); reflexivity.
  - apply Hmissing. reflexivity.
  - apply Hnondict. intros fields H. discriminate H.
Defined.

(* ===================================================================== *)
(** ** Properties of [split] and [strip] *)
(* ===================================================================== *)

Section string_facts.
Import PyStr.

Lemma mem_elem_of (x : string) (xs : list string) : mem x xs = true ↔ x ∈ xs.
Proof.
  unfold mem. rewrite existsb_exists, list_elem_of_In. split.
  - intros (y & Hin & Heq). apply String.eqb_eq in Heq. by subst.
  - intros Hin. exists x. split; [done|apply String.eqb_refl].
Qed.

Lemma mem_false (x : string) (xs : list string) : mem x xs = false ↔ x ∉ xs.
Proof.
  rewrite <- mem_elem_of. destruct (mem x xs); split; done.
Qed.

Lemma split_not_nil (sep : ascii) (s : string) : split sep s ≠ [].
Proof.
  destruct s as [|c rest]; simpl; [done|].
  destruct (Ascii.eqb c sep); [done|]. by destruct (split sep rest).
Qed.

(** The head of [split] is the text before the first separator. *)
Lemma split_head (s : string) : Spec.first_field s (hd EmptyString (split comma s)).
Proof.
  unfold Spec.first_field.
  induction s as [|c rest IH]; simpl.
  - split; [done|]. exists EmptyString. auto.
  - destruct (Ascii.eqb c comma) eqn:Hc; simpl.
    + split; [done|]. exists (String c rest). split; [done|].
      right. simpl. apply Ascii.eqb_eq in Hc. by subst.
    + destruct (split comma rest) as [|field fields] eqn:Hsplit.
      { by destruct (split_not_nil comma rest). }
      simpl in *. destruct IH as [Hno (r & Hv & Hr)].
      split; [by rewrite Hc, Hno|].
      exists r. split; [|done].
      change (String c rest = String c (field ++ r)%string). by f_equal.
Qed.

Lemma lstrip_spec (s : string) :
  ∃ l, s = (l ++ lstrip s)%string ∧ Spec.all_space l = true
       ∧ match first_char (lstrip s) with
         | Some a => is_space a = false
         | None => True
         end.
Proof.
  induction s as [|c rest IH]; simpl.
  - exists EmptyString. auto.
  - destruct (is_space c) eqn:Hc.
    + destruct IH as (l & Hs & Hl & Hf).
      exists (String c l). simpl. rewrite Hc, Hl.
      split_and!; [|done|done].
      change (String c rest = String c (l ++ lstrip rest)%string). by f_equal.
    + exists EmptyString. simpl. auto.
Qed.

Lemma rstrip_spec (s : string) :
  ∃ r, s = (rstrip s ++ r)%string ∧ Spec.all_space r = true
       ∧ match last_char (rstrip s) with
         | Some b => is_space b = false
         | None => rstrip s = EmptyString
         end.
Proof.
  induction s as [|c rest IH]; simpl.
  - exists EmptyString. auto.
  - destruct IH as (r & Hs & Hr & Hlast).
    destruct (rstrip rest) as [|d r'] eqn:Hrs.
    + change (rest = r) in Hs. subst r.
      destruct (is_space c) eqn:Hc.
      * exists (String c rest). simpl. rewrite Hc, Hr. auto.
      * exists rest. simpl. rewrite Hc. auto.
    + exists r. split_and!; [|done|].
      { change (String c rest = String c (String d r' ++ r)%string). by f_equal. }
      change (last_char (String c (String d r'))) with (last_char (String d r')).
      destruct (last_char (String d r')); [exact Hlast|discriminate Hlast].
Qed.

Lemma rstrip_first (s : string) :
  rstrip s = EmptyString ∨ first_char (rstrip s) = first_char s.
Proof.
  destruct s as [|c rest]; simpl; [by left|].
  destruct (rstrip rest); [destruct (is_space c)|]; auto.
Qed.

(** [strip] removes whitespace, and only whitespace, from both ends. *)
Lemma strip_trimmed (s : string) : Spec.trimmed s (strip s).
Proof.
  unfold Spec.trimmed, strip.
  destruct (lstrip_spec s) as (l & Hs & Hl & Hfirst).
  destruct (rstrip_spec (lstrip s)) as (r & Hm & Hr & Hlast).
  split.
  - unfold Spec.starts_or_ends_with_space.
    destruct (rstrip_first (lstrip s)) as [He|Hf].
    + by rewrite He.
    + rewrite Hf.
      destruct (first_char (lstrip s)) as [a|]; [|done].
      destruct (last_char (rstrip (lstrip s))) as [b|]; [|done].
      by rewrite Hfirst, Hlast.
  - exists l, r. split_and!; [|done|done].
    by rewrite <- Hm.
Qed.

End string_facts.

(** C9. Client IP extraction: when the request has an [X-Forwarded-For]
    header, [get_client_ip] returns its first comma-separated element
    with the whitespace around it removed; otherwise the host of the
    direct peer when there is one; otherwise the string [unknown]. *)
Theorem get_client_ip_precedence (request : Api.Request) :
  match Api.headers_get "X-Forwarded-For" (Api.headers request) with
  | Some value =>
      ∃ field, Spec.first_field value field
               ∧ Spec.trimmed field (Api.get_client_ip request)
  | None =>
      match Api.client request with
      | Some peer => Api.get_client_ip request = fst peer
      | None => Api.get_client_ip request = "unknown"
      end
  end.
Proof.
  unfold Api.get_client_ip.
  destruct (Api.headers_get "X-Forwarded-For" (Api.headers request)) as [value|].
  - exists (hd EmptyString (PyStr.split PyStr.comma value)).
    split; [apply split_head|apply strip_trimmed].
  - by destruct (Api.client request).
Qed.

(** The scenario of the specification: [X-Forwarded-For: 10.0.0.1, 10.0.0.2]. *)
Example get_client_ip_forwarded :
  Api.get_client_ip
    (Api.mk_request [("user-agent", "pytest/1.0");
                     ("x-forwarded-for", "10.0.0.1, 10.0.0.2")]
                    (Some ("127.0.0.1", 50000)))
  = "10.0.0.1"
  ∧ Api.get_client_ip (Api.mk_request [("x-forwarded-for", "")] (Some ("127.0.0.1", 50000)))
    = ""
  ∧ Api.get_client_ip (Api.mk_request [] (Some ("127.0.0.1", 50000))) = "127.0.0.1"
  ∧ Api.get_client_ip (Api.mk_request [] None) = "unknown".
Proof. by vm_compute. Qed.

(* ===================================================================== *)
(** ** Reasoning about computations *)
(* ===================================================================== *)

Lemma bind_inr {A B} (m : M A) (k : A → M B) (w w' : World) (a : A) :
  m w = (inr a, w') → bind m k w = k a w'.
Proof. intros H. unfold bind. by rewrite H. Qed.

Lemma bind_inl {A B} (m : M A) (k : A → M B) (w w' : World) (e : Exn) :
  m w = (inl e, w') → bind m k w = (inl e, w').
Proof. intros H. unfold bind. by rewrite H. Qed.

Lemma never_raises_ret {A} (a : A) : never_raises (ret a).
Proof. intros w. by exists a, w. Qed.

Lemma never_raises_gets {A} (f : World → A) : never_raises (gets f).
Proof. intros w. by exists (f w), w. Qed.

Lemma never_raises_modify (f : World → World) : never_raises (modify f).
Proof. intros w. by exists tt, (f w). Qed.

Lemma never_raises_bind {A B} (m : M A) (k : A → M B) :
  never_raises m → (∀ a, never_raises (k a)) → never_raises (bind m k).
Proof.
  intros Hm Hk w. destruct (Hm w) as (a & w1 & H1).
  destruct (Hk a w1) as (b & w2 & H2).
  exists b, w2. by rewrite (bind_inr _ _ _ _ _ H1).
Qed.

(** An [except Exception] clause whose handler returns normally makes
    the whole [try] statement return normally. *)
Lemma never_raises_try_except {A} (m : M A) (handler : Exn → M A) :
  (∀ e, never_raises (handler e)) → never_raises (try_except m handler).
Proof.
  intros Hh w. unfold try_except.
  destruct (m w) as [[e|a] w1].
  - apply Hh.
  - by exists a, w1.
Qed.

Lemma never_raises_emit (ev : Event) : never_raises (emit ev).
Proof. apply never_raises_modify. Qed.

Lemma never_raises_logger (level : Level) (msg : string) : never_raises (logger level msg).
Proof. apply never_raises_modify. Qed.

Lemma never_raises_for_each {A} (xs : list A) (body : A → M unit) :
  (∀ x, never_raises (body x)) → never_raises (for_each xs body).
Proof.
  intros Hb. induction xs as [|x xs IH]; simpl.
  - apply never_raises_ret.
  - apply never_raises_bind; [apply Hb|by intros _].
Qed.

(** The result of a computation after a step that cannot raise does not
    depend on that step when the continuation's result does not. *)
Lemma bind_never_raises_fst {A B} (m : M A) (k : A → M B) (w : World) (r : Exn + B) :
  never_raises m → (∀ a w', fst (k a w') = r) → fst (bind m k w) = r.
Proof.
  intros Hm Hk. destruct (Hm w) as (a & w1 & H1).
  rewrite (bind_inr _ _ _ _ _ H1). apply Hk.
Qed.

(** What [guarded_write] does, case by case. *)
Lemma guarded_write_run (s : Sql.stmt) (after : M unit) (what : string) (w : World) :
  Database.guarded_write s after what w
  = match Sql.transact s (db w) with
    | inl e =>
        (inr tt,
         mk_world (server_registry w) (ports w) (db w) (os w) (clock w)
                  ((journal w ++ [EvStore s (Some e)])
                   ++ [EvLog ERROR (what ++ ": " ++ exn_str e)]))
    | inr d =>
        try_except after (λ e, logger ERROR (what ++ ": " ++ exn_str e))
          (mk_world (server_registry w) (ports w) d (os w) (clock w)
                    (journal w ++ [EvStore s None]))
    end.
Proof.
  unfold Database.guarded_write, try_except, bind, gets.
  destruct (Sql.transact s (db w)) as [e|d]; reflexivity.
Qed.

Lemma never_raises_guarded_write (s : Sql.stmt) (after : M unit) (what : string) :
  never_raises (Database.guarded_write s after what).
Proof. apply never_raises_try_except. intros e. apply never_raises_logger. Qed.

Lemma never_raises_run_call (config : Config) (c : StoreCall) :
  never_raises (run_call config c).
Proof.
  destruct c; simpl; try apply never_raises_guarded_write.
  unfold Database.log_command_execution.
  destruct (negb _); [apply never_raises_ret|apply never_raises_guarded_write].
Qed.

Lemma store_only_guarded_write (s : Sql.stmt) (after : M unit) (what : string) :
  (after = ret tt ∨ ∃ level msg, after = logger level msg) →
  store_only (Database.guarded_write s after what).
Proof.
  intros Hafter w. rewrite guarded_write_run.
  destruct (Sql.transact s (db w)) as [e|d]; [done|].
  destruct Hafter as [->|(level & msg & ->)]; done.
Qed.

Lemma store_only_run_call (config : Config) (c : StoreCall) :
  store_only (run_call config c).
Proof.
  destruct c; simpl;
    try (apply store_only_guarded_write; by eauto).
  unfold Database.log_command_execution.
  destruct (negb _); [done|apply store_only_guarded_write; by eauto].
Qed.

Lemma never_raises_registry_update (sid : string) (info : SessionInfo) :
  never_raises (SessionManager.registry_update sid info).
Proof.
  apply never_raises_bind; [apply never_raises_gets|].
  intros r. apply never_raises_modify.
Qed.

Lemma never_raises_update_last_activity (sid : string) :
  never_raises (SessionManager.update_last_activity sid).
Proof.
  apply never_raises_bind; [apply never_raises_gets|]. intros r.
  destruct (Dict.get sid r) as [info|]; [|apply never_raises_ret].
  apply never_raises_bind; [apply never_raises_gets|]. intros t.
  apply never_raises_bind; [apply never_raises_registry_update|]. intros _.
  apply never_raises_guarded_write.
Qed.

Lemma never_raises_get_current_memory_usage (sid : string) :
  never_raises (SessionManager.get_current_memory_usage sid).
Proof.
  apply never_raises_bind; [apply never_raises_gets|]. intros r.
  destruct (Dict.get sid r) as [info|]; [|apply never_raises_ret].
  destruct (process info) as [proc|]; [|apply never_raises_ret].
  apply never_raises_bind; [apply never_raises_gets|]. intros o.
  destruct (OS.memory_rss proc o) as [rss|]; [|apply never_raises_ret].
  apply never_raises_bind; [apply never_raises_registry_update|]. intros _.
  apply never_raises_bind; [apply never_raises_gets|]. intros t.
  apply never_raises_bind; [apply never_raises_update_last_activity|]. intros _.
  apply never_raises_bind; [apply never_raises_guarded_write|]. intros _.
  apply never_raises_ret.
Qed.

Lemma never_raises_update_session_user_info (sid first_name last_name email : string) :
  never_raises (SessionManager.update_session_user_info sid first_name last_name email).
Proof.
  apply never_raises_bind; [apply never_raises_gets|]. intros r.
  destruct (Dict.get sid r) as [info|]; [|apply never_raises_ret].
  apply never_raises_bind; [apply never_raises_registry_update|]. intros _.
  apply never_raises_bind; [apply never_raises_gets|]. intros t.
  apply never_raises_bind; [apply never_raises_update_last_activity|]. intros _.
  apply never_raises_bind; [apply never_raises_guarded_write|]. intros _.
  apply never_raises_ret.
Qed.

(* ===================================================================== *)
(** ** Properties of the session store *)
(* ===================================================================== *)

Lemma should_log_command_spec (config : Config) (name : string) :
  Database.should_log_command config (JStr name) = true
  ↔ Spec.command_persisted
      (Database.parse_list (log_include_commands config))
      (Database.parse_list (log_exclude_commands config)) name.
Proof.
  unfold Database.should_log_command, Spec.command_persisted, Database.name_in.
  destruct (Database.parse_list (log_include_commands config)) as [|i include].
  - rewrite negb_true_iff. apply mem_false.
  - apply mem_elem_of.
Qed.

(** C5. Command filter semantics: with a non-empty include list a
    command is persisted exactly when its name is a member of it (the
    exclude list is not consulted); with an empty include list exactly
    when its name is not in the exclude list. On a store that can be
    written, a persisted command adds exactly one row to
    [session_commands], the row of that command; a filtered command adds
    none and changes nothing at all. *)
Theorem command_filter_semantics (config : Config) (name : string) :
  let include := Database.parse_list (log_include_commands config) in
  let exclude := Database.parse_list (log_exclude_commands config) in
  (Database.should_log_command config (JStr name) = true
   ↔ Spec.command_persisted include exclude name)
  ∧ (include ≠ [] →
     (Database.should_log_command config (JStr name) = true ↔ name ∈ include))
  ∧ (include = [] →
     (Database.should_log_command config (JStr name) = true ↔ name ∉ exclude))
  ∧ ∀ (session_id : string) (timestamp : Z) (success : bool)
      (execution_time_ms : option Z) (error_message : option string) (w : World),
      let w' := snd (Database.log_command_execution config session_id timestamp
                       (JStr name) success execution_time_ms error_message w) in
      (Spec.command_persisted include exclude name →
       store_healthy (db w) →
       Sql.session_commands (db w')
       = (Sql.session_commands (db w)
          ++ [Sql.mk_command session_id timestamp name (if success then 1 else 0)
                             execution_time_ms error_message])%list)
      ∧ (¬ Spec.command_persisted include exclude name → w' = w).
Proof.
  intros include exclude.
  pose proof (should_log_command_spec config name) as Hspec.
  fold include exclude in Hspec.
  split_and!.
  - exact Hspec.
  - intros Hne. rewrite Hspec. unfold Spec.command_persisted.
    by destruct include.
  - intros He. rewrite Hspec. unfold Spec.command_persisted. by rewrite He.
  - intros session_id timestamp success execution_time_ms error_message w w'.
    subst w'. unfold Database.log_command_execution. split.
    + intros Hp [[path Hpath] Hfault]. apply Hspec in Hp. rewrite Hp. simpl.
      rewrite guarded_write_run. unfold Sql.transact.
      rewrite Hpath, Hfault. reflexivity.
    + intros Hnp.
      destruct (Database.should_log_command config (JStr name)); [|done].
      destruct Hnp. by apply Hspec.
Qed.

Lemma command_filter_semantics_witness :
  let w := Scenario.one_session in
  Sql.session_commands
    (db (snd (Database.log_command_execution Scenario.config "s1" 1001
                (JStr "get_value") true (Some 12) None w)))
  = (Sql.session_commands (db w)
     ++ [Sql.mk_command "s1" 1001 "get_value" 1 (Some 12) None])%list
  ∧ snd (Database.log_command_execution Scenario.config "s1" 1001
           (JStr "ping") true (Some 12) None w) = w
  ∧ (Database.should_log_command (mk_config 8000 8003 3600 "get_value, set_value" "get_value")
                                 (JStr "get_value") = true
     ↔ "get_value" ∈ ["get_value"; "set_value"]).
Proof.
  intros w.
  destruct (command_filter_semantics Scenario.config "get_value")
    as (_ & _ & _ & Hrows).
  destruct (command_filter_semantics Scenario.config "ping")
    as (_ & _ & _ & Hnone).
  destruct (command_filter_semantics
              (mk_config 8000 8003 3600 "get_value, set_value" "get_value") "get_value")
    as (_ & Hinc & _ & _).
  split_and!.
  - apply (Hrows "s1" 1001 true (Some 12) None w).
    + vm_compute. intros H. inversion H as [|? ? ? H']. inversion H'.
    + split; [by eexists|reflexivity].
  - apply (Hnone "s1" 1001 true (Some 12) None w).
    vm_compute. intros H. apply H. constructor.
  - apply Hinc. vm_compute. discriminate.
Defined.

(* ===================================================================== *)
(** ** Properties of the session lifecycle *)
(* ===================================================================== *)

Lemma events_since_app (w w' : World) (evs : list Event) :
  journal w' = (journal w ++ evs)%list → events_since w w' = evs.
Proof. intros H. unfold events_since. rewrite H. apply drop_app_length. Qed.

Lemma run_bind_gets {A B} (f : World → A) (k : A → M B) (w : World) :
  bind (gets f) k w = k (f w) w.
Proof. reflexivity. Qed.

Lemma run_bind_modify {B} (f : World → World) (k : unit → M B) (w : World) :
  bind (modify f) k w = k tt (f w).
Proof. reflexivity. Qed.

Lemma run_bind_ret {A B} (a : A) (k : A → M B) (w : World) : bind (ret a) k w = k a w.
Proof. reflexivity. Qed.

Lemma run_bind_raise {A B} (e : Exn) (k : A → M B) (w : World) :
  bind (raise e) k w = (inl e, w).
Proof. reflexivity. Qed.

Lemma run_bind_bind {A B C} (m : M A) (k1 : A → M B) (k2 : B → M C) (w : World) :
  bind (bind m k1) k2 w = bind m (λ a, bind (k1 a) k2) w.
Proof. unfold bind. by destruct (m w) as [[e|a] w1]. Qed.

Lemma run_gets {A} (f : World → A) (w : World) : gets f w = (inr (f w), w).
Proof. reflexivity. Qed.

Lemma run_modify (f : World → World) (w : World) : modify f w = (inr tt, f w).
Proof. reflexivity. Qed.

Lemma run_ret {A} (a : A) (w : World) : ret a w = (inr a, w).
Proof. reflexivity. Qed.

Lemma run_raise {A} (e : Exn) (w : World) : raise (A := A) e w = (inl e, w).
Proof. reflexivity. Qed.

(** Symbolic execution of a computation on a state given by its fields. *)
Ltac exec :=
  cbv beta iota zeta
      delta [bind gets modify ret raise try_except emit set_registry set_ports
             set_db set_os advance time_time logger when
             SessionManager.request_port SessionManager.release_port
             SessionManager.registry_set SessionManager.registry_del
             SessionManager.registry_update SessionManager.terminate_then_kill
             PortPool.request_port PortPool.available_ports PortPool.reserved_ports
             OS.start OS.reap OS.running OS.stubborn OS.rss
             Database.log_session_created Database.log_session_destroyed
             Database.log_session_activity Database.log_session_metric
             Database.log_user_info_update Database.guarded_write
             server_registry ports db os clock journal fst snd negb].

(** The run of [launch_phoebe_worker] whose worker is started but does
    not become ready. *)
Lemma launch_unready_run (env : SessionManager.Launch)
    (client_ip user_agent : option string) (w : World) (port pid : Z) (rest : list Z) :
  PortPool.available_ports (ports w) = port :: rest →
  SessionManager.popen env = inr pid →
  SessionManager.worker_ready env = false →
  let msg := "Worker failed to start within timeout on port " ++ PyStr.of_int port in
  let reserved := {[port]} ∪ PortPool.reserved_ports (ports w) in
  SessionManager.launch_phoebe_worker env client_ip user_agent w
  = (inl (RuntimeError msg),
     mk_world (server_registry w)
              (PortPool.release_port port
                 (PortPool.release_port port (PortPool.mk rest reserved)))
              (db w)
              (OS.reap pid (OS.start pid (os w)))
              (clock w)
              (journal w
               ++ [EvRequestPort port; EvPopen pid port; EvTerminate pid]
               ++ (if bool_decide (pid ∈ OS.stubborn (os w))
                   then [EvWait pid true; EvKill pid] else [EvWait pid false])
               ++ [EvReleasePort port; EvReleasePort port;
                   EvLog ERROR ("Failed to launch worker: " ++ msg)])%list).
Proof.
  intros Hav Hpopen Hready msg reserved. subst msg reserved.
  destruct w as [reg [av res] d [running stubborn rss] t j].
  simpl in Hav. subst av.
  unfold SessionManager.launch_phoebe_worker.
  rewrite Hpopen, Hready. exec.
  destruct (bool_decide (pid ∈ stubborn)); exec;
    repeat rewrite <- app_assoc; reflexivity.
Qed.

(** C3. When the spawned worker fails its readiness probe,
    [launch_phoebe_worker] raises and rolls back completely: the
    registry is as before (no entry appears under the new id), the store
    is as before and no statement was sent to it (no [created] row), the
    worker is no longer running, the allocated port is back at the tail
    of the available queue and out of the reserved set. [release_port]
    is called twice on that port, and the pool after the second call is
    the pool after the first. *)
Theorem launch_rolls_back_when_not_ready (env : SessionManager.Launch)
    (client_ip user_agent : option string) (w : World) (port pid : Z) (rest : list Z) :
  PortPool.available_ports (ports w) = port :: rest →
  SessionManager.popen env = inr pid →
  SessionManager.worker_ready env = false →
  let r := SessionManager.launch_phoebe_worker env client_ip user_agent w in
  let w' := snd r in
  let evs := events_since w w' in
  fst r = inl (RuntimeError ("Worker failed to start within timeout on port "
                             ++ PyStr.of_int port))
  ∧ server_registry w' = server_registry w
  ∧ Ev.count (Ev.is_registry_set (SessionManager.uuid4 env)) evs = 0%nat
  ∧ db w' = db w
  ∧ Ev.count Ev.is_store evs = 0%nat
  ∧ (pid ∉ OS.running (os w'))
  ∧ PortPool.available_ports (ports w') = (rest ++ [port])%list
  ∧ PortPool.reserved_ports (ports w') = PortPool.reserved_ports (ports w) ∖ {[port]}
  ∧ Ev.count (Ev.is_release port) evs = 2%nat
  ∧ ports w' = PortPool.release_port port (snd (PortPool.request_port (ports w)))
  ∧ PortPool.release_port port (ports w') = ports w'.
Proof.
  intros Hav Hpopen Hready r w' evs. subst evs w' r.
  rewrite (launch_unready_run env client_ip user_agent w port pid rest Hav Hpopen Hready).
  cbn [fst snd server_registry ports db os].
  set (reserved := {[port]} ∪ PortPool.reserved_ports (ports w)).
  assert (Hin : port ∈ reserved) by (subst reserved; set_solver).
  assert (Hrel : PortPool.release_port port
                   (PortPool.release_port port (PortPool.mk rest reserved))
                 = PortPool.mk (rest ++ [port]) (reserved ∖ {[port]})).
  { rewrite (release_reserved (PortPool.mk rest reserved) port Hin). simpl.
    apply release_unreserved. simpl. set_solver. }
  rewrite Hrel.
  erewrite events_since_app by reflexivity.
  split_and!; try done.
  - unfold Ev.count. destruct (bool_decide _); reflexivity.
  - unfold Ev.count. destruct (bool_decide _); reflexivity.
  - unfold OS.reap, OS.start. simpl. set_solver.
  - simpl. subst reserved. set_solver.
  - unfold Ev.count. destruct (bool_decide _); simpl; by rewrite Z.eqb_refl.
  - unfold PortPool.request_port. rewrite Hav. simpl.
    fold reserved. by rewrite (release_reserved (PortPool.mk rest reserved) port Hin).
  - apply release_unreserved. simpl. set_solver.
Qed.

Lemma launch_rolls_back_when_not_ready_witness :
  let r := SessionManager.launch_phoebe_worker Scenario.launch_unready
             (Some "10.0.0.9") None Scenario.one_session in
  fst r = inl (RuntimeError "Worker failed to start within timeout on port 8001")
  ∧ server_registry (snd r) = server_registry Scenario.one_session
  ∧ db (snd r) = db Scenario.one_session
  ∧ PortPool.available_ports (ports (snd r)) = [8002; 8001].
Proof.
  intros r.
  destruct (launch_rolls_back_when_not_ready Scenario.launch_unready
              (Some "10.0.0.9") None Scenario.one_session 8001 4949 [8002])
    as (Hraise & Hreg & _ & Hdb & _ & _ & Hav & _); try reflexivity.
  split_and!; [exact Hraise|exact Hreg|exact Hdb|exact Hav].
Defined.

(** What [shutdown_server] does to a session that is in the registry. *)
Lemma shutdown_server_run (sid reason : string) (info : SessionInfo) (w : World) :
  Dict.get sid (server_registry w) = Some info →
  SessionManager.shutdown_server sid reason w
  = (inr true, after_shutdown sid reason info w).
Proof.
  intros Hget. unfold after_shutdown, Trace.shutdown, Trace.teardown,
    Trace.release, Trace.destroyed.
  destruct w as [reg pool d [running stubborn rss] t j].
  unfold OS.is_running. cbn [server_registry ports db os clock journal
                             OS.running OS.stubborn] in Hget |- *.
  unfold SessionManager.shutdown_server, OS.is_running, Dict.mem.
  destruct (process info) as [pid|] eqn:Hproc;
    [destruct (bool_decide (pid ∈ running)) eqn:Hrun;
     [destruct (bool_decide (pid ∈ stubborn)) eqn:Hstub|]|];
    destruct (port info =? 0) eqn:Hport;
    destruct (Sql.transact (Sql.UpdateDestroyed sid t reason) d) as [e|d'] eqn:Htx;
    repeat (exec; unfold Dict.mem; rewrite ?Hget, ?Hproc, ?Hrun, ?Hstub, ?Hport, ?Htx);
    repeat rewrite <- app_assoc; reflexivity.
Qed.

Lemma shutdown_server_events (sid reason : string) (info : SessionInfo) (w : World) :
  Dict.get sid (server_registry w) = Some info →
  events_of (SessionManager.shutdown_server sid reason) w
  = Trace.shutdown sid reason info w.
Proof.
  intros Hget. unfold events_of.
  rewrite (shutdown_server_run sid reason info w Hget).
  by apply events_since_app.
Qed.

(** C2, as stated, fails: ending the live session [s1] (pid 4242, port
    8000) deletes its registry entry after the worker has been
    terminated, the port released and the [destroyed] update sent. *)
Lemma shutdown_entry_removed_first_counterexample :
  events_of (SessionManager.shutdown_server "s1" "manual") Scenario.one_session
  = [EvTerminate 4242; EvWait 4242 false; EvReleasePort 8000;
     EvStore (Sql.UpdateDestroyed "s1" 1000 "manual") None;
     EvLog DEBUG "Logged session destruction: s1";
     EvRegistryDel "s1"; EvLog INFO "Shutdown session s1"]
  ∧ ¬ Spec.entry_removed_first "s1" 4242 8000
        (events_of (SessionManager.shutdown_server "s1" "manual") Scenario.one_session).
Proof.
  assert (Hevs : events_of (SessionManager.shutdown_server "s1" "manual")
                           Scenario.one_session
                 = [EvTerminate 4242; EvWait 4242 false; EvReleasePort 8000;
                    EvStore (Sql.UpdateDestroyed "s1" 1000 "manual") None;
                    EvLog DEBUG "Logged session destruction: s1";
                    EvRegistryDel "s1"; EvLog INFO "Shutdown session s1"])
    by (by vm_compute).
  split; [exact Hevs|].
  rewrite Hevs. intros (Hterm & _). vm_compute in Hterm. discriminate Hterm.
Qed.

(** C2, amended. In [shutdown_server], for every session in the
    registry, the registry entry is deleted last: a running worker is
    terminated before the deletion, a non-zero port is released before
    it, and the [destroyed] update is sent before it. The deletion
    happens once and only the closing log record follows it; the call
    returns [True] and leaves the registry without that entry. *)
Theorem shutdown_entry_removed_last (sid reason : string) (info : SessionInfo)
    (w : World) :
  Dict.get sid (server_registry w) = Some info →
  let r := SessionManager.shutdown_server sid reason w in
  let evs := events_of (SessionManager.shutdown_server sid reason) w in
  fst r = inr true
  ∧ server_registry (snd r) = Dict.del sid (server_registry w)
  ∧ (∀ pid, process info = Some pid → OS.is_running pid (os w) = true →
       Ev.before (Ev.is_terminate pid) (Ev.is_registry_del sid) evs = true)
  ∧ (port info ≠ 0 →
       Ev.before (Ev.is_release (port info)) (Ev.is_registry_del sid) evs = true)
  ∧ Ev.before (Ev.is_destroyed sid) (Ev.is_registry_del sid) evs = true
  ∧ Ev.count (Ev.is_registry_del sid) evs = 1%nat
  ∧ ∃ earlier, evs = (earlier ++ [EvRegistryDel sid;
                                  EvLog INFO ("Shutdown session " ++ sid)])%list
               ∧ Ev.count (Ev.is_registry_del sid) earlier = 0%nat.
Proof.
  intros Hget r evs. subst r evs.
  rewrite (shutdown_server_events sid reason info w Hget).
  rewrite (shutdown_server_run sid reason info w Hget).
  assert (Hearlier :
            Ev.count (Ev.is_registry_del sid)
              (Trace.teardown sid (process info) (os w) ++ Trace.release (port info)
               ++ Trace.destroyed sid (clock w) reason (db w)) = 0%nat).
  { unfold Trace.teardown, Trace.release, Trace.destroyed, Ev.count.
    destruct (process info) as [pid|];
      [destruct (OS.is_running pid (os w));
       [destruct (bool_decide (pid ∈ OS.stubborn (os w)))|]|];
      destruct (port info =? 0);
      destruct (Sql.transact _ _) as [e|d']; reflexivity. }
  split_and!; [done|done| | | | |].
  - intros pid Hproc Hrun.
    unfold Trace.shutdown, Trace.teardown, Trace.release, Trace.destroyed, Ev.before.
    rewrite Hproc, Hrun.
    destruct (bool_decide (pid ∈ OS.stubborn (os w)));
      destruct (port info =? 0);
      destruct (Sql.transact _ _) as [e|d'];
      repeat (cbn; rewrite ?Z.eqb_refl, ?String.eqb_refl); done.
  - intros Hport. apply Z.eqb_neq in Hport.
    unfold Trace.shutdown, Trace.teardown, Trace.release, Trace.destroyed, Ev.before.
    rewrite Hport.
    destruct (process info) as [pid|];
      [destruct (OS.is_running pid (os w));
       [destruct (bool_decide (pid ∈ OS.stubborn (os w)))|]|];
      destruct (Sql.transact _ _) as [e|d'];
      repeat (cbn; rewrite ?Z.eqb_refl, ?String.eqb_refl); done.
  - unfold Trace.shutdown, Trace.teardown, Trace.release, Trace.destroyed, Ev.before.
    destruct (process info) as [pid|];
      [destruct (OS.is_running pid (os w));
       [destruct (bool_decide (pid ∈ OS.stubborn (os w)))|]|];
      destruct (port info =? 0);
      destruct (Sql.transact _ _) as [e|d'];
      repeat (cbn; rewrite ?Z.eqb_refl, ?String.eqb_refl); done.
  - unfold Trace.shutdown. unfold Ev.count in *.
    rewrite !app_assoc, List.filter_app, length_app.
    rewrite <- !app_assoc, Hearlier.
    cbn. by rewrite String.eqb_refl.
  - eexists. split; [|exact Hearlier].
    unfold Trace.shutdown. by rewrite !app_assoc.
Qed.

Lemma shutdown_entry_removed_last_witness :
  let evs := events_of (SessionManager.shutdown_server "s1" "manual")
                       Scenario.one_session in
  Ev.before (Ev.is_terminate 4242) (Ev.is_registry_del "s1") evs = true
  ∧ Ev.before (Ev.is_release 8000) (Ev.is_registry_del "s1") evs = true
  ∧ Ev.before (Ev.is_destroyed "s1") (Ev.is_registry_del "s1") evs = true.
Proof.
  intros evs.
  destruct (shutdown_entry_removed_last "s1" "manual"
              (mk_info "s1" (Some 4242) 1000 1000 0%Q 8000 None None None
                       "Not logged in")
              Scenario.one_session)
    as (_ & _ & Hterm & Hrel & Hdest & _); [reflexivity|].
  split_and!.
  - apply (Hterm 4242); reflexivity.
  - apply Hrel. discriminate.
  - exact Hdest.
Defined.

(* --------------------------------------------------------------------- *)
(** *** Dictionaries *)
(* --------------------------------------------------------------------- *)

Lemma dict_get_del_ne {V} (k k' : string) (d : list (string * V)) :
  k ≠ k' → Dict.get k' (Dict.del k d) = Dict.get k' d.
Proof.
  intros Hne. induction d as [|[k0 v0] d IH]; simpl; [done|].
  destruct (String.eqb k0 k) eqn:Hk.
  - apply String.eqb_eq in Hk. subst k0.
    destruct (String.eqb k k') eqn:Hk'; [|done].
    apply String.eqb_eq in Hk'. by destruct Hne.
  - simpl. by rewrite IH.
Qed.

Lemma dict_get_elem_of {V} (k : string) (v : V) (d : list (string * V)) :
  Dict.get k d = Some v → (k, v) ∈ d.
Proof.
  induction d as [|[k0 v0] d IH]; simpl; [done|].
  destruct (String.eqb k0 k) eqn:Hk.
  - intros [= ->]. apply String.eqb_eq in Hk. subst. apply list_elem_of_here.
  - intros H. apply list_elem_of_further. by apply IH.
Qed.

Lemma dict_get_key {V} (k : string) (d : list (string * V)) :
  k ∈ Dict.keys d → is_Some (Dict.get k d).
Proof.
  unfold Dict.keys. induction d as [|[k0 v0] d IH]; simpl.
  - intros H. by apply elem_of_nil in H.
  - intros H. destruct (String.eqb k0 k) eqn:Hk; [by eexists|].
    apply elem_of_cons in H as [->|H]; [|by apply IH].
    by rewrite String.eqb_refl in Hk.
Qed.

(* --------------------------------------------------------------------- *)
(** *** [list_sessions] and the sessions whose worker is gone *)
(* --------------------------------------------------------------------- *)

Lemma count_app (P : Event → bool) (xs ys : list Event) :
  Ev.count P (xs ++ ys) = (Ev.count P xs + Ev.count P ys)%nat.
Proof. unfold Ev.count. by rewrite List.filter_app, length_app. Qed.

(** One [shutdown_server] sends one [destroyed] update, for its own
    session and with its own reason. *)
Lemma count_destroyed_shutdown (sid reason' sid' reason : string)
    (info : SessionInfo) (w : World) :
  Ev.count (Ev.is_destroyed_with sid reason') (Trace.shutdown sid' reason info w)
  = if (String.eqb sid' sid && String.eqb reason reason')%bool then 1%nat else 0%nat.
Proof.
  unfold Trace.shutdown, Trace.teardown, Trace.release, Trace.destroyed, Ev.count.
  destruct (process info) as [pid|];
    [destruct (OS.is_running pid (os w));
     [destruct (bool_decide (pid ∈ OS.stubborn (os w)))|]|];
    destruct (port info =? 0);
    destruct (Sql.transact _ _) as [e|d'];
    cbn; by destruct (String.eqb sid' sid && String.eqb reason reason')%bool.
Qed.

Lemma count_registry_del_shutdown (sid sid' reason : string)
    (info : SessionInfo) (w : World) :
  Ev.count (Ev.is_registry_del sid) (Trace.shutdown sid' reason info w)
  = if String.eqb sid' sid then 1%nat else 0%nat.
Proof.
  unfold Trace.shutdown, Trace.teardown, Trace.release, Trace.destroyed, Ev.count.
  destruct (process info) as [pid|];
    [destruct (OS.is_running pid (os w));
     [destruct (bool_decide (pid ∈ OS.stubborn (os w)))|]|];
    destruct (port info =? 0);
    destruct (Sql.transact _ _) as [e|d'];
    cbn; by destruct (String.eqb sid' sid).
Qed.

(** A loop of [shutdown_server] calls over distinct ids that are all in
    the registry: every call finds its session, and the events of a kind
    add up call by call. *)
Lemma for_each_shutdown_count (reason : string) (ds : list string) (w : World) :
  NoDup ds →
  (∀ s, s ∈ ds → is_Some (Dict.get s (server_registry w))) →
  ∃ w' evs,
    for_each ds (λ s, SessionManager.shutdown_server s reason ;; ret tt) w
    = (inr tt, w')
    ∧ journal w' = (journal w ++ evs)%list
    ∧ ∀ (P : Event → bool) (c : string → nat),
        (∀ s info w0, Ev.count P (Trace.shutdown s reason info w0) = c s) →
        Ev.count P evs = sum_list (map c ds).
Proof.
  revert w. induction ds as [|s ds IH]; intros w Hnd Hin.
  - exists w, []. simpl. split_and!; [done|by rewrite app_nil_r|done].
  - apply NoDup_cons in Hnd as [Hs Hnd].
    destruct (Hin s) as [info Hget]; [apply list_elem_of_here|].
    destruct (IH (after_shutdown s reason info w) Hnd) as (w' & evs & Hrun & Hj & Hcount).
    { intros s' Hs'. simpl.
      rewrite dict_get_del_ne by (intros ->; done).
      apply Hin. by apply list_elem_of_further. }
    exists w', (Trace.shutdown s reason info w ++ evs)%list.
    split_and!.
    + cbn [for_each]. rewrite run_bind_bind.
      rewrite (bind_inr _ _ _ _ _ (shutdown_server_run s reason info w Hget)).
      rewrite run_bind_ret. exact Hrun.
    + rewrite Hj. simpl. by rewrite app_assoc.
    + intros P c Hc. rewrite count_app, Hc, (Hcount P c Hc). reflexivity.
Qed.

Lemma sum_indicator (sid : string) (ds : list string) :
  NoDup ds → sid ∈ ds →
  sum_list (map (λ s, if String.eqb s sid then 1%nat else 0%nat) ds) = 1%nat.
Proof.
  induction ds as [|s ds IH]; intros Hnd Hin; [by apply elem_of_nil in Hin|].
  apply NoDup_cons in Hnd as [Hs Hnd]. simpl.
  destruct (String.eqb s sid) eqn:Heq.
  - apply String.eqb_eq in Heq. subst s. f_equal.
    clear IH Hin Hnd. induction ds as [|s ds IH]; [done|]. simpl.
    apply not_elem_of_cons in Hs as [Hne Hs].
    apply String.eqb_neq in Hne. rewrite String.eqb_sym in Hne. rewrite Hne.
    by apply IH.
  - apply elem_of_cons in Hin as [->|Hin]; [by rewrite String.eqb_refl in Heq|].
    by apply IH.
Qed.

Lemma sum_zero {A} (ds : list A) : sum_list (map (λ _, 0%nat) ds) = 0%nat.
Proof. induction ds; simpl; auto. Qed.

Lemma dead_sessions_NoDup (r : list (string * SessionInfo)) (o : OS.t) :
  NoDup (Dict.keys r) → NoDup (SessionManager.dead_sessions r o).
Proof.
  unfold SessionManager.dead_sessions, Dict.keys.
  induction r as [|[k v] r IH]; simpl; [constructor|].
  intros Hnd. apply NoDup_cons in Hnd as [Hk Hnd].
  destruct (match process v with Some pid => negb (OS.is_running pid o) | None => false end);
    [|by apply IH].
  simpl. apply NoDup_cons. split; [|by apply IH].
  intros Hin. apply Hk.
  apply list_elem_of_fmap in Hin as ([k' v'] & -> & Hin).
  apply list_elem_of_In, filter_In in Hin as [Hin _].
  apply list_elem_of_fmap. exists (k', v'). split; [done|by apply list_elem_of_In].
Qed.

Lemma dead_sessions_registered (r : list (string * SessionInfo)) (o : OS.t) (s : string) :
  s ∈ SessionManager.dead_sessions r o → is_Some (Dict.get s r).
Proof.
  unfold SessionManager.dead_sessions. intros Hin.
  apply list_elem_of_fmap in Hin as ([k v] & -> & Hin).
  apply list_elem_of_In, filter_In in Hin as [Hin _].
  apply dict_get_key. unfold Dict.keys.
  apply list_elem_of_fmap. exists (k, v). split; [done|by apply list_elem_of_In].
Qed.

Lemma dead_sessions_elem_of (r : list (string * SessionInfo)) (o : OS.t)
    (sid : string) (info : SessionInfo) (pid : Z) :
  Dict.get sid r = Some info → process info = Some pid →
  OS.is_running pid o = false →
  sid ∈ SessionManager.dead_sessions r o.
Proof.
  intros Hget Hproc Hrun. unfold SessionManager.dead_sessions.
  apply list_elem_of_fmap. exists (sid, info). split; [done|].
  apply list_elem_of_In, filter_In. split.
  - apply list_elem_of_In. by apply dict_get_elem_of.
  - simpl. by rewrite Hproc, Hrun.
Qed.

(** C1, on the code. For every session whose worker process is reported
    not running, [list_sessions] ends the session once, but not with the
    reason [dead_process]: it calls [shutdown_server] without a reason,
    so the one [destroyed] update sent for the session binds the default,
    [manual], and no update with [dead_process] is sent. *)
Theorem list_sessions_ends_dead_session_as_manual (w : World) (sid : string)
    (info : SessionInfo) (pid : Z) :
  registry_wf w →
  Dict.get sid (server_registry w) = Some info →
  process info = Some pid →
  OS.is_running pid (os w) = false →
  let evs := events_of SessionManager.list_sessions w in
  Ev.count (Ev.is_registry_del sid) evs = 1%nat
  ∧ Ev.count (Ev.is_destroyed_with sid "manual") evs = 1%nat
  ∧ Ev.count (Ev.is_destroyed_with sid "dead_process") evs = 0%nat.
Proof.
  intros Hwf Hget Hproc Hrun evs. subst evs.
  set (ds := SessionManager.dead_sessions (server_registry w) (os w)).
  assert (Hnd : NoDup ds) by by apply dead_sessions_NoDup.
  assert (Hin : sid ∈ ds) by by eapply dead_sessions_elem_of.
  destruct (for_each_shutdown_count SessionManager.default_termination_reason ds w Hnd)
    as (w' & evs & Hloop & Hj & Hcount).
  { intros s Hs. by eapply dead_sessions_registered. }
  assert (Hevs : events_of SessionManager.list_sessions w = evs).
  { unfold events_of, SessionManager.list_sessions.
    rewrite !run_bind_gets. fold ds.
    rewrite (bind_inr _ _ _ _ _ Hloop).
    rewrite run_bind_gets, run_ret. cbn [snd].
    by apply events_since_app. }
  rewrite Hevs. split_and!.
  - rewrite (Hcount _ (λ s, if String.eqb s sid then 1%nat else 0%nat)).
    + by apply sum_indicator.
    + intros s i w0. apply count_registry_del_shutdown.
  - rewrite (Hcount _ (λ s, if String.eqb s sid then 1%nat else 0%nat)).
    + by apply sum_indicator.
    + intros s i w0. rewrite count_destroyed_shutdown.
      unfold SessionManager.default_termination_reason.
      by destruct (String.eqb s sid).
  - rewrite (Hcount _ (λ _, 0%nat)).
    + apply sum_zero.
    + intros s i w0. rewrite count_destroyed_shutdown.
      unfold SessionManager.default_termination_reason.
      by destruct (String.eqb s sid).
Qed.

Lemma list_sessions_ends_dead_session_as_manual_witness :
  let w := Scenario.killed 4242 Scenario.two_sessions in
  let evs := events_of SessionManager.list_sessions w in
  OS.is_running 4242 (os w) = false
  ∧ Ev.count (Ev.is_registry_del "s1") evs = 1%nat
  ∧ Ev.count (Ev.is_destroyed_with "s1" "manual") evs = 1%nat
  ∧ Ev.count (Ev.is_destroyed_with "s1" "dead_process") evs = 0%nat.
Proof.
  intros w evs. split; [reflexivity|].
  apply (list_sessions_ends_dead_session_as_manual w "s1"
           (mk_info "s1" (Some 4242) 1000 1000 0%Q 8000 None None None
                    "Not logged in") 4242).
  - apply (bool_decide_unpack _). by vm_compute.
  - reflexivity.
  - reflexivity.
  - reflexivity.
Defined.

(** The dead-worker scenario of the specification, run: session [s1] of
    two loses its worker (pid 4242) and [list_sessions] is called. The
    [destroyed] update binds [manual] and so does the stored row; the
    other session is left alone and the port of [s1] is returned. *)
Example list_sessions_dead_worker_run :
  let w := Scenario.killed 4242 Scenario.two_sessions in
  let r := SessionManager.list_sessions w in
  events_of SessionManager.list_sessions w
  = [EvReleasePort 8000;
     EvStore (Sql.UpdateDestroyed "s1" 1000 "manual") None;
     EvLog DEBUG "Logged session destruction: s1";
     EvRegistryDel "s1"; EvLog INFO "Shutdown session s1"]
  ∧ Sql.termination_reason <$> (Sql.sessions (db (snd r)) !! "s1")
    = Some (Some "manual")
  ∧ Sql.status <$> (Sql.sessions (db (snd r)) !! "s1") = Some "terminated"
  ∧ Dict.keys (server_registry (snd r)) = ["s2"]
  ∧ PortPool.available_ports (ports (snd r)) = [8002; 8000].
Proof. by vm_compute. Qed.

(** The store scenario: with the database file locked, [/send] on the
    live session still returns the worker's reply; the three writes it
    attempts are each answered by one error-level log record and the
    tables stay as they were. *)
Example send_with_broken_store :
  let w := Scenario.store_broken Scenario.one_session in
  let r := Api.send Scenario.config Scenario.worker "s1"
                    [("command", JStr "get_value"); ("twig", JStr "period@binary")] w in
  fst r = inr (Api.ReplyOk (JDict [("status", JStr "ready")]))
  ∧ db (snd r) = db w
  ∧ Ev.count Ev.is_store (events_since w (snd r)) = 4%nat
  ∧ Ev.count (λ ev, match ev with EvLog ERROR _ => true | _ => false end)
             (events_since w (snd r)) = 4%nat
  ∧ Ev.count Ev.is_rpc (events_since w (snd r)) = 1%nat.
Proof. by vm_compute. Qed.

(** The lifecycle scenario on a healthy store: [ping] is filtered,
    [get_value] is logged with one row, each [/send] adds one metric. *)
Example send_twice_then_end :
  let w0 := Scenario.one_session in
  let w1 := snd (Api.send Scenario.config Scenario.worker "s1"
                          [("command", JStr "ping")] w0) in
  let w2 := snd (Api.send Scenario.config Scenario.worker "s1"
                          [("command", JStr "get_value"); ("twig", JStr "period@binary")]
                          w1) in
  let w3 := snd (Api.end_session "s1" w2) in
  Sql.session_commands (db w3)
  = [Sql.mk_command "s1" 1004 "get_value" 1 (Some 2000) None]
  ∧ length (Sql.session_metrics (db w3)) = 2%nat
  ∧ Sql.termination_reason <$> (Sql.sessions (db w3) !! "s1") = Some (Some "manual")
  ∧ server_registry w3 = []
  ∧ PortPool.reserved_ports (ports w3) = ∅.
Proof. by vm_compute. Qed.

(* ===================================================================== *)
(** ** Store failures and the callers of the store *)
(* ===================================================================== *)

Lemma never_raises_shutdown_server (sid reason : string) :
  never_raises (SessionManager.shutdown_server sid reason).
Proof.
  intros w. destruct (Dict.get sid (server_registry w)) as [info|] eqn:Hget.
  - exists true, (after_shutdown sid reason info w).
    by apply shutdown_server_run.
  - exists false, w. unfold SessionManager.shutdown_server.
    rewrite run_bind_gets. by rewrite Hget.
Qed.

(** C4. Every store operation (created, destroyed, activity, metric,
    command, user-info) returns normally from every state, whatever the
    storage layer does: when the statement raises, the exception is
    caught inside the operation, the database is left as it was and the
    journal gains the failed statement and one error-level log record.
    No store operation touches the registry, the port pool or the
    processes. The registry operations that write to the store return
    normally from every state, and [/send] on a known session returns
    the worker's reply whatever the condition of the store. *)
Theorem store_failures_never_surface (config : Config)
    (worker : Z → list (string * json) → Api.Reply * Z) :
  (∀ (c : StoreCall) (w : World),
     let w' := snd (run_call config c w) in
     fst (run_call config c w) = inr tt
     ∧ server_registry w' = server_registry w
     ∧ ports w' = ports w
     ∧ os w' = os w
     ∧ match statement_of config c with
       | None => w' = w
       | Some s =>
           match Sql.transact s (db w) with
           | inl e =>
               db w' = db w
               ∧ events_since w w'
                 = [EvStore s (Some e);
                    EvLog ERROR (failure_text c ++ ": " ++ exn_str e)]
           | inr d => db w' = d
           end
       end)
  ∧ (∀ (session_id first_name last_name email reason : string),
       never_raises (SessionManager.update_last_activity session_id)
       ∧ never_raises (SessionManager.get_current_memory_usage session_id)
       ∧ never_raises (SessionManager.update_session_user_info
                         session_id first_name last_name email)
       ∧ never_raises (SessionManager.shutdown_server session_id reason))
  ∧ (∀ (session_id : string) (command : list (string * json)) (w : World),
       fst (Api.send config worker session_id command w)
       = match Dict.get session_id (server_registry w) with
         | Some info => inr (fst (worker (port info) command))
         | None => inl (HTTPException 404 "Invalid session ID")
         end).
Proof.
  split_and!.
  - intros c w w'.
    destruct (never_raises_run_call config c w) as ([] & w1 & Hrun).
    destruct (store_only_run_call config c w) as (Hreg & Hports & Hos & _).
    split_and!; [by rewrite Hrun|done|done|done|].
    subst w'. clear Hrun Hreg Hports Hos w1.
    assert (Hw : ∀ s after what,
               (after = ret tt ∨ ∃ level msg, after = logger level msg) →
               match Sql.transact s (db w) with
               | inl e =>
                   db (snd (Database.guarded_write s after what w)) = db w
                   ∧ events_since w (snd (Database.guarded_write s after what w))
                     = [EvStore s (Some e); EvLog ERROR (what ++ ": " ++ exn_str e)]
               | inr d => db (snd (Database.guarded_write s after what w)) = d
               end).
    { intros s after what Hafter. rewrite guarded_write_run.
      destruct (Sql.transact s (db w)) as [e|d].
      - split; [done|]. unfold events_since. simpl.
        rewrite <- app_assoc. by rewrite drop_app_length.
      - destruct Hafter as [->|(level & msg & ->)]; done. }
    destruct c; simpl; try (apply Hw; by eauto).
    unfold Database.log_command_execution.
    destruct (Database.should_log_command config command_name); simpl;
      [apply Hw; by eauto|done].
  - intros session_id first_name last_name email reason.
    split_and!.
    + apply never_raises_update_last_activity.
    + apply never_raises_get_current_memory_usage.
    + apply never_raises_update_session_user_info.
    + apply never_raises_shutdown_server.
  - intros session_id command w. unfold Api.send.
    unfold SessionManager.get_server_info at 1.
    unfold bind at 1, gets at 1. unfold bind at 1.
    destruct (Dict.get session_id (server_registry w)) as [info|]; [|done].
    simpl.
    apply bind_never_raises_fst; [apply never_raises_update_last_activity|].
    intros _ w1. unfold time_time, Api.send_command, emit, advance.
    unfold bind at 1, gets at 1. unfold bind at 1. unfold bind at 1.
    unfold modify at 1. unfold bind at 1. unfold modify at 1.
    unfold ret at 1. unfold bind at 1, gets at 1. unfold bind at 1, gets at 1.
    apply bind_never_raises_fst.
    { unfold Database.log_command_execution.
      destruct (negb _); [apply never_raises_ret|apply never_raises_guarded_write]. }
    intros _ w2.
    apply bind_never_raises_fst; [apply never_raises_get_current_memory_usage|].
    intros _ w3. reflexivity.
Qed.

(* ===================================================================== *)
(** ** Further properties of the port pool *)
(* ===================================================================== *)

(** X1. [get_port_status] reports the reserved ports in ascending order,
    each reserved port once and nothing else; the three counters agree
    with the list and with each other. *)
Theorem port_status_reserved_list_sorted (start end_ : Z) (pool : PortPool.t) :
  let st := PortPool.get_port_status start end_ pool in
  StronglySorted Z.le (PortPool.reserved_port_list st)
  ∧ NoDup (PortPool.reserved_port_list st)
  ∧ (∀ p, p ∈ PortPool.reserved_port_list st ↔ p ∈ PortPool.reserved_ports pool)
  ∧ Z.of_nat (length (PortPool.reserved_port_list st)) = PortPool.reserved_count st
  ∧ PortPool.total_ports st
    = PortPool.reserved_count st + PortPool.available_count st.
Proof.
  intros st. subst st. simpl.
  pose proof (merge_sort_Permutation Z.le (elements (PortPool.reserved_ports pool)))
    as Hperm.
  split_and!.
  - apply StronglySorted_merge_sort; apply _.
  - rewrite Hperm. apply NoDup_elements.
  - intros p. rewrite Hperm. apply elem_of_elements.
  - by rewrite Hperm.
  - lia.
Qed.

Lemma request_many_all (av : list Z) (reserved : gset Z) (extra : list Z) :
  request_many (length av) (PortPool.mk (av ++ extra) reserved)
  = (av, PortPool.mk extra (list_to_set av ∪ reserved)).
Proof.
  revert reserved. induction av as [|p av IH]; intros reserved; simpl.
  - f_equal. f_equal. set_solver.
  - rewrite IH. f_equal. f_equal. set_solver.
Qed.

(** X2. The available queue is first in, first out: once a reserved port
    is released, the next requests are served with the ports that were
    available before it, in their order, and only the request after
    those gets the released port again. *)
Theorem released_port_is_reused_last (pool : PortPool.t) (port : Z) :
  port ∈ PortPool.reserved_ports pool →
  let released := PortPool.release_port port pool in
  let waiting := PortPool.available_ports pool in
  fst (request_many (length waiting) released) = waiting
  ∧ fst (PortPool.request_port (snd (request_many (length waiting) released)))
    = inr port
  ∧ fst (request_many (S (length waiting)) released) = (waiting ++ [port])%list.
Proof.
  intros Hin released waiting. subst released waiting.
  rewrite (release_reserved pool port Hin).
  set (av := PortPool.available_ports pool).
  set (reserved := PortPool.reserved_ports pool ∖ {[port]}).
  pose proof (request_many_all av reserved [port]) as Hfirst.
  pose proof (request_many_all (av ++ [port]) reserved []) as Hall.
  rewrite app_nil_r, length_app, Nat.add_1_r in Hall.
  rewrite Hfirst, Hall. done.
Qed.

Lemma released_port_is_reused_last_witness :
  let pool := PortPool.mk [8001; 8002] {[8000]} in
  fst (request_many 3 (PortPool.release_port 8000 pool)) = [8001; 8002; 8000].
Proof.
  intros pool.
  destruct (released_port_is_reused_last pool 8000) as (_ & _ & Hall).
  - by vm_compute.
  - exact Hall.
Defined.

(* ===================================================================== *)
(** ** Further properties of dictionaries *)
(* ===================================================================== *)

Lemma dict_get_None {V} (k : string) (d : list (string * V)) :
  Dict.get k d = None ↔ k ∉ Dict.keys d.
Proof.
  unfold Dict.keys. induction d as [|[k0 v0] d IH]; simpl.
  - split; [intros _; apply not_elem_of_nil|done].
  - rewrite not_elem_of_cons, <- IH.
    destruct (String.eqb k0 k) eqn:Hk.
    + apply String.eqb_eq in Hk. subst. split; [done|]. by intros [? _].
    + apply String.eqb_neq in Hk. split; [|tauto].
      intros H. split; [congruence|done].
Qed.

Lemma dict_get_split {V} (k : string) (v : V) (d : list (string * V)) :
  Dict.get k d = Some v →
  ∃ d1 d2, d = (d1 ++ (k, v) :: d2)%list
           ∧ (k ∉ Dict.keys d1)
           ∧ Dict.del k d = (d1 ++ d2)%list
           ∧ ∀ v', Dict.set k v' d = (d1 ++ (k, v') :: d2)%list.
Proof.
  induction d as [|[k0 v0] d IH]; simpl; [done|].
  destruct (String.eqb k0 k) eqn:Hk.
  - intros [= ->]. apply String.eqb_eq in Hk. subst k0.
    exists [], d. split_and!; [done|apply not_elem_of_nil|done|done].
  - intros Hget. destruct (IH Hget) as (d1 & d2 & -> & Hk1 & Hdel & Hset).
    exists ((k0, v0) :: d1), d2. split_and!; [done| | |].
    + unfold Dict.keys in *. simpl. apply not_elem_of_cons. split; [|done].
      apply String.eqb_neq in Hk. congruence.
    + by rewrite Hdel.
    + intros v'. by rewrite Hset.
Qed.

Lemma dict_set_fresh {V} (k : string) (v : V) (d : list (string * V)) :
  Dict.get k d = None → Dict.set k v d = (d ++ [(k, v)])%list.
Proof.
  induction d as [|[k0 v0] d IH]; simpl; [done|].
  destruct (String.eqb k0 k); [done|]. intros H. by rewrite IH.
Qed.

(** Reading back what was written, and nothing else changes. *)
Lemma dict_get_set {V} (k k' : string) (v : V) (d : list (string * V)) :
  Dict.get k' (Dict.set k v d) = if String.eqb k k' then Some v else Dict.get k' d.
Proof.
  induction d as [|[k0 v0] d IH]; simpl.
  - by destruct (String.eqb k k').
  - destruct (String.eqb k0 k) eqn:Hk; simpl.
    + apply String.eqb_eq in Hk. subst k0. by destruct (String.eqb k k').
    + rewrite IH. destruct (String.eqb k k') eqn:Hk'; [|done].
      apply String.eqb_eq in Hk'. subst k'. by rewrite Hk.
Qed.

Lemma dict_keys_set {V} (k : string) (v : V) (d : list (string * V)) :
  Dict.keys (Dict.set k v d)
  = if Dict.mem k d then Dict.keys d else (Dict.keys d ++ [k])%list.
Proof.
  unfold Dict.mem. destruct (Dict.get k d) as [v0|] eqn:Hget.
  - destruct (dict_get_split k v0 d Hget) as (d1 & d2 & -> & _ & _ & Hset).
    rewrite Hset. unfold Dict.keys. by rewrite !map_app.
  - rewrite dict_set_fresh by done. unfold Dict.keys. by rewrite map_app.
Qed.

Lemma NoDup_remove_middle {A} (l1 l2 : list A) (x : A) :
  NoDup (l1 ++ x :: l2) → NoDup (l1 ++ l2) ∧ x ∉ (l1 ++ l2)%list.
Proof.
  intros H. rewrite <- Permutation_middle in H.
  apply NoDup_cons in H as [? ?]. done.
Qed.

(* ===================================================================== *)
(** ** The registry and the pool stay consistent *)
(* ===================================================================== *)

Lemma consistent_frame (w w' : World) :
  server_registry w' = server_registry w → ports w' = ports w →
  consistent w → consistent w'.
Proof.
  intros Hr Hp [H1 H2 H3 H4 H5].
  split; unfold session_ports in *; rewrite ?Hr, ?Hp; done.
Qed.

Lemma keeps_frame {A} (m : M A) :
  (∀ w, server_registry (snd (m w)) = server_registry w
        ∧ ports (snd (m w)) = ports w) →
  keeps consistent m.
Proof. intros H w Hw. destruct (H w). by eapply consistent_frame. Qed.

Lemma keeps_bind {A B} (I : World → Prop) (m : M A) (k : A → M B) :
  keeps I m → (∀ a, keeps I (k a)) → keeps I (bind m k).
Proof.
  intros Hm Hk w Hw. unfold bind. specialize (Hm w Hw).
  destruct (m w) as [[e|a] w1]; [done|]. by apply Hk.
Qed.

Lemma keeps_try_except {A} (I : World → Prop) (m : M A) (h : Exn → M A) :
  keeps I m → (∀ e, keeps I (h e)) → keeps I (try_except m h).
Proof.
  intros Hm Hh w Hw. unfold try_except. specialize (Hm w Hw).
  destruct (m w) as [[e|a] w1]; [by apply Hh|done].
Qed.

Lemma keeps_for_each {A} (I : World → Prop) (xs : list A) (body : A → M unit) :
  (∀ x, keeps I (body x)) → keeps I (for_each xs body).
Proof.
  intros Hb. induction xs as [|x xs IH]; simpl; [by intros w|].
  apply keeps_bind; [apply Hb|by intros _].
Qed.

Lemma keeps_pure {A} (I : World → Prop) (m : M A) :
  (∀ w, snd (m w) = w) → keeps I m.
Proof. intros H w Hw. by rewrite H. Qed.

Lemma keeps_store_only {A} (m : M A) : store_only m → keeps consistent m.
Proof.
  intros H. apply keeps_frame. intros w. destruct (H w) as (? & ? & _). done.
Qed.

(** Releasing a port that no session holds keeps the state consistent. *)
Lemma consistent_release (w : World) (p : Z) (reg : list (string * SessionInfo))
    (d : Sql.t) (o : OS.t) (t : Z) (j : list Event) :
  consistent w →
  NoDup (Dict.keys reg) →
  NoDup (map (λ entry, port (snd entry)) reg) →
  (∀ q, q ∈ map (λ entry, port (snd entry)) reg →
        q ∈ PortPool.reserved_ports (ports w) ∧ q ≠ p) →
  consistent (mk_world reg (PortPool.release_port p (ports w)) d o t j).
Proof.
  intros [_ _ _ Hav Hdis] Hkeys Hports Hres.
  unfold PortPool.release_port.
  destruct (decide (p ∈ PortPool.reserved_ports (ports w))) as [Hin|Hout].
  - split; unfold session_ports; simpl; [done|done| | |].
    + intros q Hq. destruct (Hres q Hq). set_solver.
    + apply NoDup_app. split_and!; [done| |apply NoDup_singleton].
      intros q Hq Hq'. apply list_elem_of_singleton in Hq' as ->.
      by apply (Hdis p).
    + intros q. rewrite elem_of_app, list_elem_of_singleton, elem_of_difference,
        elem_of_singleton.
      intros [Hq| ->] [Hr Hne]; [by apply (Hdis q)|done].
  - split; unfold session_ports; simpl; [done|done| |done|done].
    intros q Hq. by destruct (Hres q Hq).
Qed.

Lemma consistent_after_shutdown (sid reason : string) (info : SessionInfo) (w : World) :
  Dict.get sid (server_registry w) = Some info →
  consistent w → consistent (after_shutdown sid reason info w).
Proof.
  intros Hget Hw. pose proof Hw as [Hkeys Hports Hres Hav Hdis].
  destruct (dict_get_split sid info _ Hget) as (d1 & d2 & Hreg & _ & Hdel & _).
  unfold after_shutdown. rewrite Hdel. clear Hdel Hget.
  unfold session_ports, Dict.keys in *. rewrite Hreg in *.
  rewrite map_app in Hkeys, Hports. simpl in Hkeys, Hports.
  apply NoDup_remove_middle in Hkeys as [Hkeys _].
  apply NoDup_remove_middle in Hports as [Hports Hfresh].
  rewrite <- map_app in Hkeys, Hports, Hfresh.
  assert (Hsub : ∀ q, q ∈ map (λ entry, port (snd entry)) (d1 ++ d2) →
                      q ∈ PortPool.reserved_ports (ports w) ∧ q ≠ port info).
  { intros q Hq. split.
    - apply Hres. rewrite map_app in *. simpl.
      apply elem_of_app in Hq as [Hq|Hq]; apply elem_of_app; [by left|].
      right. by apply list_elem_of_further.
    - intros ->. by apply Hfresh. }
  destruct (port info =? 0).
  - split; unfold session_ports, Dict.keys; simpl; [done|done| |done|done].
    intros q Hq. by destruct (Hsub q Hq).
  - by apply consistent_release.
Qed.

(** What one [shutdown_server] call inside a loop does. *)
Lemma shutdown_body_run (sid reason : string) (w : World) :
  bind (SessionManager.shutdown_server sid reason) (λ _, ret tt) w
  = (inr tt, shutdown_step reason w sid).
Proof.
  unfold shutdown_step.
  destruct (Dict.get sid (server_registry w)) as [info|] eqn:Hget.
  - by rewrite (bind_inr _ _ _ _ _ (shutdown_server_run sid reason info w Hget)).
  - unfold SessionManager.shutdown_server. rewrite run_bind_bind, run_bind_gets.
    by rewrite Hget.
Qed.

Lemma shutdown_server_step (sid reason : string) (w : World) :
  snd (SessionManager.shutdown_server sid reason w) = shutdown_step reason w sid.
Proof.
  unfold shutdown_step.
  destruct (Dict.get sid (server_registry w)) as [info|] eqn:Hget.
  - by rewrite (shutdown_server_run sid reason info w Hget).
  - unfold SessionManager.shutdown_server. rewrite run_bind_gets. by rewrite Hget.
Qed.

Lemma consistent_shutdown_step (reason : string) (w : World) (sid : string) :
  consistent w → consistent (shutdown_step reason w sid).
Proof.
  intros Hw. unfold shutdown_step.
  destruct (Dict.get sid (server_registry w)) as [info|] eqn:Hget; [|done].
  by apply consistent_after_shutdown.
Qed.

Lemma keeps_shutdown_server (sid reason : string) :
  keeps consistent (SessionManager.shutdown_server sid reason).
Proof. intros w Hw. rewrite shutdown_server_step. by apply consistent_shutdown_step. Qed.

Lemma consistent_update (sid : string) (info info' : SessionInfo) (w : World) :
  Dict.get sid (server_registry w) = Some info →
  port info' = port info →
  consistent w →
  consistent (with_registry (Dict.set sid info' (server_registry w)) w).
Proof.
  intros Hget Hport [Hkeys Hports Hres Hav Hdis].
  destruct (dict_get_split sid info _ Hget) as (d1 & d2 & Hreg & _ & _ & Hset).
  assert (Hsame : map (λ entry, port (snd entry)) (Dict.set sid info' (server_registry w))
                  = session_ports w).
  { unfold session_ports. rewrite Hset, Hreg, !map_app. simpl. by rewrite Hport. }
  split; unfold session_ports, with_registry; simpl; rewrite ?Hsame; try done.
  rewrite dict_keys_set. unfold Dict.mem. by rewrite Hget.
Qed.

(** What [update_last_activity] does. *)
Lemma update_last_activity_run (sid : string) (w : World) :
  SessionManager.update_last_activity sid w
  = match Dict.get sid (server_registry w) with
    | Some info =>
        Database.log_session_activity sid (clock w)
          (with_registry (Dict.set sid (with_last_activity (clock w) info)
                                   (server_registry w)) w)
    | None => (inr tt, w)
    end.
Proof.
  unfold SessionManager.update_last_activity. rewrite run_bind_gets.
  by destruct (Dict.get sid (server_registry w)).
Qed.

Lemma keeps_guarded_write (s : Sql.stmt) (after : M unit) (what : string) :
  (after = ret tt ∨ ∃ level msg, after = logger level msg) →
  keeps consistent (Database.guarded_write s after what).
Proof. intros H. by apply keeps_store_only, store_only_guarded_write. Qed.

Lemma keeps_update_last_activity (sid : string) :
  keeps consistent (SessionManager.update_last_activity sid).
Proof.
  intros w Hw. rewrite update_last_activity_run.
  destruct (Dict.get sid (server_registry w)) as [info|] eqn:Hget; [|done].
  apply keeps_guarded_write; [by left|].
  by apply (consistent_update sid info).
Qed.

(** What [get_current_memory_usage] does. *)
Lemma get_current_memory_usage_run (sid : string) (w : World) :
  SessionManager.get_current_memory_usage sid w
  = match Dict.get sid (server_registry w) with
    | Some info =>
        match process info with
        | Some proc =>
            match OS.memory_rss proc (os w) with
            | Some rss =>
                let mem := (inject_Z rss / inject_Z (1024 * 1024))%Q in
                bind (SessionManager.update_last_activity sid)
                     (λ _, bind (Database.log_session_metric sid (clock w) mem)
                                (λ _, ret (Some mem)))
                     (with_registry (Dict.set sid (with_mem_used mem info)
                                              (server_registry w)) w)
            | None => (inr None, w)
            end
        | None => (inr None, w)
        end
    | None => (inr None, w)
    end.
Proof.
  unfold SessionManager.get_current_memory_usage. rewrite run_bind_gets.
  destruct (Dict.get sid (server_registry w)) as [info|]; [|done].
  destruct (process info) as [proc|]; [|done].
  rewrite run_bind_gets.
  by destruct (OS.memory_rss proc (os w)).
Qed.

Lemma keeps_get_current_memory_usage (sid : string) :
  keeps consistent (SessionManager.get_current_memory_usage sid).
Proof.
  intros w Hw. rewrite get_current_memory_usage_run.
  destruct (Dict.get sid (server_registry w)) as [info|] eqn:Hget; [|done].
  destruct (process info) as [proc|]; [|done].
  destruct (OS.memory_rss proc (os w)) as [rss|]; [|done].
  apply keeps_bind; [apply keeps_update_last_activity| |].
  - intros _. apply keeps_bind; [by apply keeps_guarded_write; left|].
    intros _. by apply keeps_pure.
  - by apply (consistent_update sid info).
Qed.

(** What [update_session_user_info] does. *)
Lemma update_session_user_info_run (sid first_name last_name email : string) (w : World) :
  SessionManager.update_session_user_info sid first_name last_name email w
  = match Dict.get sid (server_registry w) with
    | Some info =>
        bind (SessionManager.update_last_activity sid)
             (λ _, bind (Database.log_user_info_update sid first_name last_name email
                                                       (clock w))
                        (λ _, ret true))
             (with_registry (Dict.set sid (with_user first_name last_name email info)
                                      (server_registry w)) w)
    | None => (inr false, w)
    end.
Proof.
  unfold SessionManager.update_session_user_info. rewrite run_bind_gets.
  by destruct (Dict.get sid (server_registry w)).
Qed.

Lemma keeps_update_session_user_info (sid first_name last_name email : string) :
  keeps consistent (SessionManager.update_session_user_info sid first_name last_name email).
Proof.
  intros w Hw. rewrite update_session_user_info_run.
  destruct (Dict.get sid (server_registry w)) as [info|] eqn:Hget; [|done].
  apply keeps_bind; [apply keeps_update_last_activity| |].
  - intros _. apply keeps_bind; [by apply keeps_guarded_write; left|].
    intros _. by apply keeps_pure.
  - by apply (consistent_update sid info).
Qed.

(* ===================================================================== *)
(** ** Further properties of [launch_phoebe_worker] *)
(* ===================================================================== *)

(** X3. A launch whose worker starts and answers the readiness ping
    returns the new entry without its process handle, stores the entry
    under the new id with the head of the available queue as its port,
    moves that port to the reserved set, sends the [created] insert after
    the entry is in the registry, and, when the store can be written and
    has no row for the id yet, leaves an [active] row for the session. *)
Theorem launch_registers_session (env : SessionManager.Launch)
    (client_ip user_agent : option string) (w : World) (port pid : Z) (rest : list Z) :
  PortPool.available_ports (ports w) = port :: rest →
  SessionManager.popen env = inr pid →
  SessionManager.worker_ready env = true →
  let sid := SessionManager.uuid4 env in
  let info := new_entry sid pid port (clock w) in
  let insert := Sql.InsertSession sid (clock w) port client_ip user_agent in
  let r := SessionManager.launch_phoebe_worker env client_ip user_agent w in
  let w' := snd r in
  fst r = inr (without_process info)
  ∧ server_registry w' = Dict.set sid info (server_registry w)
  ∧ Dict.get sid (server_registry w') = Some info
  ∧ ports w' = PortPool.mk rest ({[port]} ∪ PortPool.reserved_ports (ports w))
  ∧ os w' = OS.start pid (os w)
  ∧ db w' = match Sql.transact insert (db w) with inr d => d | inl _ => db w end
  ∧ Ev.before (Ev.is_registry_set sid) Ev.is_store (events_since w w') = true
  ∧ (store_healthy (db w) → Sql.sessions (db w) !! sid = None →
     Sql.sessions (db w') !! sid
     = Some (Sql.mk_session (clock w) None (clock w) port client_ip user_agent
                            None "active")).
Proof.
  intros Hav Hpopen Hready sid info insert r w'. subst r w' insert info sid.
  destruct w as [reg [av res] d o t j]. simpl in Hav. subst av.
  unfold SessionManager.launch_phoebe_worker, new_entry, store_healthy.
  rewrite Hpopen, Hready.
  cbn [server_registry ports db os clock journal].
  destruct (Sql.transact (Sql.InsertSession (SessionManager.uuid4 env) t port
                                            client_ip user_agent) d)
    as [e|d'] eqn:Htx;
    repeat (exec; rewrite ?dict_get_set, ?String.eqb_refl, ?Htx);
    (split_and!; [done|done|done|done|done|done| |]).
  - unfold events_since. simpl. repeat rewrite <- app_assoc.
    rewrite drop_app_length. unfold Ev.before. cbn. by rewrite String.eqb_refl.
  - intros [[path Hpath] Hfault] Hfresh. exfalso.
    unfold Sql.transact in Htx. simpl in *. rewrite Hpath, Hfault in Htx.
    simpl in Htx. by rewrite Hfresh in Htx.
  - unfold events_since. simpl. repeat rewrite <- app_assoc.
    rewrite drop_app_length. unfold Ev.before. cbn. by rewrite String.eqb_refl.
  - intros [[path Hpath] Hfault] Hfresh.
    unfold Sql.transact in Htx. simpl in *. rewrite Hpath, Hfault in Htx.
    simpl in Htx. rewrite Hfresh in Htx. injection Htx as <-.
    simpl. apply lookup_insert_eq.
Qed.

Lemma launch_registers_session_witness :
  let r := SessionManager.launch_phoebe_worker Scenario.launch_s2 (Some "10.0.0.2")
             None Scenario.one_session in
  Dict.keys (server_registry (snd r)) = ["s1"; "s2"]
  ∧ ports (snd r) = PortPool.mk [8002] ({[8001]} ∪ {[8000]} ∪ ∅)
  ∧ Sql.status <$> (Sql.sessions (db (snd r)) !! "s2") = Some "active".
Proof.
  intros r.
  destruct (launch_registers_session Scenario.launch_s2 (Some "10.0.0.2") None
              Scenario.one_session 8001 4343 [8002])
    as (_ & Hreg & _ & Hports & _ & _ & _ & Hrow); try reflexivity.
  split_and!.
  - subst r. rewrite Hreg. reflexivity.
  - exact Hports.
  - assert (Hhealthy : store_healthy (db Scenario.one_session))
      by (split; [by eexists|reflexivity]).
    specialize (Hrow Hhealthy eq_refl).
    change (SessionManager.uuid4 Scenario.launch_s2) with "s2" in Hrow.
    subst r. rewrite Hrow. reflexivity.
Defined.

(** X4. With no port available [launch_phoebe_worker] raises the
    no-capacity error before anything else happens: no process is
    started and the state, journal included, is as it was. *)
Theorem launch_without_capacity (env : SessionManager.Launch)
    (client_ip user_agent : option string) (w : World) :
  PortPool.available_ports (ports w) = [] →
  SessionManager.launch_phoebe_worker env client_ip user_agent w
  = (inl (RuntimeError PortPool.no_ports_msg), w).
Proof.
  intros Hav. destruct w as [reg [av res] d o t j]. simpl in Hav. subst av.
  unfold SessionManager.launch_phoebe_worker. by exec.
Qed.

Lemma launch_without_capacity_witness :
  let full := acts Scenario.config Scenario.worker Scenario.two_sessions
                   [DoLaunch (SessionManager.mk_launch "s3" (inr 4444) true) None None] in
  SessionManager.launch_phoebe_worker (SessionManager.mk_launch "s4" (inr 4545) true)
                                      None None full
  = (inl (RuntimeError PortPool.no_ports_msg), full).
Proof.
  intros full. apply launch_without_capacity. reflexivity.
Defined.

(** X5. When [psutil.Popen] itself raises, [launch_phoebe_worker] gives
    the port back (to the tail of the queue), logs the failure and raises
    the same exception; the registry, the store and the processes are as
    they were. *)
Theorem launch_rolls_back_when_spawn_raises (env : SessionManager.Launch)
    (client_ip user_agent : option string) (w : World) (port : Z) (rest : list Z)
    (e : Exn) :
  PortPool.available_ports (ports w) = port :: rest →
  SessionManager.popen env = inl e →
  let r := SessionManager.launch_phoebe_worker env client_ip user_agent w in
  let w' := snd r in
  fst r = inl e
  ∧ server_registry w' = server_registry w
  ∧ db w' = db w
  ∧ os w' = os w
  ∧ PortPool.available_ports (ports w') = (rest ++ [port])%list
  ∧ PortPool.reserved_ports (ports w') = PortPool.reserved_ports (ports w) ∖ {[port]}
  ∧ events_since w w'
    = [EvRequestPort port; EvReleasePort port;
       EvLog ERROR ("Failed to launch worker: " ++ exn_str e)].
Proof.
  intros Hav Hpopen r w'. subst r w'.
  destruct w as [reg [av res] d o t j]. simpl in Hav. subst av.
  unfold SessionManager.launch_phoebe_worker. rewrite Hpopen. exec.
  rewrite (release_reserved (PortPool.mk rest ({[port]} ∪ res)) port) by set_solver.
  simpl. split_and!; try done.
  - set_solver.
  - unfold events_since. simpl. repeat rewrite <- app_assoc.
    by rewrite drop_app_length.
Qed.

Lemma launch_rolls_back_when_spawn_raises_witness :
  let r := SessionManager.launch_phoebe_worker
             (SessionManager.mk_launch "s5" (inl (OSError "Cannot allocate memory")) true)
             None None Scenario.one_session in
  fst r = inl (OSError "Cannot allocate memory")
  ∧ server_registry (snd r) = server_registry Scenario.one_session
  ∧ PortPool.available_ports (ports (snd r)) = [8002; 8001].
Proof.
  intros r.
  destruct (launch_rolls_back_when_spawn_raises
              (SessionManager.mk_launch "s5" (inl (OSError "Cannot allocate memory")) true)
              None None Scenario.one_session 8001 [8002] (OSError "Cannot allocate memory"))
    as (Hraise & Hreg & _ & _ & Hav & _); try reflexivity.
  split_and!; [exact Hraise|exact Hreg|exact Hav].
Defined.

(** The registry and the pool after a launch, in each of its four cases. *)
Lemma launch_registry_ports (env : SessionManager.Launch)
    (client_ip user_agent : option string) (w : World) :
  let w' := snd (SessionManager.launch_phoebe_worker env client_ip user_agent w) in
  match PortPool.available_ports (ports w) with
  | [] => w' = w
  | port :: rest =>
      let requested :=
        PortPool.mk rest ({[port]} ∪ PortPool.reserved_ports (ports w)) in
      match SessionManager.popen env with
      | inl _ =>
          server_registry w' = server_registry w
          ∧ ports w' = PortPool.release_port port requested
      | inr pid =>
          if SessionManager.worker_ready env
          then server_registry w'
               = Dict.set (SessionManager.uuid4 env)
                          (new_entry (SessionManager.uuid4 env) pid port (clock w))
                          (server_registry w)
               ∧ ports w' = requested
          else server_registry w' = server_registry w
               ∧ ports w' = PortPool.release_port port
                              (PortPool.release_port port requested)
      end
  end.
Proof.
  intros w'. subst w'.
  destruct w as [reg [av res] d [running stubborn rss] t j].
  cbn [ports PortPool.available_ports].
  unfold SessionManager.launch_phoebe_worker, new_entry.
  destruct av as [|port rest]; [by exec|].
  destruct (SessionManager.popen env) as [e|pid]; [by exec|].
  destruct (SessionManager.worker_ready env).
  - cbn [server_registry ports db os clock journal].
    destruct (Sql.transact (Sql.InsertSession (SessionManager.uuid4 env) t port
                                              client_ip user_agent) d)
      as [e|d'] eqn:Htx;
      repeat (exec; rewrite ?dict_get_set, ?String.eqb_refl, ?Htx); done.
  - destruct (bool_decide (pid ∈ stubborn)) eqn:Hstub;
      repeat (exec; rewrite ?Hstub); done.
Qed.

Lemma consistent_request (w : World) (p : Z) (rest : list Z)
    (d : Sql.t) (o : OS.t) (t : Z) (j : list Event) :
  consistent w →
  PortPool.available_ports (ports w) = p :: rest →
  consistent (mk_world (server_registry w)
                       (PortPool.mk rest ({[p]} ∪ PortPool.reserved_ports (ports w)))
                       d o t j)
  ∧ (p ∉ session_ports w).
Proof.
  intros [Hkeys Hports Hres Hav Hdis] Heq. rewrite Heq in *.
  apply NoDup_cons in Hav as [Hp Hav].
  assert (Hfree : p ∉ PortPool.reserved_ports (ports w))
    by (apply Hdis, list_elem_of_here).
  split.
  - split; unfold session_ports; simpl; [done|done| |done|].
    + intros q Hq. apply elem_of_union. right. by apply Hres.
    + intros q Hq. rewrite elem_of_union, elem_of_singleton.
      intros [->|Hr]; [done|]. by apply (Hdis q); [apply list_elem_of_further|].
  - intros Hin. by apply Hfree, Hres.
Qed.

Lemma consistent_register (w : World) (sid : string) (info : SessionInfo) :
  consistent w →
  port info ∈ PortPool.reserved_ports (ports w) →
  port info ∉ session_ports w →
  consistent (with_registry (Dict.set sid info (server_registry w)) w).
Proof.
  intros [Hkeys Hports Hres Hav Hdis] Hin Hfresh.
  unfold session_ports in *.
  destruct (Dict.get sid (server_registry w)) as [old|] eqn:Hget.
  - destruct (dict_get_split sid old _ Hget) as (d1 & d2 & Hreg & _ & _ & Hset).
    split; unfold session_ports, with_registry; simpl; [| | |done|done].
    + rewrite dict_keys_set. unfold Dict.mem. by rewrite Hget.
    + rewrite Hset. rewrite Hreg in Hports, Hfresh.
      rewrite map_app in *. simpl in *.
      apply NoDup_remove_middle in Hports as [Hports _].
      rewrite <- Permutation_middle. apply NoDup_cons. split; [|done].
      intros Hp. apply Hfresh. rewrite <- Permutation_middle.
      by apply list_elem_of_further.
    + intros q. rewrite Hset, map_app. simpl.
      rewrite elem_of_app, elem_of_cons. intros Hq.
      destruct Hq as [Hq|[->|Hq]]; [|done|]; apply Hres; rewrite Hreg, map_app;
        simpl; apply elem_of_app; [by left|right; by apply list_elem_of_further].
  - rewrite (dict_set_fresh _ _ _ Hget).
    split; unfold session_ports, with_registry, Dict.keys; simpl;
      rewrite ?map_app; simpl; [| | |done|done].
    + apply NoDup_app. split_and!; [done| |apply NoDup_singleton].
      intros k Hk Hk'. apply list_elem_of_singleton in Hk' as ->.
      by apply (dict_get_None sid (server_registry w)) in Hget.
    + apply NoDup_app. split_and!; [done| |apply NoDup_singleton].
      intros q Hq Hq'. by apply list_elem_of_singleton in Hq' as ->.
    + intros q. rewrite elem_of_app, list_elem_of_singleton.
      intros [Hq| ->]; [by apply Hres|done].
Qed.

Lemma keeps_launch (env : SessionManager.Launch) (client_ip user_agent : option string) :
  keeps consistent (SessionManager.launch_phoebe_worker env client_ip user_agent).
Proof.
  intros w Hw.
  pose proof (launch_registry_ports env client_ip user_agent w) as Hrun.
  cbv zeta in Hrun.
  set (w' := snd (SessionManager.launch_phoebe_worker env client_ip user_agent w)) in *.
  destruct (PortPool.available_ports (ports w)) as [|p rest] eqn:Hav; [by rewrite Hrun|].
  destruct (consistent_request w p rest (db w') (os w') (clock w') (journal w') Hw Hav)
    as [Hreq Hfree].
  set (requested := PortPool.mk rest ({[p]} ∪ PortPool.reserved_ports (ports w))) in *.
  assert (Hothers : ∀ q, q ∈ session_ports w →
                         q ∈ PortPool.reserved_ports requested ∧ q ≠ p).
  { intros q Hq. split; [|by intros ->].
    simpl. apply elem_of_union. right. by apply Hw. }
  destruct (SessionManager.popen env) as [e|pid].
  - destruct Hrun as [Hr Hp].
    eapply (consistent_frame _ w'); [..|
      apply (consistent_release _ p (server_registry w) (db w') (os w') (clock w')
               (journal w') Hreq)]; try done; apply Hw.
  - destruct (SessionManager.worker_ready env).
    + destruct Hrun as [Hr Hp].
      eapply (consistent_frame _ w'); [..|
        apply (consistent_register _ (SessionManager.uuid4 env)
                 (new_entry (SessionManager.uuid4 env) pid p (clock w)) Hreq)];
        try done; simpl; set_solver.
    + destruct Hrun as [Hr Hp].
      assert (Hone : consistent
                       (mk_world (server_registry w)
                                 (PortPool.release_port p requested)
                                 (db w') (os w') (clock w') (journal w')))
        by (apply (consistent_release _ p _ _ _ _ _ Hreq); try done; apply Hw).
      eapply (consistent_frame _ w'); [..|
        apply (consistent_release _ p (server_registry w) (db w') (os w') (clock w')
                 (journal w') Hone)]; try done; try apply Hw.
      intros q Hq. destruct (Hothers q Hq) as [Hr' Hne]. split; [|done].
      simpl. unfold PortPool.release_port.
      destruct (decide _); simpl; [|done]. set_solver.
Qed.

Lemma keeps_list_sessions : keeps consistent SessionManager.list_sessions.
Proof.
  unfold SessionManager.list_sessions.
  apply keeps_bind; [by apply keeps_pure|]. intros r.
  apply keeps_bind; [by apply keeps_pure|]. intros o.
  apply keeps_bind.
  - apply keeps_for_each. intros sid.
    apply keeps_bind; [apply keeps_shutdown_server|]. intros _. by apply keeps_pure.
  - intros _. apply keeps_bind; [by apply keeps_pure|]. intros r'. by apply keeps_pure.
Qed.

Lemma keeps_cleanup_idle_sessions (config : Config) :
  keeps consistent (SessionManager.cleanup_idle_sessions config).
Proof.
  unfold SessionManager.cleanup_idle_sessions.
  apply keeps_bind; [by apply keeps_pure|]. intros t.
  apply keeps_bind; [by apply keeps_pure|]. intros r.
  apply keeps_bind.
  - apply keeps_for_each. intros e. by apply keeps_frame.
  - intros _. apply keeps_bind; [|intros _; by apply keeps_pure].
    apply keeps_for_each. intros e.
    apply keeps_bind; [apply keeps_shutdown_server|]. intros _. by apply keeps_pure.
Qed.

Lemma keeps_shutdown_all_sessions : keeps consistent SessionManager.shutdown_all_sessions.
Proof.
  unfold SessionManager.shutdown_all_sessions.
  apply keeps_bind; [by apply keeps_pure|]. intros r.
  destruct (Dict.keys r) as [|sid ids].
  - apply keeps_bind; [by apply keeps_frame|]. intros _. by apply keeps_pure.
  - apply keeps_bind; [by apply keeps_frame|]. intros _.
    apply keeps_bind; [|intros _; by apply keeps_pure].
    apply keeps_for_each. intros s. apply keeps_try_except.
    + apply keeps_bind; [apply keeps_shutdown_server|]. intros _. by apply keeps_pure.
    + intros e. by apply keeps_frame.
Qed.

Lemma keeps_send (config : Config) (worker : Z → list (string * json) → Api.Reply * Z)
    (sid : string) (command : list (string * json)) :
  keeps consistent (Api.send config worker sid command).
Proof.
  unfold Api.send.
  apply keeps_bind.
  { apply keeps_pure. intros w. unfold SessionManager.get_server_info.
    rewrite run_bind_gets. by destruct (Dict.get sid (server_registry w)). }
  intros [info|]; [|by apply keeps_pure].
  apply keeps_bind; [apply keeps_update_last_activity|]. intros _.
  apply keeps_bind; [by apply keeps_pure|]. intros t0.
  apply keeps_bind; [by apply keeps_frame|]. intros response.
  apply keeps_bind; [by apply keeps_pure|]. intros t1.
  apply keeps_bind; [by apply keeps_pure|]. intros t2.
  apply keeps_bind.
  { apply keeps_store_only.
    apply (store_only_run_call config (CallCommand sid t2 _ _ _ _)). }
  intros _. apply keeps_bind; [apply keeps_get_current_memory_usage|].
  intros _. by apply keeps_pure.
Qed.

Lemma keeps_sample_all (ids : list string) (memory_data : list (string * Q)) :
  keeps consistent (Handlers.sample_all ids memory_data).
Proof.
  revert memory_data. induction ids as [|sid ids IH]; intros memory_data; simpl.
  - by apply keeps_pure.
  - apply keeps_bind; [apply keeps_get_current_memory_usage|].
    intros [mem|]; apply IH.
Qed.

Lemma consistent_boot (config : Config) (d : Sql.t) (o : OS.t) (now : Z) :
  consistent (boot config d o now).
Proof.
  split; unfold session_ports; simpl.
  - constructor.
  - constructor.
  - intros p Hp. by apply elem_of_nil in Hp.
  - apply NoDup_seqZ.
  - intros p _. apply not_elem_of_empty.
Qed.

Lemma consistent_act (config : Config)
    (worker : Z → list (string * json) → Api.Reply * Z) (w : World) (a : Action) :
  consistent w → consistent (act config worker w a).
Proof.
  intros Hw. destruct a; simpl.
  - by apply keeps_launch.
  - by apply keeps_shutdown_server.
  - revert w Hw. apply keeps_bind; [apply keeps_cleanup_idle_sessions|].
    intros _. apply keeps_list_sessions.
  - by apply keeps_cleanup_idle_sessions.
  - by apply keeps_shutdown_all_sessions.
  - by apply keeps_update_last_activity.
  - by apply keeps_get_current_memory_usage.
  - by apply keeps_update_session_user_info.
  - by apply keeps_send.
  - revert w Hw. apply keeps_bind; [apply keeps_list_sessions|].
    intros sessions. apply keeps_sample_all.
  - by apply (consistent_frame w).
  - by apply (consistent_frame w).
  - by apply (consistent_frame w).
Qed.

Lemma nodup_map_inj {A B} (f : A → B) (l : list A) (x y : A) :
  NoDup (map f l) → x ∈ l → y ∈ l → f x = f y → x = y.
Proof.
  induction l as [|a l IH]; simpl; intros Hnd Hx Hy Hf.
  - by apply elem_of_nil in Hx.
  - apply NoDup_cons in Hnd as [Ha Hnd].
    apply elem_of_cons in Hx as [->|Hx]; apply elem_of_cons in Hy as [->|Hy].
    + done.
    + destruct Ha. rewrite Hf. apply list_elem_of_fmap. by exists y.
    + destruct Ha. rewrite <- Hf. apply list_elem_of_fmap. by exists x.
    + by apply IH.
Qed.

(** X6. Whatever requests the broker serves after [load_port_config],
    in whatever order, and whatever happens around it (workers dying,
    time passing, the store failing), the registry and the port pool
    agree: session ids are distinct, every session's port is reserved
    and not available, and two different sessions never hold the same
    port. *)
Theorem registry_and_pool_stay_consistent (config : Config)
    (worker : Z → list (string * json) → Api.Reply * Z)
    (d : Sql.t) (o : OS.t) (now : Z) (history : list Action) :
  let w := acts config worker (boot config d o now) history in
  consistent w
  ∧ (∀ sid info, Dict.get sid (server_registry w) = Some info →
       port info ∈ PortPool.reserved_ports (ports w)
       ∧ (port info ∉ PortPool.available_ports (ports w)))
  ∧ (∀ sid1 info1 sid2 info2,
       Dict.get sid1 (server_registry w) = Some info1 →
       Dict.get sid2 (server_registry w) = Some info2 →
       port info1 = port info2 → sid1 = sid2).
Proof.
  intros w.
  assert (Hw : consistent w).
  { subst w. unfold acts.
    generalize (consistent_boot config d o now).
    generalize (boot config d o now).
    induction history as [|a history IH]; intros w0 Hw0; simpl; [done|].
    apply IH. by apply consistent_act. }
  split_and!; [done| |].
  - intros sid info Hget.
    assert (Hin : port info ∈ PortPool.reserved_ports (ports w)).
    { apply Hw. unfold session_ports. apply list_elem_of_fmap.
      exists (sid, info). split; [done|by apply dict_get_elem_of]. }
    split; [done|]. intros Hav. by apply (cons_disjoint w Hw (port info)).
  - intros sid1 info1 sid2 info2 H1 H2 Hport.
    assert (Heq : (sid1, info1) = (sid2, info2)).
    { apply (nodup_map_inj (λ entry, port (snd entry)) (server_registry w));
        [apply Hw|by apply dict_get_elem_of|by apply dict_get_elem_of|done]. }
    congruence.
Qed.

(* ===================================================================== *)
(** ** Further properties of ending sessions *)
(* ===================================================================== *)

Lemma dict_get_del_eq {V} (k : string) (d : list (string * V)) :
  NoDup (Dict.keys d) → Dict.get k (Dict.del k d) = None.
Proof.
  intros Hnd. destruct (Dict.get k d) as [v|] eqn:Hget.
  - destruct (dict_get_split k v d Hget) as (d1 & d2 & -> & Hk1 & -> & _).
    apply dict_get_None. unfold Dict.keys in *. rewrite map_app in *. simpl in Hnd.
    apply NoDup_remove_middle in Hnd as [_ Hk]. done.
  - apply dict_get_None. apply dict_get_None in Hget.
    intros Hin. apply Hget. unfold Dict.keys in *.
    clear Hget Hnd. induction d as [|[k0 v0] d IH]; simpl in *; [done|].
    destruct (String.eqb k0 k); [by apply list_elem_of_further|].
    simpl in Hin. apply elem_of_cons in Hin as [->|Hin];
      [apply list_elem_of_here|apply list_elem_of_further; by apply IH].
Qed.

(** X7. After [shutdown_server] on a session of the registry: the
    session is gone and every other entry is as before; its worker is
    not running; its port is not reserved any more and, if it was
    reserved and is not 0, it is the last of the available queue; and on
    a store that can be written the session's row, if there is one, is
    [terminated] with the given reason and the time of the call, its
    other columns unchanged. *)
Theorem shutdown_ends_session (sid reason : string) (info : SessionInfo) (w : World) :
  registry_wf w →
  Dict.get sid (server_registry w) = Some info →
  let w' := snd (SessionManager.shutdown_server sid reason w) in
  Dict.get sid (server_registry w') = None
  ∧ (∀ sid', sid' ≠ sid →
       Dict.get sid' (server_registry w') = Dict.get sid' (server_registry w))
  ∧ (∀ pid, process info = Some pid → pid ∉ OS.running (os w'))
  ∧ (port info ≠ 0 →
       (port info ∉ PortPool.reserved_ports (ports w'))
       ∧ (port info ∈ PortPool.reserved_ports (ports w) →
          last (PortPool.available_ports (ports w')) = Some (port info)))
  ∧ (store_healthy (db w) →
       Sql.sessions (db w') !! sid
       = (λ row, Sql.mk_session (Sql.created_at row) (Some (clock w))
                                (Sql.last_activity row) (Sql.port row)
                                (Sql.client_ip row) (Sql.user_agent row)
                                (Some reason) "terminated")
         <$> (Sql.sessions (db w) !! sid)).
Proof.
  intros Hwf Hget w'. subst w'.
  rewrite (shutdown_server_run sid reason info w Hget).
  unfold after_shutdown. cbn [snd server_registry ports db os].
  split_and!.
  - by apply dict_get_del_eq.
  - intros sid' Hne. by apply dict_get_del_ne.
  - intros pid ->. unfold OS.is_running.
    destruct (bool_decide (pid ∈ OS.running (os w))) eqn:Hrun.
    + simpl. set_solver.
    + by apply bool_decide_eq_false in Hrun.
  - intros Hport. apply Z.eqb_neq in Hport. rewrite Hport. split.
    + unfold PortPool.release_port. destruct (decide _); simpl; [set_solver|done].
    + intros Hin. rewrite (release_reserved _ _ Hin). simpl. apply last_snoc.
  - intros [[path Hpath] Hfault]. unfold Sql.transact. rewrite Hpath, Hfault.
    simpl. apply lookup_alter_eq.
Qed.

Lemma shutdown_ends_session_witness :
  let w' := snd (SessionManager.shutdown_server "s1" "manual" Scenario.two_sessions) in
  Dict.keys (server_registry w') = ["s2"]
  ∧ Dict.get "s1" (server_registry w') = None
  ∧ last (PortPool.available_ports (ports w')) = Some 8000.
Proof.
  intros w'.
  destruct (shutdown_ends_session "s1" "manual"
              (new_entry "s1" 4242 8000 1000) Scenario.two_sessions)
    as (Hgone & _ & _ & Hport & _).
  - apply (bool_decide_unpack _). by vm_compute.
  - reflexivity.
  - split_and!; [reflexivity|exact Hgone|].
    apply Hport; [discriminate|]. by vm_compute.
Defined.

(** X8. The handler of [/end-session] answers 404 for an id that is not
    in the registry and changes nothing; for a session of the registry
    it returns success and ends the session with the reason [manual]. *)
Theorem end_session_handler (sid : string) (w : World) :
  match Dict.get sid (server_registry w) with
  | None =>
      Api.end_session sid w = (inl (HTTPException 404 "Session not found"), w)
  | Some info =>
      Api.end_session sid w = (inr true, after_shutdown sid "manual" info w)
      ∧ Ev.count (Ev.is_destroyed_with sid "manual")
                 (events_of (Api.end_session sid) w) = 1%nat
  end.
Proof.
  unfold Api.end_session, events_of.
  destruct (Dict.get sid (server_registry w)) as [info|] eqn:Hget.
  - rewrite (bind_inr _ _ _ _ _
               (shutdown_server_run sid SessionManager.default_termination_reason
                                    info w Hget)).
    cbn [negb]. rewrite run_ret. split; [done|]. cbn [snd].
    rewrite (events_since_app w _ (Trace.shutdown sid "manual" info w)) by reflexivity.
    rewrite count_destroyed_shutdown. by rewrite !String.eqb_refl.
  - unfold SessionManager.shutdown_server.
    rewrite run_bind_bind, run_bind_gets. by rewrite Hget.
Qed.

(* --------------------------------------------------------------------- *)
(** *** Loops of [shutdown_server] calls *)
(* --------------------------------------------------------------------- *)

Lemma for_each_run {A} (f : World → A → World) (body : A → M unit) (xs : list A)
    (w : World) :
  (∀ x w0, body x w0 = (inr tt, f w0 x)) →
  for_each xs body w = (inr tt, foldl f w xs).
Proof.
  intros Hb. revert w. induction xs as [|x xs IH]; intros w; simpl; [done|].
  rewrite (bind_inr _ _ _ _ _ (Hb x w)). apply IH.
Qed.

Lemma shutdown_step_registry (reason : string) (w : World) (sid : string) :
  server_registry (shutdown_step reason w sid) = Dict.del sid (server_registry w).
Proof.
  unfold shutdown_step.
  destruct (Dict.get sid (server_registry w)) as [info|] eqn:Hget; [done|].
  apply dict_get_None in Hget. unfold Dict.keys in Hget.
  induction (server_registry w) as [|[k v] d IH]; simpl in *; [done|].
  apply not_elem_of_cons in Hget as [Hne Hget].
  destruct (String.eqb k sid) eqn:Hk.
  - apply String.eqb_eq in Hk. congruence.
  - by rewrite <- IH.
Qed.

Lemma shutdown_loop_registry (reason : string) (ds : list string) (w : World) :
  server_registry (foldl (shutdown_step reason) w ds)
  = foldl (λ r s, Dict.del s r) (server_registry w) ds.
Proof.
  revert w. induction ds as [|s ds IH]; intros w; simpl; [done|].
  by rewrite IH, shutdown_step_registry.
Qed.

Lemma dict_del_all_keys {V} (d : list (string * V)) :
  foldl (λ r s, Dict.del s r) d (Dict.keys d) = [].
Proof.
  induction d as [|[k v] d IH]; simpl; [done|]. by rewrite String.eqb_refl.
Qed.

Lemma dict_del_keys_NoDup {V} (k : string) (d : list (string * V)) :
  NoDup (Dict.keys d) → NoDup (Dict.keys (Dict.del k d)).
Proof.
  intros Hnd. destruct (Dict.get k d) as [v|] eqn:Hget.
  - destruct (dict_get_split k v d Hget) as (d1 & d2 & -> & _ & -> & _).
    unfold Dict.keys in *. rewrite map_app in *. simpl in Hnd.
    by apply NoDup_remove_middle in Hnd as [? _].
  - replace (Dict.del k d) with d; [done|].
    apply dict_get_None in Hget. unfold Dict.keys in Hget.
    induction d as [|[k0 v0] d IH]; simpl in *; [done|].
    apply not_elem_of_cons in Hget as [Hne Hget].
    apply NoDup_cons in Hnd as [_ Hnd].
    destruct (String.eqb k0 k) eqn:Hk.
    + apply String.eqb_eq in Hk. congruence.
    + by rewrite <- IH.
Qed.

(** Looking a key up after a run of deletions. *)
Lemma dict_get_del_many {V} (k : string) (ds : list string) (d : list (string * V)) :
  NoDup (Dict.keys d) →
  Dict.get k (foldl (λ r s, Dict.del s r) d ds)
  = if bool_decide (k ∈ ds) then None else Dict.get k d.
Proof.
  revert d. induction ds as [|s ds IH]; intros d Hnd; simpl; [done|].
  rewrite IH by by apply dict_del_keys_NoDup.
  destruct (decide (k = s)) as [->|Hne].
  - rewrite (bool_decide_eq_true_2 (s ∈ s :: ds)) by apply list_elem_of_here.
    rewrite dict_get_del_eq by done. by destruct (bool_decide (s ∈ ds)).
  - rewrite dict_get_del_ne by done.
    destruct (bool_decide (k ∈ ds)) eqn:Hin.
    + apply bool_decide_eq_true in Hin.
      by rewrite bool_decide_eq_true_2 by (by apply list_elem_of_further).
    + apply bool_decide_eq_false in Hin.
      rewrite bool_decide_eq_false_2; [done|].
      intros H. apply elem_of_cons in H as [?|?]; done.
Qed.

Lemma dict_elem_of_get {V} (k : string) (v : V) (d : list (string * V)) :
  NoDup (Dict.keys d) → (k, v) ∈ d → Dict.get k d = Some v.
Proof.
  unfold Dict.keys. induction d as [|[k0 v0] d IH]; simpl; intros Hnd Hin.
  - by apply elem_of_nil in Hin.
  - apply NoDup_cons in Hnd as [Hk Hnd].
    apply elem_of_cons in Hin as [[= -> ->]|Hin]; [by rewrite String.eqb_refl|].
    destruct (String.eqb k0 k) eqn:Heq; [|by apply IH].
    apply String.eqb_eq in Heq. subst k0. destruct Hk.
    apply list_elem_of_fmap. by exists (k, v).
Qed.

(** A loop of [shutdown_server] calls never starts a process and never
    reserves a port. *)
Lemma shutdown_step_shrinks (reason : string) (w : World) (sid : string) :
  OS.running (os (shutdown_step reason w sid)) ⊆ OS.running (os w)
  ∧ PortPool.reserved_ports (ports (shutdown_step reason w sid))
    ⊆ PortPool.reserved_ports (ports w).
Proof.
  unfold shutdown_step.
  destruct (Dict.get sid (server_registry w)) as [info|]; [|done].
  unfold after_shutdown. simpl. split.
  - destruct (process info) as [pid|]; [|done].
    destruct (OS.is_running pid (os w)); [|done]. simpl. set_solver.
  - destruct (port info =? 0); [done|].
    unfold PortPool.release_port. destruct (decide _); [|done]. simpl. set_solver.
Qed.

Lemma shutdown_loop_shrinks (reason : string) (ds : list string) (w : World) :
  OS.running (os (foldl (shutdown_step reason) w ds)) ⊆ OS.running (os w)
  ∧ PortPool.reserved_ports (ports (foldl (shutdown_step reason) w ds))
    ⊆ PortPool.reserved_ports (ports w).
Proof.
  revert w. induction ds as [|s ds IH]; intros w; simpl; [done|].
  destruct (IH (shutdown_step reason w s)) as [H1 H2].
  destruct (shutdown_step_shrinks reason w s) as [H3 H4].
  split; set_solver.
Qed.

(** A session that a loop of [shutdown_server] calls reaches has its
    worker stopped and its port unreserved at the end of the loop. *)
Lemma shutdown_loop_session (reason : string) (ds : list string) (w : World)
    (sid : string) (info : SessionInfo) :
  sid ∈ ds →
  Dict.get sid (server_registry w) = Some info →
  let w' := foldl (shutdown_step reason) w ds in
  (∀ pid, process info = Some pid → pid ∉ OS.running (os w'))
  ∧ (port info ≠ 0 → port info ∉ PortPool.reserved_ports (ports w')).
Proof.
  revert w. induction ds as [|s ds IH]; intros w Hin Hget; simpl.
  - by apply elem_of_nil in Hin.
  - destruct (decide (s = sid)) as [->|Hne].
    + destruct (shutdown_loop_shrinks reason ds (shutdown_step reason w sid))
        as [Hrun Hres].
      unfold shutdown_step in Hrun, Hres |- *. rewrite Hget in *.
      unfold after_shutdown in Hrun, Hres. simpl in Hrun, Hres. split.
      * intros pid Hproc Hin'. apply Hrun in Hin'. rewrite Hproc in Hin'.
        unfold OS.is_running in Hin'.
        destruct (bool_decide (pid ∈ OS.running (os w))) eqn:Hr.
        -- simpl in Hin'. set_solver.
        -- by apply bool_decide_eq_false in Hr.
      * intros Hport Hin'. apply Hres in Hin'. apply Z.eqb_neq in Hport.
        rewrite Hport in Hin'. unfold PortPool.release_port in Hin'.
        destruct (decide _); simpl in Hin'; [set_solver|done].
    + apply IH.
      * apply elem_of_cons in Hin as [?|?]; [congruence|done].
      * rewrite shutdown_step_registry. by rewrite dict_get_del_ne.
Qed.

Lemma shutdown_guarded_body_run (sid reason : string) (h : Exn → M unit) (w : World) :
  try_except (bind (SessionManager.shutdown_server sid reason) (λ _, ret tt)) h w
  = (inr tt, shutdown_step reason w sid).
Proof. unfold try_except. by rewrite shutdown_body_run. Qed.

(** The counts of a loop of [shutdown_server] calls, on the state the
    loop leaves. *)
Lemma shutdown_loop_count (reason : string) (ds : list string) (w : World) :
  NoDup ds →
  (∀ s, s ∈ ds → is_Some (Dict.get s (server_registry w))) →
  ∃ evs,
    journal (foldl (shutdown_step reason) w ds) = (journal w ++ evs)%list
    ∧ ∀ (P : Event → bool) (c : string → nat),
        (∀ s info w0, Ev.count P (Trace.shutdown s reason info w0) = c s) →
        Ev.count P evs = sum_list (map c ds).
Proof.
  intros Hnd Hin.
  destruct (for_each_shutdown_count reason ds w Hnd Hin) as (w' & evs & Hrun & Hj & Hc).
  rewrite (for_each_run (shutdown_step reason)) in Hrun
    by (intros; apply shutdown_body_run).
  injection Hrun as <-. by exists evs.
Qed.

(** What [shutdown_all_sessions] does. *)
Lemma shutdown_all_sessions_run (w : World) :
  ∃ note,
    SessionManager.shutdown_all_sessions w
    = (inr (Z.of_nat (length (server_registry w))),
       foldl (shutdown_step "server_shutdown")
             (mk_world (server_registry w) (ports w) (db w) (os w) (clock w)
                       (journal w ++ [EvLog INFO note]))
             (Dict.keys (server_registry w))).
Proof.
  unfold SessionManager.shutdown_all_sessions. rewrite run_bind_gets.
  destruct (server_registry w) as [|[k v] d] eqn:Hreg.
  - eexists. simpl. unfold logger, emit. rewrite run_bind_modify, run_ret.
    by rewrite Hreg.
  - eexists. cbn [Dict.keys map fst].
    unfold logger, emit. rewrite run_bind_modify.
    erewrite bind_inr; [|apply (for_each_run (shutdown_step "server_shutdown"));
                         intros; apply shutdown_guarded_body_run].
    rewrite run_ret, Hreg. simpl. by rewrite length_map.
Qed.

(** X9. [shutdown_all_sessions] returns the number of sessions it found
    and leaves the registry empty; for every session that was in the
    registry it sends exactly one [destroyed] update, with the reason
    [server_shutdown], its worker is not running afterwards and its port
    (when not 0) is not reserved any more. *)
Theorem shutdown_all_ends_every_session (w : World) :
  registry_wf w →
  let r := SessionManager.shutdown_all_sessions w in
  let w' := snd r in
  fst r = inr (Z.of_nat (length (server_registry w)))
  ∧ server_registry w' = []
  ∧ ∀ sid info, Dict.get sid (server_registry w) = Some info →
      Ev.count (Ev.is_destroyed_with sid "server_shutdown") (events_since w w') = 1%nat
      ∧ (∀ pid, process info = Some pid → pid ∉ OS.running (os w'))
      ∧ (port info ≠ 0 → port info ∉ PortPool.reserved_ports (ports w')).
Proof.
  intros Hwf r w'. subst r w'.
  destruct (shutdown_all_sessions_run w) as [note Hrun]. rewrite Hrun.
  cbn [fst snd].
  set (w1 := mk_world (server_registry w) (ports w) (db w) (os w) (clock w)
                      (journal w ++ [EvLog INFO note])).
  split_and!; [done| |].
  - rewrite shutdown_loop_registry. apply dict_del_all_keys.
  - intros sid info Hget.
    assert (Hin : sid ∈ Dict.keys (server_registry w)).
    { unfold Dict.keys. apply list_elem_of_fmap. exists (sid, info).
      split; [done|by apply dict_get_elem_of]. }
    destruct (shutdown_loop_session "server_shutdown" (Dict.keys (server_registry w))
                w1 sid info Hin Hget) as [Hproc Hport].
    split_and!; [|done|done].
    destruct (shutdown_loop_count "server_shutdown" (Dict.keys (server_registry w)) w1 Hwf)
      as (evs & Hj & Hc).
    { intros s Hs. by apply dict_get_key. }
    rewrite (events_since_app w _ ([EvLog INFO note] ++ evs)%list)
      by (rewrite Hj; simpl; by rewrite <- app_assoc).
    rewrite count_app.
    rewrite (Hc _ (λ s, if String.eqb s sid then 1%nat else 0%nat)).
    + by rewrite sum_indicator.
    + intros s i w0. rewrite count_destroyed_shutdown.
      rewrite String.eqb_refl. by destruct (String.eqb s sid).
Qed.

Lemma shutdown_all_ends_every_session_witness :
  let r := SessionManager.shutdown_all_sessions Scenario.two_sessions in
  fst r = inr 2
  ∧ server_registry (snd r) = []
  ∧ Ev.count (Ev.is_destroyed_with "s2" "server_shutdown")
             (events_since Scenario.two_sessions (snd r)) = 1%nat.
Proof.
  intros r.
  destruct (shutdown_all_ends_every_session Scenario.two_sessions)
    as (Hcount & Hempty & Hsessions).
  - apply (bool_decide_unpack _). by vm_compute.
  - split_and!; [exact Hcount|exact Hempty|].
    apply (Hsessions "s2" (new_entry "s2" 4343 8001 1000)). reflexivity.
Defined.

(* --------------------------------------------------------------------- *)
(** *** Scans of the registry *)
(* --------------------------------------------------------------------- *)

(** The ids a scan of the registry selects. *)
Lemma selected_ids (pred : string * SessionInfo → bool)
    (reg : list (string * SessionInfo)) :
  NoDup (Dict.keys reg) →
  NoDup (map fst (List.filter pred reg))
  ∧ (∀ s, s ∈ map fst (List.filter pred reg) → is_Some (Dict.get s reg))
  ∧ (∀ sid info, Dict.get sid reg = Some info →
       (sid ∈ map fst (List.filter pred reg) ↔ pred (sid, info) = true)).
Proof.
  intros Hnd. split_and!.
  - revert Hnd. unfold Dict.keys.
    induction reg as [|[k v] r IH]; simpl; [constructor|].
    intros Hnd. apply NoDup_cons in Hnd as [Hk Hnd].
    destruct (pred (k, v)); [|by apply IH].
    simpl. apply NoDup_cons. split; [|by apply IH].
    intros Hin. apply Hk.
    apply list_elem_of_fmap in Hin as ([k' v'] & -> & Hin).
    apply list_elem_of_In, filter_In in Hin as [Hin _].
    apply list_elem_of_fmap. exists (k', v'). split; [done|by apply list_elem_of_In].
  - intros s Hin.
    apply list_elem_of_fmap in Hin as ([k v] & -> & Hin).
    apply list_elem_of_In, filter_In in Hin as [Hin _].
    apply dict_get_key. unfold Dict.keys.
    apply list_elem_of_fmap. exists (k, v). split; [done|by apply list_elem_of_In].
  - intros sid info Hget. split.
    + intros Hin. apply list_elem_of_fmap in Hin as ([k v] & Hk & Hin).
      simpl in Hk. subst k.
      apply list_elem_of_In, filter_In in Hin as [Hin Hp].
      apply list_elem_of_In in Hin.
      apply (dict_elem_of_get _ _ _ Hnd) in Hin. congruence.
    + intros Hp. apply list_elem_of_fmap. exists (sid, info). split; [done|].
      apply list_elem_of_In, filter_In. split; [|done].
      apply list_elem_of_In. by apply dict_get_elem_of.
Qed.

Lemma sum_indicator_absent (sid : string) (ds : list string) :
  sid ∉ ds →
  sum_list (map (λ s, if String.eqb s sid then 1%nat else 0%nat) ds) = 0%nat.
Proof.
  induction ds as [|s ds IH]; intros Hout; [done|]. simpl.
  apply not_elem_of_cons in Hout as [Hne Hout].
  apply String.eqb_neq in Hne. rewrite String.eqb_sym in Hne. rewrite Hne.
  by apply IH.
Qed.

Lemma count_any_destroyed_shutdown (sid sid' reason : string)
    (info : SessionInfo) (w : World) :
  Ev.count (Ev.is_destroyed sid) (Trace.shutdown sid' reason info w)
  = if String.eqb sid' sid then 1%nat else 0%nat.
Proof.
  unfold Trace.shutdown, Trace.teardown, Trace.release, Trace.destroyed, Ev.count.
  destruct (process info) as [pid|];
    [destruct (OS.is_running pid (os w));
     [destruct (bool_decide (pid ∈ OS.stubborn (os w)))|]|];
    destruct (port info =? 0);
    destruct (Sql.transact _ _) as [e|d'];
    cbn; by destruct (String.eqb sid' sid).
Qed.

(** What a loop of [shutdown_server] calls over the ids of a scan does
    to one session of the registry. *)
Lemma shutdown_scan (pred : string * SessionInfo → bool) (reason : string)
    (w0 w : World) (sid : string) (info : SessionInfo) :
  server_registry w = server_registry w0 →
  NoDup (Dict.keys (server_registry w0)) →
  Dict.get sid (server_registry w0) = Some info →
  let ids := map fst (List.filter pred (server_registry w0)) in
  let w' := foldl (shutdown_step reason) w ids in
  ∃ evs, journal w' = (journal w ++ evs)%list
         ∧ if pred (sid, info)
           then Dict.get sid (server_registry w') = None
                ∧ Ev.count (Ev.is_destroyed_with sid reason) evs = 1%nat
           else Dict.get sid (server_registry w') = Some info
                ∧ Ev.count (Ev.is_destroyed sid) evs = 0%nat.
Proof.
  intros Hreg Hnd Hget ids w'. subst w'.
  destruct (selected_ids pred (server_registry w0) Hnd) as (Hids & Hknown & Hsel).
  fold ids in Hids, Hknown, Hsel.
  destruct (shutdown_loop_count reason ids w Hids) as (evs & Hj & Hc).
  { intros s Hs. rewrite Hreg. by apply Hknown. }
  exists evs. split; [done|].
  rewrite shutdown_loop_registry, Hreg, dict_get_del_many by done.
  specialize (Hsel sid info Hget).
  destruct (pred (sid, info)).
  - rewrite bool_decide_eq_true_2 by by apply Hsel. split; [done|].
    rewrite (Hc _ (λ s, if String.eqb s sid then 1%nat else 0%nat)).
    + apply sum_indicator; [done|by apply Hsel].
    + intros s i w1. rewrite count_destroyed_shutdown.
      rewrite String.eqb_refl. by destruct (String.eqb s sid).
  - assert (Hout : sid ∉ ids) by (intros Hin; by apply Hsel in Hin).
    rewrite bool_decide_eq_false_2 by done. split; [done|].
    rewrite (Hc _ (λ s, if String.eqb s sid then 1%nat else 0%nat)).
    + by apply sum_indicator_absent.
    + intros s i w1. apply count_any_destroyed_shutdown.
Qed.

Lemma idle_sessions_ids (config : Config) (r : list (string * SessionInfo)) (now : Z) :
  map fst (SessionManager.idle_sessions config r now)
  = map fst (List.filter
               (λ entry, idle_timeout_seconds config <? now - last_activity (snd entry)) r).
Proof.
  unfold SessionManager.idle_sessions.
  induction r as [|[k v] r IH]; simpl; [done|].
  destruct (idle_timeout_seconds config <? now - last_activity v); simpl;
    [f_equal|]; exact IH.
Qed.

(** Settle the condition of a hypothesis of the form [if c then _ else _]
    by evaluation. *)
Ltac settle_if H b :=
  lazymatch type of H with
  | (if ?c then _ else _) =>
      let C := fresh "C" in
      assert (C : c = b) by (vm_compute; reflexivity);
      rewrite C in H; clear C
  end.

Lemma foldl_map_arg {A B C} (f : A → C → A) (g : B → C) (a : A) (l : list B) :
  foldl f a (map g l) = foldl (λ x e, f x (g e)) a l.
Proof. revert a. induction l as [|e l IH]; intros a; simpl; [done|]. apply IH. Qed.

(** What [cleanup_idle_sessions] does: the log lines of the scan, then
    the loop of [shutdown_server] calls. *)
Lemma cleanup_idle_sessions_run (config : Config) (w : World) :
  let idle := SessionManager.idle_sessions config (server_registry w) (clock w) in
  ∃ w1 notes,
    SessionManager.cleanup_idle_sessions config w
    = (inr (Z.of_nat (length idle)),
       foldl (shutdown_step "idle_timeout") w1 (map fst idle))
    ∧ server_registry w1 = server_registry w
    ∧ journal w1 = (journal w ++ notes)%list
    ∧ Ev.count Ev.is_store notes = 0%nat.
Proof.
  intros idle.
  unfold SessionManager.cleanup_idle_sessions, time_time.
  rewrite !run_bind_gets. fold idle.
  set (note := λ (w0 : World) (e : string * Z),
         mk_world (server_registry w0) (ports w0) (db w0) (os w0) (clock w0)
                  (journal w0 ++ [EvLog INFO ("Session " ++ fst e ++ " idle for "
                                              ++ PyStr.of_int (snd e)
                                              ++ "s, shutting down")])).
  exists (foldl note w idle).
  assert (Hnotes : ∀ l w0, ∃ notes,
             server_registry (foldl note w0 l) = server_registry w0
             ∧ journal (foldl note w0 l) = (journal w0 ++ notes)%list
             ∧ Ev.count Ev.is_store notes = 0%nat).
  { induction l as [|e l IH]; intros w0; simpl.
    - exists []. by rewrite app_nil_r.
    - destruct (IH (note w0 e)) as (notes & Hr & Hj & Hc).
      eexists (_ :: notes). rewrite Hr, Hj. simpl.
      split_and!; [done|by rewrite <- app_assoc|done]. }
  destruct (Hnotes idle w) as (notes & Hr & Hj & Hc).
  exists notes. split_and!; [|done|done|done].
  assert (Hlog : ∀ e w0,
             logger INFO ("Session " ++ fst e ++ " idle for " ++ PyStr.of_int (snd e)
                          ++ "s, shutting down") w0
             = (inr tt, note w0 e)) by (intros; reflexivity).
  rewrite (bind_inr _ _ _ _ _ (for_each_run note _ idle w Hlog)).
  assert (Hend : ∀ (e : string * Z) w0,
             bind (SessionManager.shutdown_server (fst e) "idle_timeout")
                  (λ _, ret tt) w0
             = (inr tt, shutdown_step "idle_timeout" w0 (fst e)))
    by (intros; apply shutdown_body_run).
  rewrite (bind_inr _ _ _ _ _
             (for_each_run (λ w0 (e : string * Z),
                              shutdown_step "idle_timeout" w0 (fst e)) _ idle
                           (foldl note w idle) Hend)).
  rewrite run_ret. by rewrite foldl_map_arg.
Qed.

(** X10. [cleanup_idle_sessions] ends exactly the sessions idle for
    longer than the timeout: such a session leaves the registry and gets
    one [destroyed] update with the reason [idle_timeout]; a session
    idle for the timeout or less (the comparison is strict) keeps its
    entry unchanged and gets no [destroyed] update. The call returns the
    number of sessions it ended. *)
Theorem cleanup_idle_ends_idle_sessions (config : Config) (w : World) :
  registry_wf w →
  let r := SessionManager.cleanup_idle_sessions config w in
  let w' := snd r in
  fst r = inr (Z.of_nat (length (List.filter
                                   (λ entry, idle_timeout_seconds config
                                             <? clock w - last_activity (snd entry))
                                   (server_registry w))))
  ∧ ∀ sid info, Dict.get sid (server_registry w) = Some info →
      if idle_timeout_seconds config <? clock w - last_activity info
      then Dict.get sid (server_registry w') = None
           ∧ Ev.count (Ev.is_destroyed_with sid "idle_timeout") (events_since w w')
             = 1%nat
      else Dict.get sid (server_registry w') = Some info
           ∧ Ev.count (Ev.is_destroyed sid) (events_since w w') = 0%nat.
Proof.
  intros Hwf r w'. subst r w'.
  destruct (cleanup_idle_sessions_run config w) as (w1 & notes & Hrun & Hr & Hj & Hn).
  rewrite Hrun. cbn [fst snd]. split.
  - f_equal. f_equal.
    rewrite <- (length_map fst), idle_sessions_ids. by rewrite length_map.
  - intros sid info Hget. rewrite idle_sessions_ids.
    destruct (shutdown_scan
                (λ entry, idle_timeout_seconds config <? clock w - last_activity (snd entry))
                "idle_timeout" w w1 sid info Hr Hwf Hget) as (evs & Hj' & Hcase).
    cbv zeta in Hj', Hcase. simpl in Hcase.
    rewrite (events_since_app w _ (notes ++ evs)%list)
      by (rewrite Hj', Hj; by rewrite <- app_assoc).
    rewrite !count_app.
    assert (Hquiet : ∀ P, (∀ ev, P ev = true → Ev.is_store ev = true) →
                          Ev.count P notes = 0%nat).
    { intros P HP. unfold Ev.count in *.
      clear -Hn HP. induction notes as [|ev notes IH]; simpl in *; [done|].
      destruct (Ev.is_store ev) eqn:Hs; [done|].
      destruct (P ev) eqn:Hp; [apply HP in Hp; congruence|]. by apply IH. }
    destruct (idle_timeout_seconds config <? clock w - last_activity info).
    + destruct Hcase as [Hgone Hc]. split; [done|].
      rewrite Hc, Hquiet; [done|]. by intros [] ?.
    + destruct Hcase as [Hkept Hc]. split; [done|].
      rewrite Hc, Hquiet; [done|]. by intros [] ?.
Qed.

Lemma cleanup_idle_ends_idle_sessions_witness :
  let later := acts Scenario.config Scenario.worker Scenario.two_sessions
                    [WorldTimePasses 3000; DoTouch "s2"; WorldTimePasses 601] in
  let w' := snd (SessionManager.cleanup_idle_sessions Scenario.config later) in
  Dict.get "s1" (server_registry w') = None
  ∧ Dict.get "s2" (server_registry w')
    = Some (with_last_activity 4000 (new_entry "s2" 4343 8001 1000)).
Proof.
  intros later w'.
  destruct (cleanup_idle_ends_idle_sessions Scenario.config later) as (_ & Hsessions).
  - apply (bool_decide_unpack _). by vm_compute.
  - assert (H1 : Dict.get "s1" (server_registry later)
                 = Some (new_entry "s1" 4242 8000 1000)) by (by vm_compute).
    assert (H2 : Dict.get "s2" (server_registry later)
                 = Some (with_last_activity 4000 (new_entry "s2" 4343 8001 1000)))
      by (by vm_compute).
    pose proof (Hsessions _ _ H1) as Hidle.
    pose proof (Hsessions _ _ H2) as Hfresh.
    assert (C1 : (idle_timeout_seconds Scenario.config
                  <? clock later - last_activity (new_entry "s1" 4242 8000 1000)) = true)
      by (by vm_compute).
    assert (C2 : (idle_timeout_seconds Scenario.config
                  <? clock later
                     - last_activity (with_last_activity 4000
                                        (new_entry "s2" 4343 8001 1000))) = false)
      by (by vm_compute).
    rewrite C1 in Hidle. rewrite C2 in Hfresh.
    split; [apply Hidle|apply Hfresh].
Defined.

(** What [list_sessions] does. *)
Lemma list_sessions_run (w : World) :
  let w' := foldl (shutdown_step SessionManager.default_termination_reason) w
                  (SessionManager.dead_sessions (server_registry w) (os w)) in
  SessionManager.list_sessions w
  = (inr (map (λ sid, (sid, without_process <$> Dict.get sid (server_registry w')))
              (Dict.keys (server_registry w'))),
     w').
Proof.
  intros w'. unfold SessionManager.list_sessions. rewrite !run_bind_gets.
  rewrite (bind_inr _ _ _ _ _
             (for_each_run (shutdown_step SessionManager.default_termination_reason)
                _ _ w (λ s w0, shutdown_body_run s _ w0))).
  by rewrite run_bind_gets.
Qed.

Lemma dict_get_tabulate {V} (f : string → V) (ks : list string) (k : string) :
  Dict.get k (map (λ s, (s, f s)) ks)
  = if bool_decide (k ∈ ks) then Some (f k) else None.
Proof.
  induction ks as [|s ks IH]; simpl; [done|].
  destruct (String.eqb s k) eqn:Hk.
  - apply String.eqb_eq in Hk. subst s.
    by rewrite bool_decide_eq_true_2 by apply list_elem_of_here.
  - rewrite IH. apply String.eqb_neq in Hk.
    destruct (bool_decide (k ∈ ks)) eqn:Hin.
    + apply bool_decide_eq_true in Hin.
      by rewrite bool_decide_eq_true_2 by (by apply list_elem_of_further).
    + apply bool_decide_eq_false in Hin.
      rewrite bool_decide_eq_false_2; [done|].
      intros H. apply elem_of_cons in H as [?|?]; [congruence|done].
Qed.

(** X11. [list_sessions] returns one snapshot per session left in the
    registry, in registry order and without the process handle. A
    session whose worker is reported not running is dropped from the
    registry and from the listing; every other session keeps its entry
    and is listed with it. *)
Theorem list_sessions_lists_live_sessions (w : World) :
  registry_wf w →
  let r := SessionManager.list_sessions w in
  let w' := snd r in
  ∃ listing,
    fst r = inr listing
    ∧ Dict.keys listing = Dict.keys (server_registry w')
    ∧ (∀ sid snapshot, Dict.get sid listing = Some snapshot →
         ∃ info, Dict.get sid (server_registry w') = Some info
                 ∧ snapshot = Some (without_process info)
                 ∧ process (without_process info) = None)
    ∧ (∀ sid info, Dict.get sid (server_registry w) = Some info →
         if match process info with
            | Some pid => negb (OS.is_running pid (os w))
            | None => false
            end
         then Dict.get sid (server_registry w') = None
              ∧ Dict.get sid listing = None
         else Dict.get sid (server_registry w') = Some info
              ∧ Dict.get sid listing = Some (Some (without_process info))).
Proof.
  intros Hwf r w'. subst r w'. rewrite list_sessions_run. cbn [fst snd].
  unfold SessionManager.dead_sessions.
  set (w' := foldl _ w _).
  eexists. split; [reflexivity|]. split_and!.
  - unfold Dict.keys. rewrite map_map. simpl. by rewrite map_id.
  - intros sid snapshot. rewrite dict_get_tabulate.
    destruct (bool_decide (sid ∈ Dict.keys (server_registry w'))) eqn:Hin; [|done].
    apply bool_decide_eq_true in Hin. intros [= <-].
    destruct (dict_get_key _ _ Hin) as [info Hget].
    exists info. by rewrite Hget.
  - intros sid info Hget.
    destruct (shutdown_scan
                (λ entry, match process (snd entry) with
                          | Some pid => negb (OS.is_running pid (os w))
                          | None => false
                          end)
                SessionManager.default_termination_reason w w sid info eq_refl Hwf Hget)
      as (evs & _ & Hcase).
    cbv zeta in Hcase. cbn [snd] in Hcase. fold w' in Hcase.
    rewrite dict_get_tabulate.
    destruct (match process info with
              | Some pid => negb (OS.is_running pid (os w))
              | None => false
              end).
    + destruct Hcase as [Hgone _]. split; [done|].
      rewrite bool_decide_eq_false_2; [done|]. by apply dict_get_None.
    + destruct Hcase as [Hkept _]. split; [done|].
      rewrite bool_decide_eq_true_2, Hkept; [done|].
      unfold Dict.keys. apply list_elem_of_fmap. exists (sid, info).
      split; [done|by apply dict_get_elem_of].
Qed.

Lemma list_sessions_lists_live_sessions_witness :
  let w := Scenario.killed 4242 Scenario.two_sessions in
  Dict.get "s1" (server_registry (snd (SessionManager.list_sessions w))) = None
  ∧ Dict.get "s2" (server_registry (snd (SessionManager.list_sessions w)))
    = Some (new_entry "s2" 4343 8001 1000).
Proof.
  intros w.
  destruct (list_sessions_lists_live_sessions w) as (listing & _ & _ & _ & Hcases).
  - apply (bool_decide_unpack _). by vm_compute.
  - assert (H1 : Dict.get "s1" (server_registry w)
                 = Some (new_entry "s1" 4242 8000 1000)) by (by vm_compute).
    assert (H2 : Dict.get "s2" (server_registry w)
                 = Some (new_entry "s2" 4343 8001 1000)) by (by vm_compute).
    pose proof (Hcases _ _ H1) as Hdead.
    pose proof (Hcases _ _ H2) as Hlive.
    settle_if Hdead true. settle_if Hlive false.
    split; [apply Hdead|apply Hlive].
Defined.

(* ===================================================================== *)
(** ** Further properties of the registry updates *)
(* ===================================================================== *)

Lemma guarded_write_effect (s : Sql.stmt) (after : M unit) (what : string) (w : World) :
  (after = ret tt ∨ ∃ level msg, after = logger level msg) →
  let r := Database.guarded_write s after what w in
  fst r = inr tt
  ∧ server_registry (snd r) = server_registry w
  ∧ ports (snd r) = ports w
  ∧ os (snd r) = os w
  ∧ clock (snd r) = clock w
  ∧ db (snd r) = written s (db w).
Proof.
  intros Hafter r. subst r. rewrite guarded_write_run. unfold written.
  destruct (Sql.transact s (db w)) as [e|d]; [done|].
  destruct Hafter as [->|(level & msg & ->)]; done.
Qed.

Lemma update_last_activity_effect (sid : string) (info : SessionInfo) (w : World) :
  Dict.get sid (server_registry w) = Some info →
  let r := SessionManager.update_last_activity sid w in
  fst r = inr tt
  ∧ server_registry (snd r)
    = Dict.set sid (with_last_activity (clock w) info) (server_registry w)
  ∧ ports (snd r) = ports w
  ∧ os (snd r) = os w
  ∧ clock (snd r) = clock w
  ∧ db (snd r) = written (Sql.UpdateActivity sid (clock w)) (db w).
Proof.
  intros Hget r. subst r. rewrite update_last_activity_run, Hget.
  apply (guarded_write_effect (Sql.UpdateActivity sid (clock w)) (ret tt)). by left.
Qed.

Lemma execute_keeps_condition (s : Sql.stmt) (d d' : Sql.t) :
  Sql.execute s d = inr d' →
  Sql.db_path d' = Sql.db_path d ∧ Sql.io_fault d' = Sql.io_fault d.
Proof. destruct s; simpl; intros H; repeat case_match; by simplify_eq. Qed.

Lemma healthy_written (s : Sql.stmt) (d : Sql.t) :
  store_healthy d → store_healthy (written s d).
Proof.
  intros [[path Hpath] Hfault]. unfold written, Sql.transact.
  rewrite Hpath, Hfault.
  destruct (Sql.execute s d) as [e|d'] eqn:Hexec; [split; by eauto|].
  destruct (execute_keeps_condition s d d' Hexec) as [Hp Hf].
  split; [rewrite Hp; by eauto|by rewrite Hf].
Qed.

(** X12. [update_last_activity] on an id that is not in the registry
    changes nothing. On a session of the registry it stamps the entry
    with the current time and leaves the rest of the entry, every other
    session and the order of the registry as they were; on a store that
    can be written the session's row, if there is one, gets the same
    time in [last_activity] and keeps its other columns. *)
Theorem touch_updates_one_timestamp (sid : string) (w : World) :
  let r := SessionManager.update_last_activity sid w in
  let w' := snd r in
  match Dict.get sid (server_registry w) with
  | None => r = (inr tt, w)
  | Some info =>
      fst r = inr tt
      ∧ Dict.get sid (server_registry w') = Some (with_last_activity (clock w) info)
      ∧ (∀ other, other ≠ sid →
           Dict.get other (server_registry w') = Dict.get other (server_registry w))
      ∧ Dict.keys (server_registry w') = Dict.keys (server_registry w)
      ∧ (store_healthy (db w) →
           Sql.sessions (db w') !! sid
           = (λ row, Sql.mk_session (Sql.created_at row) (Sql.destroyed_at row)
                                    (clock w) (Sql.port row) (Sql.client_ip row)
                                    (Sql.user_agent row) (Sql.termination_reason row)
                                    (Sql.status row))
             <$> (Sql.sessions (db w) !! sid))
  end.
Proof.
  intros r w'. subst r w'.
  destruct (Dict.get sid (server_registry w)) as [info|] eqn:Hget.
  - destruct (update_last_activity_effect sid info w Hget)
      as (Hret & Hreg & _ & _ & _ & Hdb).
    rewrite Hreg, Hdb. split_and!; [done| | | |].
    + by rewrite dict_get_set, String.eqb_refl.
    + intros other Hne. rewrite dict_get_set.
      destruct (String.eqb sid other) eqn:Heq; [|done].
      apply String.eqb_eq in Heq. congruence.
    + rewrite dict_keys_set. unfold Dict.mem. by rewrite Hget.
    + intros [[path Hpath] Hfault]. unfold written, Sql.transact.
      rewrite Hpath, Hfault. simpl. apply lookup_alter_eq.
  - by rewrite update_last_activity_run, Hget.
Qed.

(** X13. [get_current_memory_usage] returns [None] and changes nothing
    when the id is not in the registry or the worker process is gone.
    For a session whose worker runs it returns the resident set size in
    MiB, stores it in the entry together with the current time as last
    activity, and, on a store that can be written, appends exactly one
    metric row with that value. *)
Theorem memory_sample (sid : string) (w : World) :
  let r := SessionManager.get_current_memory_usage sid w in
  let w' := snd r in
  match Dict.get sid (server_registry w) with
  | None => r = (inr None, w)
  | Some info =>
      match process info with
      | None => r = (inr None, w)
      | Some pid =>
          match OS.memory_rss pid (os w) with
          | None => OS.is_running pid (os w) = false ∧ r = (inr None, w)
          | Some rss =>
              let mem := (inject_Z rss / inject_Z (1024 * 1024))%Q in
              fst r = inr (Some mem)
              ∧ Dict.get sid (server_registry w')
                = Some (with_last_activity (clock w) (with_mem_used mem info))
              ∧ Dict.keys (server_registry w') = Dict.keys (server_registry w)
              ∧ (store_healthy (db w) →
                   Sql.session_metrics (db w')
                   = (Sql.session_metrics (db w)
                      ++ [Sql.mk_metric sid (clock w) mem])%list)
          end
      end
  end.
Proof.
  intros r w'. subst r w'. rewrite get_current_memory_usage_run.
  destruct (Dict.get sid (server_registry w)) as [info|] eqn:Hget; [|done].
  destruct (process info) as [pid|]; [|done].
  unfold OS.memory_rss.
  destruct (OS.is_running pid (os w)); [|done].
  set (mem := (inject_Z _ / inject_Z _)%Q). cbv zeta.
  set (w1 := with_registry (Dict.set sid (with_mem_used mem info) (server_registry w)) w).
  assert (Hget1 : Dict.get sid (server_registry w1) = Some (with_mem_used mem info))
    by (subst w1; simpl; by rewrite dict_get_set, String.eqb_refl).
  destruct (update_last_activity_effect sid _ w1 Hget1)
    as (Hret & Hreg & _ & _ & Hclock & Hdb).
  destruct (SessionManager.update_last_activity sid w1) as [res w2] eqn:Hrun.
  simpl in Hret, Hreg, Hclock, Hdb. subst res.
  destruct (guarded_write_effect (Sql.InsertMetric sid (clock w) mem) (ret tt)
              "Failed to log session metric" w2 (or_introl eq_refl))
    as (Hret3 & Hreg3 & _ & _ & _ & Hdb3).
  destruct (Database.guarded_write _ _ _ w2) as [res w3] eqn:Hrun3.
  simpl in Hret3, Hreg3, Hdb3. subst res.
  rewrite (bind_inr _ _ _ _ _ Hrun). unfold Database.log_session_metric.
  rewrite (bind_inr _ _ _ _ _ Hrun3), run_ret. cbn [fst snd].
  rewrite Hreg3, Hreg, Hdb3, Hdb. subst w1. cbn [server_registry clock db with_registry].
  split_and!; [done| | |].
  - by rewrite dict_get_set, String.eqb_refl.
  - rewrite !dict_keys_set. unfold Dict.mem.
    rewrite dict_get_set, String.eqb_refl, Hget. done.
  - intros Hhealthy.
    pose proof (healthy_written (Sql.UpdateActivity sid (clock w)) (db w) Hhealthy)
      as [[path Hpath] Hfault].
    unfold written at 1. unfold Sql.transact at 1. rewrite Hpath, Hfault. simpl.
    f_equal. destruct Hhealthy as [[path0 Hpath0] Hfault0].
    unfold written, Sql.transact. by rewrite Hpath0, Hfault0.
Qed.

(** X14. The handler of [/session-memory/{id}] answers 404 "Session not
    found" not only for an unknown id but also for a session that is
    still in the registry when its worker process is gone; the registry
    is not changed by that request. *)
Theorem session_memory_404_for_dead_worker (sid : string) (info : SessionInfo)
    (pid : Z) (w : World) :
  Dict.get sid (server_registry w) = Some info →
  process info = Some pid →
  OS.is_running pid (os w) = false →
  Handlers.session_memory sid w = (inl (HTTPException 404 "Session not found"), w)
  ∧ Dict.get sid (server_registry (snd (Handlers.session_memory sid w))) = Some info.
Proof.
  intros Hget Hproc Hrun.
  assert (Hmem : SessionManager.get_current_memory_usage sid w = (inr None, w)).
  { rewrite get_current_memory_usage_run, Hget, Hproc.
    unfold OS.memory_rss. by rewrite Hrun. }
  unfold Handlers.session_memory.
  rewrite (bind_inr _ _ _ _ _ Hmem). by split.
Qed.

Lemma session_memory_404_for_dead_worker_witness :
  let w := Scenario.killed 4242 Scenario.one_session in
  Handlers.session_memory "s1" w = (inl (HTTPException 404 "Session not found"), w).
Proof.
  intros w.
  apply (session_memory_404_for_dead_worker "s1" (new_entry "s1" 4242 8000 1000) 4242 w);
    by vm_compute.
Defined.

(** X15. [update_session_user_info] returns [False] and changes nothing
    for an id that is not in the registry. For a session of the registry
    it returns [True]; the entry then carries the two names, the e-mail
    address and the display name "first last", with the current time as
    last activity and its process, port and creation time untouched; on
    a store that can be written the [session_user_info] row of the
    session is the one just given, whatever was stored before. *)
Theorem user_info_update (sid first_name last_name email : string) (w : World) :
  let r := SessionManager.update_session_user_info sid first_name last_name email w in
  let w' := snd r in
  match Dict.get sid (server_registry w) with
  | None => r = (inr false, w)
  | Some info =>
      fst r = inr true
      ∧ Dict.get sid (server_registry w')
        = Some (mk_info (session_id info) (process info) (created_at info) (clock w)
                        (mem_used info) (port info) (Some first_name) (Some last_name)
                        (Some email) (first_name ++ " " ++ last_name))
      ∧ Dict.keys (server_registry w') = Dict.keys (server_registry w)
      ∧ (store_healthy (db w) →
           Sql.session_user_info (db w') !! sid
           = Some (Sql.mk_user first_name last_name email (clock w)))
  end.
Proof.
  intros r w'. subst r w'. rewrite update_session_user_info_run.
  destruct (Dict.get sid (server_registry w)) as [info|] eqn:Hget; [|done].
  set (w1 := with_registry (Dict.set sid (with_user first_name last_name email info)
                                     (server_registry w)) w).
  assert (Hget1 : Dict.get sid (server_registry w1)
                  = Some (with_user first_name last_name email info))
    by (subst w1; simpl; by rewrite dict_get_set, String.eqb_refl).
  destruct (update_last_activity_effect sid _ w1 Hget1)
    as (Hret & Hreg & _ & _ & Hclock & Hdb).
  destruct (SessionManager.update_last_activity sid w1) as [res w2] eqn:Hrun.
  simpl in Hret, Hreg, Hclock, Hdb. subst res.
  destruct (guarded_write_effect
              (Sql.UpsertUserInfo sid first_name last_name email (clock w)) (ret tt)
              "Failed to log user info update" w2 (or_introl eq_refl))
    as (Hret3 & Hreg3 & _ & _ & _ & Hdb3).
  destruct (Database.guarded_write _ _ _ w2) as [res w3] eqn:Hrun3.
  simpl in Hret3, Hreg3, Hdb3. subst res.
  rewrite (bind_inr _ _ _ _ _ Hrun). unfold Database.log_user_info_update.
  rewrite (bind_inr _ _ _ _ _ Hrun3), run_ret. cbn [fst snd].
  rewrite Hreg3, Hreg, Hdb3, Hdb. subst w1. cbn [server_registry clock db with_registry].
  split_and!; [done| | |].
  - by rewrite dict_get_set, String.eqb_refl.
  - rewrite !dict_keys_set. unfold Dict.mem.
    rewrite dict_get_set, String.eqb_refl, Hget. done.
  - intros Hhealthy.
    pose proof (healthy_written (Sql.UpdateActivity sid (clock w)) (db w) Hhealthy)
      as [[path Hpath] Hfault].
    unfold written at 1. unfold Sql.transact at 1. rewrite Hpath, Hfault. simpl.
    apply lookup_insert_eq.
Qed.

(* ===================================================================== *)
(** ** Further properties of the pool configuration and the filter lists *)
(* ===================================================================== *)

(** X16. [load_port_config] refills the available queue but does not
    touch the reserved set, so it yields a partition of the range
    exactly when no port is reserved at the time it runs; called while a
    port of the range is reserved, it makes that port available again
    although it is still reserved. *)
Theorem load_port_config_needs_empty_reserved (start end_ : Z) (pool : PortPool.t) :
  (PortPool.partition start end_ (PortPool.load_port_config start end_ pool)
   ↔ PortPool.reserved_ports pool = ∅)
  ∧ (∀ p, p ∈ PortPool.reserved_ports pool → start ≤ p < end_ →
       p ∈ PortPool.available_ports (PortPool.load_port_config start end_ pool)
       ∧ p ∈ PortPool.reserved_ports (PortPool.load_port_config start end_ pool)).
Proof.
  split.
  - split.
    + intros [_ Hdis Hcov]. simpl in *. apply set_eq. intros p.
      split; [|intros H; by apply not_elem_of_empty in H].
      intros Hp. exfalso.
      assert (Hrange : start ≤ p < end_) by (apply Hcov; by right).
      apply (Hdis p); [|done]. apply elem_of_seqZ. lia.
    + intros Hempty. split; simpl; rewrite ?Hempty.
      * apply NoDup_seqZ.
      * intros p _. apply not_elem_of_empty.
      * intros p. rewrite elem_of_seqZ. split; [intros [H|H]|intros H].
        -- lia.
        -- by apply not_elem_of_empty in H.
        -- left. lia.
  - intros p Hp Hrange. simpl. split; [|done]. apply elem_of_seqZ. lia.
Qed.

Lemma load_port_config_needs_empty_reserved_witness :
  let pool := PortPool.load_port_config 8000 8003 (ports Scenario.one_session) in
  8000 ∈ PortPool.available_ports pool ∧ 8000 ∈ PortPool.reserved_ports pool.
Proof.
  intros pool.
  destruct (load_port_config_needs_empty_reserved 8000 8003 (ports Scenario.one_session))
    as [_ Hagain].
  apply Hagain; [by vm_compute|lia].
Defined.

Section filter_facts.
Import PyStr.

Lemma has_char_app (c : ascii) (s t : string) :
  has_char c (s ++ t) = has_char c s || has_char c t.
Proof.
  induction s as [|d s IH]; [done|].
  change (has_char c (String d (s ++ t)) = has_char c (String d s) || has_char c t).
  simpl. rewrite IH. by rewrite orb_assoc.
Qed.

Lemma split_fields_no_sep (s field : string) :
  field ∈ split comma s → has_char comma field = false.
Proof.
  revert field. induction s as [|c rest IH]; intros field; simpl.
  - intros H. apply list_elem_of_singleton in H. by subst.
  - destruct (Ascii.eqb c comma) eqn:Hc.
    + intros H. apply elem_of_cons in H as [->|H]; [done|by apply IH].
    + destruct (split comma rest) as [|f fs] eqn:Hsplit.
      * intros H. apply list_elem_of_singleton in H. subst. simpl. by rewrite Hc.
      * intros H. apply elem_of_cons in H as [->|H].
        -- simpl. rewrite Hc. apply IH. apply list_elem_of_here.
        -- apply IH. by apply list_elem_of_further.
Qed.

Lemma strip_no_new_char (c : ascii) (s : string) :
  has_char c s = false → has_char c (strip s) = false.
Proof.
  intros Hs. destruct (strip_trimmed s) as [_ (l & r & Heq & _)].
  rewrite Heq in Hs. rewrite !has_char_app in Hs.
  apply orb_false_iff in Hs as [_ Hs]. by apply orb_false_iff in Hs as [Hs _].
Qed.

Lemma parse_list_clean (text name : string) :
  name ∈ Database.parse_list text → clean_name name = true.
Proof.
  unfold Database.parse_list. intros Hin.
  apply list_elem_of_fmap in Hin as (field & -> & Hin).
  apply list_elem_of_In, filter_In in Hin as [Hin Htruthy].
  apply list_elem_of_In, split_fields_no_sep in Hin.
  unfold clean_name. rewrite Htruthy, (strip_no_new_char _ _ Hin).
  destruct (strip_trimmed field) as [-> _]. done.
Qed.

End filter_facts.

(** X17. The include and exclude lists hold only clean names: no entry
    is empty, contains a comma or has whitespace at either end, however
    the configuration text is written. Hence a command name that is not
    clean is never matched by either list: with a non-empty include list
    it is never logged, with an empty one it is always logged. *)
Theorem filter_lists_hold_clean_names (config : Config) (name : string) :
  let include := Database.parse_list (log_include_commands config) in
  let exclude := Database.parse_list (log_exclude_commands config) in
  Forall (λ entry, clean_name entry = true) include
  ∧ Forall (λ entry, clean_name entry = true) exclude
  ∧ (clean_name name = false →
       Database.should_log_command config (JStr name)
       = match include with [] => true | _ :: _ => false end).
Proof.
  intros include exclude. split_and!.
  - apply Forall_forall. intros entry. apply parse_list_clean.
  - apply Forall_forall. intros entry. apply parse_list_clean.
  - intros Hdirty.
    assert (Hout : ∀ text, PyStr.mem name (Database.parse_list text) = false).
    { intros text. apply mem_false. intros Hin.
      apply parse_list_clean in Hin. congruence. }
    unfold Database.should_log_command, Database.name_in. fold include.
    destruct include as [|i rest] eqn:Hinc.
    + by rewrite Hout.
    + rewrite <- Hinc. subst include. apply Hout.
Qed.

Lemma filter_lists_hold_clean_names_witness :
  Database.parse_list " ping , get_value ,, " = ["ping"; "get_value"]
  ∧ Database.should_log_command (mk_config 8000 8003 3600 "ping,get_value" "")
                                (JStr " ping") = false.
Proof.
  split; [by vm_compute|].
  destruct (filter_lists_hold_clean_names
              (mk_config 8000 8003 3600 "ping,get_value" "") " ping") as (_ & _ & Hdirty).
  apply Hdirty. by vm_compute.
Defined.

(* ===================================================================== *)
(** ** The store: what the log functions can and cannot change *)
(* ===================================================================== *)

Lemma run_call_db (config : Config) (c : StoreCall) (w : World) :
  db (snd (run_call config c w))
  = match statement_of config c with
    | Some s => written s (db w)
    | None => db w
    end.
Proof.
  assert (Hgw : ∀ s what, db (snd (Database.guarded_write s (ret tt) what w))
                          = written s (db w)).
  { intros s what. apply (guarded_write_effect s (ret tt) what w). by left. }
  assert (Hgl : ∀ s level msg what,
             db (snd (Database.guarded_write s (logger level msg) what w))
             = written s (db w)).
  { intros s level msg what. apply (guarded_write_effect s (logger level msg) what w).
    right. by eauto. }
  destruct c; simpl;
    unfold Database.log_session_created, Database.log_session_destroyed,
           Database.log_session_activity, Database.log_session_metric,
           Database.log_command_execution, Database.log_user_info_update;
    try apply Hgw; try apply Hgl.
  destruct (Database.should_log_command config command_name); simpl; [apply Hgw|done].
Qed.

Lemma execute_appends (s : Sql.stmt) (d d' : Sql.t) :
  Sql.execute s d = inr d' →
  (∃ new, Sql.session_metrics d' = (Sql.session_metrics d ++ new)%list
          ∧ (length new ≤ 1)%nat)
  ∧ (∃ new, Sql.session_commands d' = (Sql.session_commands d ++ new)%list
            ∧ (length new ≤ 1)%nat)
  ∧ (∀ sid row, Sql.sessions d !! sid = Some row →
       ∃ row', Sql.sessions d' !! sid = Some row'
               ∧ Sql.created_at row' = Sql.created_at row
               ∧ Sql.port row' = Sql.port row
               ∧ Sql.client_ip row' = Sql.client_ip row
               ∧ Sql.user_agent row' = Sql.user_agent row)
  ∧ (∀ sid, Sql.sessions d !! sid = None → is_Some (Sql.sessions d' !! sid) →
       ∃ t p ip ua, s = Sql.InsertSession sid t p ip ua).
Proof.
  assert (Hnil : ∀ {A} (l : list A), ∃ new, l = (l ++ new)%list ∧ (length new ≤ 1)%nat).
  { intros A l. exists []. by rewrite app_nil_r; simpl; split; [|lia]. }
  assert (Hone : ∀ {A} (l : list A) x,
             ∃ new, (l ++ [x])%list = (l ++ new)%list ∧ (length new ≤ 1)%nat).
  { intros A l x. exists [x]. by simpl. }
  destruct s as [k at_ p ip ua|k at_ reason|k at_|k ts mem|k ts name ok ms err|k f l e ts];
    simpl; intros Hexec; repeat case_match; simplify_eq; simpl;
    (split; [try apply Hnil; apply Hone|]);
    (split; [try apply Hnil; apply Hone|]); split.
  all: try (by eauto 6).
  all: try (intros sid Hnone Hsome; rewrite Hnone in Hsome; by destruct Hsome).
  - intros sid row Hrow. exists row.
    rewrite lookup_insert_ne; [done|]. intros ->. congruence.
  - intros sid Hnone Hsome. destruct (decide (k = sid)) as [->|Hne]; [by eauto 6|].
    rewrite lookup_insert_ne in Hsome by done. rewrite Hnone in Hsome.
    by destruct Hsome.
  - intros sid row Hrow. destruct (decide (k = sid)) as [->|Hne].
    + rewrite lookup_alter_eq, Hrow. simpl. by eauto 6.
    + rewrite lookup_alter_ne by done. by eauto 6.
  - intros sid Hnone Hsome. exfalso.
    destruct (decide (k = sid)) as [->|Hne].
    + rewrite lookup_alter_eq, Hnone in Hsome. by destruct Hsome.
    + rewrite lookup_alter_ne, Hnone in Hsome by done. by destruct Hsome.
  - intros sid row Hrow. destruct (decide (k = sid)) as [->|Hne].
    + rewrite lookup_alter_eq, Hrow. simpl. by eauto 6.
    + rewrite lookup_alter_ne by done. by eauto 6.
  - intros sid Hnone Hsome. exfalso.
    destruct (decide (k = sid)) as [->|Hne].
    + rewrite lookup_alter_eq, Hnone in Hsome. by destruct Hsome.
    + rewrite lookup_alter_ne, Hnone in Hsome by done. by destruct Hsome.
Qed.

(** X18. The log functions only ever add to the history. Whatever the
    call, the arguments and the condition of the file: the metric and
    command tables keep every row they had, in place, and grow by at
    most one row at the end; no row of [sessions] is deleted, and its
    creation time, port, client address and user agent never change;
    and a row of [sessions] appears only through
    [log_session_created] for that very id. *)
Theorem store_calls_only_append (config : Config) (c : StoreCall) (w : World) :
  let d := db w in
  let d' := db (snd (run_call config c w)) in
  (∃ new, Sql.session_metrics d' = (Sql.session_metrics d ++ new)%list
          ∧ (length new ≤ 1)%nat)
  ∧ (∃ new, Sql.session_commands d' = (Sql.session_commands d ++ new)%list
            ∧ (length new ≤ 1)%nat)
  ∧ (∀ sid row, Sql.sessions d !! sid = Some row →
       ∃ row', Sql.sessions d' !! sid = Some row'
               ∧ Sql.created_at row' = Sql.created_at row
               ∧ Sql.port row' = Sql.port row
               ∧ Sql.client_ip row' = Sql.client_ip row
               ∧ Sql.user_agent row' = Sql.user_agent row)
  ∧ (∀ sid, Sql.sessions d !! sid = None → is_Some (Sql.sessions d' !! sid) →
       ∃ t p ip ua, c = CallCreated sid t p ip ua).
Proof.
  intros d d'. subst d d'. rewrite run_call_db.
  assert (Hsame : ∀ d : Sql.t,
    (∃ new, Sql.session_metrics d = (Sql.session_metrics d ++ new)%list
            ∧ (length new ≤ 1)%nat)
    ∧ (∃ new, Sql.session_commands d = (Sql.session_commands d ++ new)%list
              ∧ (length new ≤ 1)%nat)
    ∧ (∀ sid row, Sql.sessions d !! sid = Some row →
         ∃ row', Sql.sessions d !! sid = Some row'
                 ∧ Sql.created_at row' = Sql.created_at row
                 ∧ Sql.port row' = Sql.port row
                 ∧ Sql.client_ip row' = Sql.client_ip row
                 ∧ Sql.user_agent row' = Sql.user_agent row)
    ∧ (∀ sid, Sql.sessions d !! sid = None → is_Some (Sql.sessions d !! sid) →
         ∃ t p ip ua, c = CallCreated sid t p ip ua)).
  { intros d. split_and!.
    - exists []. rewrite app_nil_r. by split; [|simpl; lia].
    - exists []. rewrite app_nil_r. by split; [|simpl; lia].
    - by eauto 6.
    - intros sid Hnone Hsome. rewrite Hnone in Hsome. by destruct Hsome. }
  destruct (statement_of config c) as [s|] eqn:Hstmt; [|apply Hsame].
  unfold written, Sql.transact.
  destruct (Sql.db_path (db w)); [|apply Hsame].
  destruct (Sql.io_fault (db w)); [apply Hsame|].
  destruct (Sql.execute s (db w)) as [e|d'] eqn:Hexec; [apply Hsame|].
  destruct (execute_appends s (db w) d' Hexec) as (Hm & Hc & Hrows & Hnew).
  split_and!; try done.
  intros sid Hnone Hsome. destruct (Hnew sid Hnone Hsome) as (t & p & ip & ua & ->).
  destruct c; simpl in Hstmt; repeat case_match; simplify_eq. by eauto.
Qed.

Lemma with_sessions_alter_absent (f : Sql.session_row → Sql.session_row)
    (sid : string) (d : Sql.t) :
  Sql.sessions d !! sid = None → Sql.with_sessions (alter f sid) d = d.
Proof.
  intros Hnone. destruct d as [path fault rows metrics cmds users].
  unfold Sql.with_sessions. simpl in *. f_equal.
  apply alter_id. intros row Hrow. congruence.
Qed.

(** X19. The life of a [sessions] row on a store that can be written.
    For an id without a row, [log_session_created] followed by
    [log_session_destroyed] leaves the row terminated, with the
    destruction time and reason and everything else as created. A
    second [log_session_created] for the same id changes nothing (the
    UNIQUE violation is swallowed), and [log_session_destroyed] or
    [log_session_activity] for an id without a row leave the store as
    it is: an UPDATE that matches no row is not an error. *)
Theorem session_row_lifecycle (sid : string) (t p t2 : Z) (ip ua : option string)
    (reason : string) (w : World) :
  store_healthy (db w) →
  Sql.sessions (db w) !! sid = None →
  let w1 := snd (Database.log_session_created sid t p ip ua w) in
  let w2 := snd (Database.log_session_destroyed sid t2 reason w1) in
  Sql.sessions (db w2) !! sid
  = Some (Sql.mk_session t (Some t2) t p ip ua (Some reason) "terminated")
  ∧ (∀ t' p' ip' ua',
       db (snd (Database.log_session_created sid t' p' ip' ua' w1)) = db w1)
  ∧ db (snd (Database.log_session_destroyed sid t2 reason w)) = db w
  ∧ db (snd (Database.log_session_activity sid t2 w)) = db w.
Proof.
  intros Hhealthy Hnone w1 w2.
  pose proof Hhealthy as [[path Hpath] Hfault].
  assert (Heff : ∀ s level msg what v,
             db (snd (Database.guarded_write s (logger level msg) what v))
             = written s (db v)).
  { intros s level msg what v. apply (guarded_write_effect s (logger level msg) what v).
    right. by eauto. }
  assert (Heff0 : ∀ s what v,
             db (snd (Database.guarded_write s (ret tt) what v)) = written s (db v)).
  { intros s what v. apply (guarded_write_effect s (ret tt) what v). by left. }
  assert (H1 : db w1
               = Sql.with_sessions
                   (insert sid (Sql.mk_session t None t p ip ua None "active")) (db w)).
  { subst w1. unfold Database.log_session_created. rewrite Heff.
    unfold written, Sql.transact. rewrite Hpath, Hfault. simpl. by rewrite Hnone. }
  assert (Hh1 : store_healthy (db w1)).
  { subst w1. unfold Database.log_session_created. rewrite Heff.
    by apply healthy_written. }
  destruct Hh1 as [[path1 Hpath1] Hfault1].
  split_and!.
  - subst w2. unfold Database.log_session_destroyed. rewrite Heff.
    unfold written, Sql.transact. rewrite Hpath1, Hfault1. simpl.
    rewrite lookup_alter_eq, H1. simpl. by rewrite lookup_insert_eq.
  - intros t' p' ip' ua'. unfold Database.log_session_created at 1. rewrite Heff.
    unfold written, Sql.transact. rewrite Hpath1, Hfault1. simpl.
    rewrite H1. simpl. by rewrite lookup_insert_eq.
  - unfold Database.log_session_destroyed. rewrite Heff.
    unfold written, Sql.transact. rewrite Hpath, Hfault. simpl.
    by apply with_sessions_alter_absent.
  - unfold Database.log_session_activity. rewrite Heff0.
    unfold written, Sql.transact. rewrite Hpath, Hfault. simpl.
    by apply with_sessions_alter_absent.
Qed.

Lemma session_row_lifecycle_witness :
  let w1 := snd (Database.log_session_created "s1" 100 8000 (Some "10.0.0.1") None
                   Scenario.started) in
  let w2 := snd (Database.log_session_destroyed "s1" 160 "manual" w1) in
  Sql.sessions (db w2) !! "s1"
  = Some (Sql.mk_session 100 (Some 160) 100 8000 (Some "10.0.0.1") None
                         (Some "manual") "terminated").
Proof.
  intros w1 w2.
  assert (Hh : store_healthy (db Scenario.started)) by (split; [by eexists|done]).
  assert (Hn : Sql.sessions (db Scenario.started) !! "s1" = None) by (by vm_compute).
  destruct (session_row_lifecycle "s1" 100 8000 160 (Some "10.0.0.1") None "manual"
              Scenario.started Hh Hn) as (Hrow & _).
  exact Hrow.
Defined.

(* ===================================================================== *)
(** ** The worker loop *)
(* ===================================================================== *)

Lemma serve_answerable {Bundle : Type}
    (engine : string → list (string * json) → Bundle → Worker.Outcome)
    (request : json) (b : Bundle) :
  answerable request = true →
  ∃ reply b', Worker.serve engine request b = Worker.Replied reply b'
              ∧ envelope reply = true.
Proof.
  unfold answerable, Worker.serve. intros Hok.
  destruct request as [| | | | |items|fields]; try done.
  destruct (Dict.get "command" fields) as [command|]; [|done].
  destruct command; try done; try (by eauto).
  destruct (PyStr.mem _ Worker.commands); [|by eauto].
  destruct (engine _ _ b); by eauto.
Qed.

Lemma serve_unanswerable {Bundle : Type}
    (engine : string → list (string * json) → Bundle → Worker.Outcome)
    (request : json) (b : Bundle) :
  answerable request = false →
  Worker.serve engine request b
  = Worker.Crashed
      match request with
      | JDict fields =>
          match Dict.get "command" fields with
          | None => Worker.MissingCommandKey
          | Some command => Worker.UnhashableCommand command
          end
      | _ => Worker.NonDictRequest request
      end.
Proof.
  unfold answerable, Worker.serve. intros Hbad.
  destruct request as [| | | | |items|fields]; try done.
  destruct (Dict.get "command" fields) as [command|]; [|done].
  by destruct command.
Qed.

(** X20. The loop sends exactly one reply per request, and never stops,
    as long as every request is a mapping whose [command] is present and
    is not a list or a mapping: whether the command is known or not,
    and whether the engine returns or raises, each request is answered
    by an envelope that starts with a boolean [success]. *)
Theorem worker_answers_every_request {Bundle : Type}
    (engine : string → list (string * json) → Bundle → Worker.Outcome)
    (requests : list json) (b : Bundle) :
  Forall (λ request, answerable request = true) requests →
  snd (Worker.run engine requests b) = None
  ∧ length (fst (Worker.run engine requests b)) = length requests
  ∧ Forall (λ reply, envelope reply = true) (fst (Worker.run engine requests b)).
Proof.
  intros Hall. revert b. induction Hall as [|request rest Hok _ IH]; intros b.
  - by simpl.
  - destruct (serve_answerable engine request b Hok) as (reply & b' & Hserve & Henv).
    cbn [Worker.run]. rewrite Hserve.
    destruct (IH b') as (Hcrash & Hlen & Hreplies).
    destruct (Worker.run engine rest b') as [replies crash]. simpl in *.
    split_and!; [done|by rewrite Hlen|by constructor].
Qed.

Lemma worker_answers_every_request_witness :
  let engine := λ (_ : string) (_ : list (string * json)) (b : unit),
                  Worker.Returned JNull b in
  let requests := [JDict [("command", JStr "ping")];
                   JDict [("command", JStr "no_such"); ("x", JInt 1)];
                   JDict [("command", JNull)]] in
  length (fst (Worker.run engine requests tt)) = 3%nat.
Proof.
  intros engine requests.
  assert (Hall : Forall (λ request, answerable request = true) requests)
    by (repeat constructor).
  destruct (worker_answers_every_request engine requests tt Hall) as (_ & Hlen & _).
  exact Hlen.
Defined.

(** X21. The first request that cannot be answered ends the loop. After
    any number of answered requests, a request that is not a mapping, has
    no [command], or whose [command] is a list or a mapping raises
    ([ValueError], [KeyError], [TypeError] respectively) before anything
    is sent for it: the replies are exactly those of the requests before
    it, and no later request is served. *)
Theorem worker_stops_at_first_bad_request {Bundle : Type}
    (engine : string → list (string * json) → Bundle → Worker.Outcome)
    (before after : list json) (bad : json) (b : Bundle) :
  Forall (λ request, answerable request = true) before →
  answerable bad = false →
  Worker.run engine (before ++ bad :: after)%list b
  = (fst (Worker.run engine before b),
     Some match bad with
          | JDict fields =>
              match Dict.get "command" fields with
              | None => Worker.MissingCommandKey
              | Some command => Worker.UnhashableCommand command
              end
          | _ => Worker.NonDictRequest bad
          end).
Proof.
  intros Hall Hbad. revert b. induction Hall as [|request rest Hok _ IH]; intros b.
  - cbn [app Worker.run]. by rewrite (serve_unanswerable engine bad b Hbad).
  - destruct (serve_answerable engine request b Hok) as (reply & b' & Hserve & _).
    change ((request :: rest) ++ bad :: after)%list
      with (request :: (rest ++ bad :: after))%list.
    cbn [Worker.run]. rewrite Hserve, (IH b').
    by destruct (Worker.run engine rest b') as [replies crash].
Qed.

Lemma worker_stops_at_first_bad_request_witness :
  let engine := λ (_ : string) (_ : list (string * json)) (b : unit),
                  Worker.Returned JNull b in
  Worker.run engine [JDict [("command", JStr "ping")];
                     JDict [("command", JList [JStr "ping"])];
                     JDict [("command", JStr "ping")]] tt
  = ([[("success", JBool true); ("result", JNull)]],
     Some (Worker.UnhashableCommand (JList [JStr "ping"]))).
Proof.
  intros engine.
  assert (Hall : Forall (λ request, answerable request = true)
                        [JDict [("command", JStr "ping")]])
    by (repeat constructor).
  assert (Hbad : answerable (JDict [("command", JList [JStr "ping"])]) = false)
    by reflexivity.
  exact (worker_stops_at_first_bad_request engine
           [JDict [("command", JStr "ping")]]
           [JDict [("command", JStr "ping")]]
           (JDict [("command", JList [JStr "ping"])]) tt Hall Hbad).
Defined.

(* ===================================================================== *)
(** ** [make_json_serializable] *)
(* ===================================================================== *)

Section normalize_facts.
Import Normalize.





End normalize_facts.


(* ===================================================================== *)
(** ** [send] on a session that exists *)
(* ===================================================================== *)

Lemma beside_refl (w : World) : beside w w.
Proof. split_and!; [done|done|]. exists []. by rewrite app_nil_r. Qed.

Lemma beside_trans (w1 w2 w3 : World) : beside w1 w2 → beside w2 w3 → beside w1 w3.
Proof.
  intros (Hc1 & Hd1 & evs1 & Hj1 & Hq1) (Hc2 & Hd2 & evs2 & Hj2 & Hq2).
  split_and!; [congruence|congruence|].
  exists (evs1 ++ evs2)%list. rewrite Hj2, Hj1, <- app_assoc. split; [done|].
  by rewrite List.filter_app, Hq1, Hq2.
Qed.

Lemma transact_keeps_commands (s : Sql.stmt) (d d' : Sql.t) :
  (∀ sid ts name ok ms err, s ≠ Sql.InsertCommand sid ts name ok ms err) →
  Sql.transact s d = inr d' →
  Sql.session_commands d' = Sql.session_commands d.
Proof.
  intros Hs. unfold Sql.transact.
  destruct (Sql.db_path d); [|done]. destruct (Sql.io_fault d); [done|].
  destruct s; try (exfalso; by eapply Hs);
    simpl; intros H; repeat case_match; by simplify_eq.
Qed.

Lemma guarded_write_journal (s : Sql.stmt) (after : M unit) (what : string) (w : World) :
  (after = ret tt ∨ ∃ level msg, after = logger level msg) →
  ∃ evs, journal (snd (Database.guarded_write s after what w)) = (journal w ++ evs)%list
         ∧ List.filter Ev.is_rpc evs = [].
Proof.
  intros Hafter. rewrite guarded_write_run.
  destruct (Sql.transact s (db w)) as [e|d].
  - simpl. rewrite <- app_assoc. by eexists.
  - destruct Hafter as [->|(level & msg & ->)].
    + simpl. by eexists.
    + simpl. rewrite <- app_assoc. by eexists.
Qed.

Lemma beside_guarded_write (s : Sql.stmt) (after : M unit) (what : string)
    (base w : World) :
  (∀ sid ts name ok ms err, s ≠ Sql.InsertCommand sid ts name ok ms err) →
  (after = ret tt ∨ ∃ level msg, after = logger level msg) →
  beside base w → beside base (snd (Database.guarded_write s after what w)).
Proof.
  intros Hs Hafter Hbase. apply (beside_trans _ w); [done|].
  destruct (guarded_write_effect s after what w Hafter) as (_ & _ & _ & _ & Hclock & Hdb).
  split_and!; [done| |by apply guarded_write_journal].
  rewrite Hdb. unfold written.
  destruct (Sql.transact s (db w)) as [e|d] eqn:Htx; [done|].
  by apply (transact_keeps_commands s).
Qed.

Lemma beside_update_last_activity (sid : string) (base : World) :
  keeps (beside base) (SessionManager.update_last_activity sid).
Proof.
  intros w Hw. rewrite update_last_activity_run.
  destruct (Dict.get sid (server_registry w)) as [info|]; [|done].
  apply beside_guarded_write; [done|by left|].
  apply (beside_trans _ w); [done|]. split_and!; [done|done|].
  exists []. by rewrite app_nil_r.
Qed.

Lemma beside_get_current_memory_usage (sid : string) (base : World) :
  keeps (beside base) (SessionManager.get_current_memory_usage sid).
Proof.
  intros w Hw. rewrite get_current_memory_usage_run.
  destruct (Dict.get sid (server_registry w)) as [info|]; [|done].
  destruct (process info) as [proc|]; [|done].
  destruct (OS.memory_rss proc (os w)) as [rss|]; [|done].
  apply keeps_bind; [apply beside_update_last_activity| |].
  - intros _. apply keeps_bind; [|intros _; by apply keeps_pure].
    intros v Hv. by apply beside_guarded_write; [|left|].
  - apply (beside_trans _ w); [done|]. split_and!; [done|done|].
    exists []. by rewrite app_nil_r.
Qed.

(** X23. [send] on a session that exists. The worker is contacted
    exactly once, on the port of the registry entry and with the command
    as it was received, and its reply is returned as it is, whether it
    reports success or an error. The clock moves by the duration of the
    exchange and by nothing else. On a store that can be written the
    command history grows by the one row described by [command_rows]:
    the name is the [command] field or [unknown] when there is none, the
    row is stamped after the exchange, the execution time is its
    duration in milliseconds and the error text is kept only for a
    failed command; nothing is added when the filter drops the name or
    the name cannot be bound. *)
Theorem send_forwards_command (config : Config)
    (worker : Z → list (string * json) → Api.Reply * Z)
    (sid : string) (command : list (string * json)) (info : SessionInfo) (w : World) :
  Dict.get sid (server_registry w) = Some info →
  let reply := fst (worker (port info) command) in
  let dt := snd (worker (port info) command) in
  let name := default (JStr "unknown") (Dict.get "command" command) in
  let r := Api.send config worker sid command w in
  fst r = inr reply
  ∧ List.filter Ev.is_rpc (events_since w (snd r)) = [EvRpc (port info) command]
  ∧ clock (snd r) = clock w + dt
  ∧ (store_healthy (db w) →
       Sql.session_commands (db (snd r))
       = (Sql.session_commands (db w)
          ++ command_rows config sid (clock w + dt) name reply (dt * 1000))%list).
Proof.
  intros Hget reply dt name r. subst r.
  unfold Api.send, SessionManager.get_server_info.
  rewrite run_bind_bind, run_bind_gets, Hget, run_bind_ret.
  change (port (without_process info)) with (port info).
  (* the activity update *)
  destruct (update_last_activity_effect sid info w Hget)
    as (Hret1 & _ & _ & _ & _ & Hdb1).
  pose proof (beside_update_last_activity sid w w (beside_refl w))
    as (Hclock1 & Hcmds1 & evs1 & Hj1 & Hq1).
  destruct (SessionManager.update_last_activity sid w) as [res1 w1] eqn:Hrun1.
  simpl in Hret1, Hdb1, Hclock1, Hcmds1, Hj1. subst res1.
  rewrite (bind_inr _ _ _ _ _ Hrun1).
  (* the exchange with the worker *)
  unfold time_time. rewrite run_bind_gets.
  unfold Api.send_command. fold reply dt.
  rewrite !run_bind_bind. unfold emit. rewrite run_bind_modify.
  rewrite !run_bind_bind. unfold advance. rewrite run_bind_modify.
  rewrite run_bind_ret. cbn [clock journal server_registry ports db os].
  set (w2 := mk_world _ _ _ _ _ _).
  rewrite !run_bind_gets.
  (* the command log *)
  set (ms := (clock w2 - clock w1) * 1000).
  set (err := if negb (Api.reply_success reply) then Api.reply_error reply else None).
  pose proof (never_raises_run_call config
                (CallCommand sid (clock w2) name (Api.reply_success reply) (Some ms) err) w2)
    as (res3 & w3 & Hrun3).
  pose proof (store_only_run_call config
                (CallCommand sid (clock w2) name (Api.reply_success reply) (Some ms) err) w2)
    as (_ & _ & _ & Hclock3).
  pose proof (run_call_db config
                (CallCommand sid (clock w2) name (Api.reply_success reply) (Some ms) err) w2)
    as Hdb3.
  assert (Hj3 : ∃ evs, journal w3 = (journal w2 ++ evs)%list
                       ∧ List.filter Ev.is_rpc evs = []).
  { cbn [run_call] in Hrun3. unfold Database.log_command_execution in Hrun3.
    destruct (negb (Database.should_log_command config name)).
    - rewrite run_ret in Hrun3. simplify_eq. exists []. by rewrite app_nil_r.
    - pose proof (guarded_write_journal
                    (Sql.InsertCommand sid (clock w2) name (Api.reply_success reply)
                                       (Some ms) err)
                    (ret tt) "Failed to log command execution" w2 (or_introl eq_refl))
        as Hj.
      by rewrite Hrun3 in Hj. }
  cbn [run_call] in Hrun3, Hclock3, Hdb3. rewrite Hrun3 in Hclock3, Hdb3.
  cbn [snd] in Hclock3, Hdb3. destruct res3.
  rewrite (bind_inr _ _ _ _ _ Hrun3).
  (* the memory sample *)
  pose proof (never_raises_get_current_memory_usage sid w3) as (res4 & w4 & Hrun4).
  pose proof (beside_get_current_memory_usage sid w3 w3 (beside_refl w3))
    as (Hclock4 & Hcmds4 & evs4 & Hj4 & Hq4).
  rewrite Hrun4 in Hclock4, Hcmds4, Hj4. cbn [snd] in Hclock4, Hcmds4, Hj4.
  rewrite (bind_inr _ _ _ _ _ Hrun4), run_ret. cbn [fst snd].
  destruct Hj3 as (evs3 & Hj3 & Hq3).
  assert (Hclock2 : clock w2 = clock w + dt) by (subst w2; simpl; by rewrite Hclock1).
  split_and!.
  - done.
  - rewrite (events_since_app w w4 (evs1 ++ [EvRpc (port info) command] ++ evs3 ++ evs4)).
    + rewrite !List.filter_app, Hq1, Hq3, Hq4. done.
    + rewrite Hj4, Hj3. subst w2. cbn [journal]. rewrite Hj1.
      by rewrite <- !app_assoc.
  - by rewrite Hclock4, Hclock3.
  - intros Hhealthy. rewrite Hcmds4, Hdb3.
    assert (Hh2 : store_healthy (db w2)).
    { subst w2. cbn [db]. rewrite Hdb1. by apply healthy_written. }
    assert (Hms : ms = dt * 1000) by (subst ms; rewrite Hclock2, Hclock1; f_equal; lia).
    assert (Herr : err = Api.reply_error reply) by (subst err; by destruct reply).
    unfold statement_of, command_rows.
    destruct (Database.should_log_command config name);
      [|by rewrite app_nil_r].
    destruct Hh2 as [[path Hpath] Hfault].
    unfold written, Sql.transact. rewrite Hpath, Hfault. simpl.
    destruct (Sql.bind_text name) as [e|text]; [by rewrite app_nil_r|].
    simpl. by rewrite Hcmds1, Hclock1, Hms, Herr.
Qed.

Lemma send_forwards_command_witness :
  let command := [("command", JStr "get_value"); ("twig", JStr "period")] in
  let r := Api.send Scenario.config Scenario.worker "s1" command Scenario.one_session in
  List.filter Ev.is_rpc (events_since Scenario.one_session (snd r))
  = [EvRpc 8000 command]
  ∧ length (Sql.session_commands (db (snd r))) = 1%nat.
Proof.
  intros command r.
  assert (Hget : ∃ info, Dict.get "s1" (server_registry Scenario.one_session) = Some info
                         ∧ port info = 8000)
    by (eexists; split; by vm_compute).
  destruct Hget as (info & Hget & Hport).
  assert (Hh : store_healthy (db Scenario.one_session)) by (split; [by eexists|done]).
  destruct (send_forwards_command Scenario.config Scenario.worker "s1" command info
              Scenario.one_session Hget) as (_ & Hrpc & _ & Hrows).
  rewrite Hport in Hrpc. split; [exact Hrpc|].
  subst r. rewrite (Hrows Hh), length_app.
  assert (Hold : Sql.session_commands (db Scenario.one_session) = []) by (by vm_compute).
  rewrite Hold. by vm_compute.
Defined.

(* ===================================================================== *)
(** ** [start_session]: what the store remembers of the client *)
(* ===================================================================== *)

(** X24. A session started through [POST /start-session] is recorded
    with the address [get_client_ip] computes from the request (the first
    forwarded address when there is an [X-Forwarded-For] header, else the
    peer) and with the [User-Agent] header, absent when the request has
    none; the reply is the new registry entry without its process
    handle. *)
Theorem start_session_records_client (env : SessionManager.Launch)
    (request : Api.Request) (w : World) (port pid : Z) (rest : list Z) :
  PortPool.available_ports (ports w) = port :: rest →
  SessionManager.popen env = inr pid →
  SessionManager.worker_ready env = true →
  store_healthy (db w) →
  Sql.sessions (db w) !! SessionManager.uuid4 env = None →
  let sid := SessionManager.uuid4 env in
  let r := Api.start_session env request w in
  fst r = inr (without_process (new_entry sid pid port (clock w)))
  ∧ process (without_process (new_entry sid pid port (clock w))) = None
  ∧ Sql.sessions (db (snd r)) !! sid
    = Some (Sql.mk_session (clock w) None (clock w) port
                           (Some (Api.get_client_ip request))
                           (Api.headers_get "User-Agent" (Api.headers request))
                           None "active").
Proof.
  intros Hav Hpopen Hready [[path Hpath] Hfault] Hfresh sid r. subst r sid.
  unfold Api.start_session.
  set (ip := Some (Api.get_client_ip request)).
  set (ua := Api.headers_get "User-Agent" (Api.headers request)).
  destruct w as [reg [av res] d o t j]. simpl in Hav, Hpath, Hfault, Hfresh. subst av.
  unfold SessionManager.launch_phoebe_worker, new_entry.
  rewrite Hpopen, Hready.
  cbn [server_registry ports db os clock journal].
  assert (Htx : Sql.transact (Sql.InsertSession (SessionManager.uuid4 env) t port ip ua) d
                = inr (Sql.with_sessions
                         (insert (SessionManager.uuid4 env)
                                 (Sql.mk_session t None t port ip ua None "active")) d)).
  { unfold Sql.transact. rewrite Hpath, Hfault. simpl. by rewrite Hfresh. }
  repeat (exec; rewrite ?dict_get_set, ?String.eqb_refl, ?Htx).
  split_and!; [done|done|]. simpl. apply lookup_insert_eq.
Qed.

Lemma start_session_records_client_witness :
  let request := Api.mk_request [("x-forwarded-for", "10.0.0.1, 172.16.0.1")]
                                (Some ("192.168.1.1", 5000)) in
  Sql.client_ip <$> (Sql.sessions (db (snd (Api.start_session Scenario.launch_s1 request
                                              Scenario.started))) !! "s1")
  = Some (Some "10.0.0.1").
Proof.
  intros request.
  assert (Hav : PortPool.available_ports (ports Scenario.started) = 8000 :: [8001; 8002])
    by (by vm_compute).
  assert (Hh : store_healthy (db Scenario.started)) by (split; [by eexists|done]).
  assert (Hn : Sql.sessions (db Scenario.started) !! SessionManager.uuid4 Scenario.launch_s1
               = None) by (by vm_compute).
  destruct (start_session_records_client Scenario.launch_s1 request Scenario.started
              8000 4242 [8001; 8002] Hav eq_refl eq_refl Hh Hn) as (_ & _ & Hrow).
  change (SessionManager.uuid4 Scenario.launch_s1) with "s1" in Hrow.
  rewrite Hrow. by vm_compute.
Defined.


(* ===================================================================== *)
(** ** [session_memory_all] *)
(* ===================================================================== *)

Lemma get_current_memory_usage_sampled (sid : string) (w : World) :
  let r := SessionManager.get_current_memory_usage sid w in
  fst r = inr (sampled sid w)
  ∧ ∀ sid', sampled sid' (snd r) = sampled sid' w.
Proof.
  intros r. subst r. unfold sampled at 1 3. rewrite get_current_memory_usage_run.
  destruct (Dict.get sid (server_registry w)) as [info|] eqn:Hget; [|done].
  destruct (process info) as [pid|] eqn:Hproc; [|done].
  destruct (OS.memory_rss pid (os w)) as [rss|] eqn:Hrss; [|done].
  set (mem := (inject_Z _ / inject_Z _)%Q). cbv zeta.
  set (w1 := with_registry (Dict.set sid (with_mem_used mem info) (server_registry w)) w).
  assert (Hget1 : Dict.get sid (server_registry w1) = Some (with_mem_used mem info))
    by (subst w1; simpl; by rewrite dict_get_set, String.eqb_refl).
  destruct (update_last_activity_effect sid _ w1 Hget1)
    as (Hret & Hreg & _ & Hos & _ & _).
  destruct (SessionManager.update_last_activity sid w1) as [res w2] eqn:Hrun.
  simpl in Hret, Hreg, Hos. subst res.
  destruct (guarded_write_effect (Sql.InsertMetric sid (clock w) mem) (ret tt)
              "Failed to log session metric" w2 (or_introl eq_refl))
    as (Hret3 & Hreg3 & _ & Hos3 & _ & _).
  destruct (Database.guarded_write _ _ _ w2) as [res w3] eqn:Hrun3.
  simpl in Hret3, Hreg3, Hos3. subst res.
  rewrite (bind_inr _ _ _ _ _ Hrun). unfold Database.log_session_metric.
  rewrite (bind_inr _ _ _ _ _ Hrun3), run_ret. cbn [fst snd].
  split; [done|]. intros sid'. unfold sampled.
  rewrite Hreg3, Hreg, Hos3, Hos. subst w1. cbn [server_registry os with_registry].
  rewrite !dict_get_set.
  destruct (String.eqb sid sid') eqn:Heq; [|done].
  apply String.eqb_eq in Heq. subst sid'. rewrite Hget. simpl. by rewrite Hproc.
Qed.

Lemma sample_all_run (g : string → option Q) (ids : list string)
    (acc : list (string * Q)) (w : World) :
  (∀ sid, sampled sid w = g sid) →
  fst (Handlers.sample_all ids acc w)
  = inr (foldl (λ acc sid, match g sid with
                           | Some mem => Dict.set sid mem acc
                           | None => acc
                           end) acc ids).
Proof.
  revert acc w. induction ids as [|sid rest IH]; intros acc w Hg; [done|].
  destruct (get_current_memory_usage_sampled sid w) as [Hret Hkeep].
  destruct (SessionManager.get_current_memory_usage sid w) as [res w1] eqn:Hrun.
  simpl in Hret, Hkeep. subst res.
  cbn [Handlers.sample_all foldl]. rewrite (bind_inr _ _ _ _ _ Hrun), Hg.
  destruct (g sid) as [mem|]; apply IH; intros sid'; by rewrite Hkeep.
Qed.

Lemma dict_get_snoc {V} (k k' : string) (v : V) (d : list (string * V)) :
  Dict.get k d = None → k ≠ k' → Dict.get k (d ++ [(k', v)])%list = None.
Proof.
  intros Hnone Hne. apply dict_get_None. apply dict_get_None in Hnone.
  unfold Dict.keys in *. rewrite map_app. simpl.
  intros Hin. apply elem_of_app in Hin as [Hin|Hin]; [done|].
  apply list_elem_of_singleton in Hin. done.
Qed.

Lemma fold_set_fresh {V} (g : string → option V) (ids : list string)
    (acc : list (string * V)) :
  NoDup ids →
  (∀ sid, sid ∈ ids → Dict.get sid acc = None) →
  foldl (λ acc sid, match g sid with
                    | Some v => Dict.set sid v acc
                    | None => acc
                    end) acc ids
  = (acc ++ omap (λ sid, pair sid <$> g sid) ids)%list.
Proof.
  intros Hnd. revert acc. induction Hnd as [|sid rest Hnotin _ IH]; intros acc Hfresh.
  - simpl. by rewrite app_nil_r.
  - simpl. destruct (g sid) as [v|]; simpl.
    + rewrite dict_set_fresh by (apply Hfresh; by left).
      rewrite IH; [by rewrite <- app_assoc|].
      intros sid' Hin. apply dict_get_snoc; [apply Hfresh; by right|].
      intros ->. done.
    + apply IH. intros sid' Hin. apply Hfresh. by right.
Qed.

Lemma dict_del_many_NoDup {V} (ds : list string) (d : list (string * V)) :
  NoDup (Dict.keys d) → NoDup (Dict.keys (foldl (λ r s, Dict.del s r) d ds)).
Proof.
  revert d. induction ds as [|k ds IH]; intros d Hnd; [done|].
  simpl. by apply IH, dict_del_keys_NoDup.
Qed.

(** X25. [session_memory_all] never answers 404. It first lists the
    sessions, which ends those whose worker has died, and then reports,
    in registry order, each remaining session together with the
    resident memory of its process in MiB; a session that cannot be
    sampled is left out of the answer instead of failing the request, and
    sampling one session does not change what is found for another. *)
Theorem session_memory_all_reports_samples (w : World) :
  registry_wf w →
  let listed := snd (SessionManager.list_sessions w) in
  registry_wf listed
  ∧ fst (Handlers.session_memory_all w)
    = inr (omap (λ sid, pair sid <$> sampled sid listed)
                (Dict.keys (server_registry listed))).
Proof.
  intros Hwf listed. subst listed. unfold Handlers.session_memory_all.
  pose proof (list_sessions_run w) as Hrun. cbv zeta in Hrun.
  rewrite Hrun. cbn [snd]. rewrite (bind_inr _ _ _ _ _ Hrun).
  set (w1 := foldl _ w _).
  assert (Hwf1 : registry_wf w1).
  { subst w1. unfold registry_wf. rewrite shutdown_loop_registry.
    by apply dict_del_many_NoDup. }
  split; [done|].
  assert (Hkeys : Dict.keys (map (λ sid, (sid, without_process
                                                 <$> Dict.get sid (server_registry w1)))
                                 (Dict.keys (server_registry w1)))
                  = Dict.keys (server_registry w1)).
  { unfold Dict.keys. rewrite map_map. simpl. by rewrite map_id. }
  rewrite Hkeys.
  rewrite (sample_all_run (λ sid, sampled sid w1)) by done.
  by rewrite fold_set_fresh.
Qed.

Lemma session_memory_all_reports_samples_witness :
  Dict.keys (match fst (Handlers.session_memory_all
                          (Scenario.killed 4242 Scenario.two_sessions)) with
             | inr data => data
             | inl _ => []
             end)
  = ["s2"].
Proof.
  assert (Hwf : registry_wf (Scenario.killed 4242 Scenario.two_sessions)).
  { unfold registry_wf. apply (bool_decide_unpack _). by vm_compute. }
  destruct (session_memory_all_reports_samples _ Hwf) as [_ Hdata].
  rewrite Hdata. by vm_compute.
Defined.
